(** * Myrtille bridge of the FreeRDP Windows client (wf_myrtille.cpp)

    A shallow embedding of the command reader / dispatcher, the region
    consolidator and throttle, the adaptive encoding pipeline and the
    outbound message framer, together with the properties stated for them.

    Conventions.
    - A C [int] / [LONG] is a [Z] in the range [INT_MIN, INT_MAX]; where the
      source can leave the range the wrap-around is written with [wrap_int].
      A [DWORD] / [ULONG] / [UINT32] is a [Z] reduced with [wrap_uint].
    - A [byte] is a [Z] in [0, 255]; a buffer is a [list Z].
    - A [std::string] is a [string] (a sequence of 8-bit characters); a
      [std::wstring] is a list of UTF-16 code units.
    - A [float] is an IEEE-754 binary32 value ([spec_float] at precision 24).
    - Calls into GDI/GDI+, libwebp, the RDP engine and the pipes are
      collaborators: pure parameters (class [Platform]) or recorded effects. *)

From Stdlib Require Import ZArith List String Ascii Bool Lia.
From Stdlib Require Import Floats.SpecFloat.
From stdpp Require Import base option list gmap strings.

Local Open Scope string_scope.
Local Open Scope Z_scope.

(* ===================================================================== *)
(** * Machine integers *)
(* ===================================================================== *)

Module Int.

Definition INT_MAX : Z := 2147483647.
Definition INT_MIN : Z := -2147483648.

(** Two's complement reduction to a signed 32-bit [int]. *)
Definition wrap_int (z : Z) : Z := (z + 2 ^ 31) mod 2 ^ 32 - 2 ^ 31.

(** Reduction to an unsigned 32-bit integer ([DWORD], [ULONG], [UINT32]). *)
Definition wrap_uint (z : Z) : Z := z mod 2 ^ 32.

(** Reduction to an unsigned 16-bit integer ([UINT16]). *)
Definition wrap_uint16 (z : Z) : Z := z mod 2 ^ 16.

Definition in_int (z : Z) : Prop := INT_MIN <= z <= INT_MAX.

(** C integer division truncates toward zero. *)
Definition cdiv (a b : Z) : Z := Z.quot a b.
Definition cmod (a b : Z) : Z := Z.rem a b.

Definition b2z (b : bool) : Z := if b then 1 else 0.

End Int.
Export Int.

(* ===================================================================== *)
(** * Byte buffers: [int32ToBytes] and [bytesToInt32] *)
(* ===================================================================== *)

(** [bytes[i]] for a buffer; reading past the end is undefined in the source
    and yields 0 here. *)
Definition byte_at (bytes : list Z) (i : nat) : Z := default 0 (bytes !! i).

(** [void int32ToBytes(int value, int offset, byte* bytes)] *)
Definition int32ToBytes (value : Z) (offset : nat) (bytes : list Z) : list Z :=
  let bytes := <[offset := Z.land value 255]> bytes in
  let bytes := <[(offset + 1)%nat := Z.land (Z.shiftr value 8) 255]> bytes in
  let bytes := <[(offset + 2)%nat := Z.land (Z.shiftr value 16) 255]> bytes in
  <[(offset + 3)%nat := Z.land (Z.shiftr value 24) 255]> bytes.

(** [int bytesToInt32(byte* bytes)] *)
Definition bytesToInt32 (bytes : list Z) : Z :=
  wrap_int
    (Z.lor (Z.lor (Z.lor (byte_at bytes 0)
                         (Z.shiftl (byte_at bytes 1) 8))
                  (Z.shiftl (byte_at bytes 2) 16))
           (Z.shiftl (byte_at bytes 3) 24)).

(** [new byte[n]]: the content of a fresh buffer is indeterminate in the
    source; it is zero-filled here. *)
Definition new_bytes (n : nat) : list Z := replicate n 0.

(* ===================================================================== *)
(** * IEEE-754 binary32 ([float]) *)
(* ===================================================================== *)

Module Float32.

Definition prec : Z := 24.
Definition emax : Z := 128.

Definition float := spec_float.

(** [(float)i] for an [int] [i]: round to nearest even. *)
Definition of_int (i : Z) : float := binary_normalize prec emax i 0 false.

Definition div (x y : float) : float := SFdiv prec emax x y.
Definition mul (x y : float) : float := SFmul prec emax x y.
Definition eqb (x y : float) : bool := SFeqb x y.
Definition ltb (x y : float) : bool := SFltb x y.

(** [(int)f]: truncation toward zero.  For a NaN, an infinity or a value
    outside the range of [int] the conversion is undefined in C++; the x86
    conversion instruction the Windows build uses returns [INT_MIN]. *)
Definition to_int (f : float) : Z :=
  match f with
  | S754_zero _ => 0
  | S754_finite s m e =>
      let mag := match e with
                 | Z0 => Zpos m
                 | Zpos p => Zpos m * 2 ^ Zpos p
                 | Zneg p => Zpos m / 2 ^ Zpos p
                 end in
      let v := if s then - mag else mag in
      if (INT_MIN <=? v) && (v <=? INT_MAX) then v else INT_MIN
  | S754_infinity _ => INT_MIN
  | S754_nan => INT_MIN
  end.

End Float32.

(* ===================================================================== *)
(** * Strings: the [std::string] and C library calls the source uses *)
(* ===================================================================== *)

(** Exceptions of the C++ standard library that the source lets escape. *)
Inductive exn : Type :=
| invalid_argument
| out_of_range.

Module Str.

Definition chr (n : nat) : ascii := ascii_of_nat n.

(** [s.length()] *)
Definition len (s : string) : nat := String.length s.

(** [s.substr(pos, n)]: throws [out_of_range] when [pos > s.length()]. *)
Definition substr (s : string) (pos n : nat) : exn + string :=
  if (len s <? pos)%nat then inl out_of_range else inr (String.substring pos n s).

(** The rest of a C string from position [pos]: [&s[pos]]. *)
Definition from (s : string) (pos : nat) : string := String.substring pos (len s) s.

(** The bytes of a buffer as a [std::string], and back. *)
Definition of_bytes (l : list Z) : string :=
  string_of_list_ascii ((fun b => ascii_of_nat (Z.to_nat b)) <$> l).
Definition to_bytes (s : string) : list Z :=
  (fun a => Z.of_nat (nat_of_ascii a)) <$> list_ascii_of_string s.

(** [s.find(c)] for a one-character pattern: position of the first
    occurrence, [None] for [npos]. *)
Fixpoint find (s : string) (c : ascii) : option nat :=
  match s with
  | EmptyString => None
  | String a s' => if Ascii.eqb a c then Some O else S <$> find s' c
  end.

(** [s.c_str()] seen as a C string: the characters before the first NUL. *)
Fixpoint c_str (s : string) : string :=
  match s with
  | EmptyString => EmptyString
  | String a s' => if Ascii.eqb a zero then EmptyString else String a (c_str s')
  end.

(** [isspace] in the C locale. *)
Definition isspace (a : ascii) : bool :=
  let n := nat_of_ascii a in
  (n =? 32)%nat || ((9 <=? n)%nat && (n <=? 13)%nat).

Definition isdigit (a : ascii) : bool :=
  let n := nat_of_ascii a in (48 <=? n)%nat && (n <=? 57)%nat.

Definition digit_val (a : ascii) : Z := Z.of_nat (nat_of_ascii a) - 48.

Fixpoint skip_spaces (s : string) : string :=
  match s with
  | String a s' => if isspace a then skip_spaces s' else s
  | EmptyString => EmptyString
  end.

(** The longest prefix of decimal digits: its value and whether it is
    non-empty. *)
Fixpoint digits (s : string) (acc : Z) (seen : bool) : Z * bool :=
  match s with
  | String a s' => if isdigit a then digits s' (acc * 10 + digit_val a) true
                   else (acc, seen)
  | EmptyString => (acc, seen)
  end.

(** The common front end of [strtol(.., 10)]: blanks, an optional sign, then
    digits.  [None] when no digit follows. *)
Definition scan_long (s : string) : option Z :=
  let s := skip_spaces s in
  let '(neg, s) :=
    match s with
    | String a s' =>
        if Ascii.eqb a "-"%char then (true, s')
        else if Ascii.eqb a "+"%char then (false, s')
        else (false, s)
    | EmptyString => (false, s)
    end in
  let '(v, seen) := digits s 0 false in
  if seen then Some (if neg then - v else v) else None.

(** [std::stoi(s)]: [invalid_argument] when no conversion can be done,
    [out_of_range] when the value does not fit an [int]. *)
Definition stoi (s : string) : exn + Z :=
  match scan_long (c_str s) with
  | None => inl invalid_argument
  | Some v => if (INT_MIN <=? v) && (v <=? INT_MAX) then inr v else inl out_of_range
  end.

(** [atoi(s)]: 0 when no conversion can be done; on overflow the Microsoft
    C runtime returns [INT_MAX] or [INT_MIN]. *)
Definition atoi (s : string) : Z :=
  match scan_long (c_str s) with
  | None => 0
  | Some v => if v <? INT_MIN then INT_MIN else if INT_MAX <? v then INT_MAX else v
  end.

(** One [std::getline(ss, item, delim)]: the item and the rest of the
    stream; [None] as the rest when the end of the stream was reached. *)
Fixpoint getline (s : string) (delim : ascii) : string * option string :=
  match s with
  | EmptyString => (EmptyString, None)
  | String a s' =>
      if Ascii.eqb a delim then (EmptyString, Some s')
      else let '(item, rest) := getline s' delim in (String a item, rest)
  end.

(** [split(s, delim)]: the [while (std::getline(ss, item, delim))] loop.
    A read that reaches the end of the stream without extracting a
    character fails and ends the loop. *)
Fixpoint split_loop (fuel : nat) (s : string) (delim : ascii) : list string :=
  match fuel with
  | O => []
  | S fuel' =>
      match s with
      | EmptyString => []
      | _ =>
          match getline s delim with
          | (item, None) => [item]
          | (item, Some rest) => item :: split_loop fuel' rest delim
          end
      end
  end.

Definition split (s : string) (delim : ascii) : list string :=
  split_loop (S (len s)) s delim.

End Str.

(* ===================================================================== *)
(** * Data model *)
(* ===================================================================== *)

(** [enum class COMMAND] *)
Inductive COMMAND : Type :=
| SEND_SERVER_ADDRESS | SEND_VM_GUID | SEND_USER_DOMAIN | SEND_USER_NAME
| SEND_USER_PASSWORD | SEND_START_PROGRAM | CONNECT_CLIENT
| SEND_BROWSER_RESIZE | SEND_BROWSER_PULSE
| SEND_KEY_UNICODE | SEND_KEY_SCANCODE
| SEND_MOUSE_MOVE | SEND_MOUSE_LEFT_BUTTON | SEND_MOUSE_MIDDLE_BUTTON
| SEND_MOUSE_RIGHT_BUTTON | SEND_MOUSE_WHEEL_UP | SEND_MOUSE_WHEEL_DOWN
| SET_SCALE_DISPLAY | SET_RECONNECT_SESSION | SET_IMAGE_ENCODING
| SET_IMAGE_QUALITY | SET_IMAGE_QUANTITY | SET_AUDIO_FORMAT
| SET_AUDIO_BITRATE | SET_SCREENSHOT_CONFIG | START_TAKING_SCREENSHOTS
| STOP_TAKING_SCREENSHOTS | TAKE_SCREENSHOT | REQUEST_FULLSCREEN_UPDATE
| SEND_LOCAL_CLIPBOARD | CLOSE_CLIENT.

(** The enumerators' values. *)
Definition COMMAND_value (c : COMMAND) : Z :=
  match c with
  | SEND_SERVER_ADDRESS => 0 | SEND_VM_GUID => 1 | SEND_USER_DOMAIN => 2
  | SEND_USER_NAME => 3 | SEND_USER_PASSWORD => 4 | SEND_START_PROGRAM => 5
  | CONNECT_CLIENT => 6 | SEND_BROWSER_RESIZE => 7 | SEND_BROWSER_PULSE => 8
  | SEND_KEY_UNICODE => 9 | SEND_KEY_SCANCODE => 10 | SEND_MOUSE_MOVE => 11
  | SEND_MOUSE_LEFT_BUTTON => 12 | SEND_MOUSE_MIDDLE_BUTTON => 13
  | SEND_MOUSE_RIGHT_BUTTON => 14 | SEND_MOUSE_WHEEL_UP => 15
  | SEND_MOUSE_WHEEL_DOWN => 16 | SET_SCALE_DISPLAY => 17
  | SET_RECONNECT_SESSION => 18 | SET_IMAGE_ENCODING => 19
  | SET_IMAGE_QUALITY => 20 | SET_IMAGE_QUANTITY => 21 | SET_AUDIO_FORMAT => 22
  | SET_AUDIO_BITRATE => 23 | SET_SCREENSHOT_CONFIG => 24
  | START_TAKING_SCREENSHOTS => 25 | STOP_TAKING_SCREENSHOTS => 26
  | TAKE_SCREENSHOT => 27 | REQUEST_FULLSCREEN_UPDATE => 28
  | SEND_LOCAL_CLIPBOARD => 29 | CLOSE_CLIENT => 30
  end.

Global Instance COMMAND_eq_dec : EqDecision COMMAND.
Proof. solve_decision. Defined.

(** A value-initialised [COMMAND] is the enumerator of value 0: this is what
    [std::map::operator[]] stores and returns for a key it does not hold. *)
Definition COMMAND_value_initialized : COMMAND := SEND_SERVER_ADDRESS.

(** [enum class IMAGE_ENCODING], [IMAGE_FORMAT], [IMAGE_QUALITY],
    [AUDIO_FORMAT]: the source stores them in [int] fields. *)
Module IMAGE_ENCODING.
Definition AUTO : Z := 0.
Definition PNG : Z := 1.
Definition JPEG : Z := 2.
Definition WEBP : Z := 3.
End IMAGE_ENCODING.

Module IMAGE_FORMAT.
Definition CUR : Z := 0.
Definition PNG : Z := 1.
Definition JPEG : Z := 2.
Definition WEBP : Z := 3.
End IMAGE_FORMAT.

Module IMAGE_QUALITY.
Definition LOW : Z := 10.
Definition MEDIUM : Z := 25.
Definition HIGH : Z := 50.
Definition HIGHER : Z := 75.
Definition HIGHEST : Z := 100.
End IMAGE_QUALITY.

Module AUDIO_FORMAT.
Definition NONE : Z := 0.
Definition WAV : Z := 1.
Definition MP3 : Z := 2.
End AUDIO_FORMAT.

Definition IMAGE_COUNT_SAMPLING_RATE : Z := 100.

(** The Win32 [RECT]. *)
Module RECT.
Record t : Type := mk { left : Z; top : Z; right : Z; bottom : Z }.

Definition set_left (v : Z) (r : t) : t := mk v (top r) (right r) (bottom r).
Definition set_top (v : Z) (r : t) : t := mk (left r) v (right r) (bottom r).
Definition set_right (v : Z) (r : t) : t := mk (left r) (top r) v (bottom r).
Definition set_bottom (v : Z) (r : t) : t := mk (left r) (top r) (right r) v.

Global Instance eq_dec : EqDecision t.
Proof. solve_decision. Defined.
End RECT.

(** A GDI+ bitmap locked as 32bpp ARGB: [bits] is indexed in [UINT]s. *)
Record Bitmap : Type := {
  bm_width : Z;
  bm_height : Z;
  bm_stride : Z;
  bm_bits : list Z
}.

(** The fields of [rdpSettings] the bridge reads or writes.  A C string
    pointer is an [option string], [None] for [NULL]. *)
Record rdpSettings : Type := {
  MyrtilleSessionId : option string;
  ServerHostname : option string;
  ServerPort : Z;
  Domain : option string;
  Username : option string;
  Password : option string;
  AlternateShell : option string;
  VmConnectMode : bool;
  NegotiateSecurityLayer : bool;
  SendPreconnectionPdu : bool;
  PreconnectionBlob : option string;
  DesktopWidth : Z;
  DesktopHeight : Z
}.

Definition set_ServerHostname (v : option string) (r : rdpSettings) : rdpSettings :=
  Build_rdpSettings (MyrtilleSessionId r) v (ServerPort r) (Domain r) (Username r) (Password r) (AlternateShell r) (VmConnectMode r) (NegotiateSecurityLayer r) (SendPreconnectionPdu r) (PreconnectionBlob r) (DesktopWidth r) (DesktopHeight r).
Definition set_ServerPort (v : Z) (r : rdpSettings) : rdpSettings :=
  Build_rdpSettings (MyrtilleSessionId r) (ServerHostname r) v (Domain r) (Username r) (Password r) (AlternateShell r) (VmConnectMode r) (NegotiateSecurityLayer r) (SendPreconnectionPdu r) (PreconnectionBlob r) (DesktopWidth r) (DesktopHeight r).
Definition set_Domain (v : option string) (r : rdpSettings) : rdpSettings :=
  Build_rdpSettings (MyrtilleSessionId r) (ServerHostname r) (ServerPort r) v (Username r) (Password r) (AlternateShell r) (VmConnectMode r) (NegotiateSecurityLayer r) (SendPreconnectionPdu r) (PreconnectionBlob r) (DesktopWidth r) (DesktopHeight r).
Definition set_Username (v : option string) (r : rdpSettings) : rdpSettings :=
  Build_rdpSettings (MyrtilleSessionId r) (ServerHostname r) (ServerPort r) (Domain r) v (Password r) (AlternateShell r) (VmConnectMode r) (NegotiateSecurityLayer r) (SendPreconnectionPdu r) (PreconnectionBlob r) (DesktopWidth r) (DesktopHeight r).
Definition set_Password (v : option string) (r : rdpSettings) : rdpSettings :=
  Build_rdpSettings (MyrtilleSessionId r) (ServerHostname r) (ServerPort r) (Domain r) (Username r) v (AlternateShell r) (VmConnectMode r) (NegotiateSecurityLayer r) (SendPreconnectionPdu r) (PreconnectionBlob r) (DesktopWidth r) (DesktopHeight r).
Definition set_AlternateShell (v : option string) (r : rdpSettings) : rdpSettings :=
  Build_rdpSettings (MyrtilleSessionId r) (ServerHostname r) (ServerPort r) (Domain r) (Username r) (Password r) v (VmConnectMode r) (NegotiateSecurityLayer r) (SendPreconnectionPdu r) (PreconnectionBlob r) (DesktopWidth r) (DesktopHeight r).
Definition set_VmConnectMode (v : bool) (r : rdpSettings) : rdpSettings :=
  Build_rdpSettings (MyrtilleSessionId r) (ServerHostname r) (ServerPort r) (Domain r) (Username r) (Password r) (AlternateShell r) v (NegotiateSecurityLayer r) (SendPreconnectionPdu r) (PreconnectionBlob r) (DesktopWidth r) (DesktopHeight r).
Definition set_NegotiateSecurityLayer (v : bool) (r : rdpSettings) : rdpSettings :=
  Build_rdpSettings (MyrtilleSessionId r) (ServerHostname r) (ServerPort r) (Domain r) (Username r) (Password r) (AlternateShell r) (VmConnectMode r) v (SendPreconnectionPdu r) (PreconnectionBlob r) (DesktopWidth r) (DesktopHeight r).
Definition set_SendPreconnectionPdu (v : bool) (r : rdpSettings) : rdpSettings :=
  Build_rdpSettings (MyrtilleSessionId r) (ServerHostname r) (ServerPort r) (Domain r) (Username r) (Password r) (AlternateShell r) (VmConnectMode r) (NegotiateSecurityLayer r) v (PreconnectionBlob r) (DesktopWidth r) (DesktopHeight r).
Definition set_PreconnectionBlob (v : option string) (r : rdpSettings) : rdpSettings :=
  Build_rdpSettings (MyrtilleSessionId r) (ServerHostname r) (ServerPort r) (Domain r) (Username r) (Password r) (AlternateShell r) (VmConnectMode r) (NegotiateSecurityLayer r) (SendPreconnectionPdu r) v (DesktopWidth r) (DesktopHeight r).

(** The callbacks of [rdpInput]: [true] when the function pointer is set. *)
Record rdpInput : Type := {
  UnicodeKeyboardEvent : bool;
  KeyboardEvent : bool;
  MouseEvent : bool
}.

(** [struct wf_myrtille], without the pipe handles (kept in [world]) and the
    encoder handles (GDI+ and WebP state of the collaborators). *)
Record wf_myrtille : Type := {
  processInputs : bool;
  imageEncoding : Z;
  imageQuality : Z;
  imageQuantity : Z;
  imageCount : Z;
  imageIdx : Z;
  imageBuffer : RECT.t;
  scaleDisplay : bool;
  clientWidth : Z;
  clientHeight : Z;
  aspectRatio : Float32.float;
  audioFormat : Z;
  audioBitrate : Z;
  screenshotIntervalSecs : Z;
  screenshotFormat : Z;
  screenshotPath : string;
  screenshotEnabled : bool;
  clipboardText : list Z
}.

Definition set_processInputs (v : bool) (r : wf_myrtille) : wf_myrtille :=
  Build_wf_myrtille v (imageEncoding r) (imageQuality r) (imageQuantity r) (imageCount r) (imageIdx r) (imageBuffer r) (scaleDisplay r) (clientWidth r) (clientHeight r) (aspectRatio r) (audioFormat r) (audioBitrate r) (screenshotIntervalSecs r) (screenshotFormat r) (screenshotPath r) (screenshotEnabled r) (clipboardText r).
Definition set_imageEncoding (v : Z) (r : wf_myrtille) : wf_myrtille :=
  Build_wf_myrtille (processInputs r) v (imageQuality r) (imageQuantity r) (imageCount r) (imageIdx r) (imageBuffer r) (scaleDisplay r) (clientWidth r) (clientHeight r) (aspectRatio r) (audioFormat r) (audioBitrate r) (screenshotIntervalSecs r) (screenshotFormat r) (screenshotPath r) (screenshotEnabled r) (clipboardText r).
Definition set_imageQuality (v : Z) (r : wf_myrtille) : wf_myrtille :=
  Build_wf_myrtille (processInputs r) (imageEncoding r) v (imageQuantity r) (imageCount r) (imageIdx r) (imageBuffer r) (scaleDisplay r) (clientWidth r) (clientHeight r) (aspectRatio r) (audioFormat r) (audioBitrate r) (screenshotIntervalSecs r) (screenshotFormat r) (screenshotPath r) (screenshotEnabled r) (clipboardText r).
Definition set_imageQuantity (v : Z) (r : wf_myrtille) : wf_myrtille :=
  Build_wf_myrtille (processInputs r) (imageEncoding r) (imageQuality r) v (imageCount r) (imageIdx r) (imageBuffer r) (scaleDisplay r) (clientWidth r) (clientHeight r) (aspectRatio r) (audioFormat r) (audioBitrate r) (screenshotIntervalSecs r) (screenshotFormat r) (screenshotPath r) (screenshotEnabled r) (clipboardText r).
Definition set_imageCount (v : Z) (r : wf_myrtille) : wf_myrtille :=
  Build_wf_myrtille (processInputs r) (imageEncoding r) (imageQuality r) (imageQuantity r) v (imageIdx r) (imageBuffer r) (scaleDisplay r) (clientWidth r) (clientHeight r) (aspectRatio r) (audioFormat r) (audioBitrate r) (screenshotIntervalSecs r) (screenshotFormat r) (screenshotPath r) (screenshotEnabled r) (clipboardText r).
Definition set_imageIdx (v : Z) (r : wf_myrtille) : wf_myrtille :=
  Build_wf_myrtille (processInputs r) (imageEncoding r) (imageQuality r) (imageQuantity r) (imageCount r) v (imageBuffer r) (scaleDisplay r) (clientWidth r) (clientHeight r) (aspectRatio r) (audioFormat r) (audioBitrate r) (screenshotIntervalSecs r) (screenshotFormat r) (screenshotPath r) (screenshotEnabled r) (clipboardText r).
Definition set_imageBuffer (v : RECT.t) (r : wf_myrtille) : wf_myrtille :=
  Build_wf_myrtille (processInputs r) (imageEncoding r) (imageQuality r) (imageQuantity r) (imageCount r) (imageIdx r) v (scaleDisplay r) (clientWidth r) (clientHeight r) (aspectRatio r) (audioFormat r) (audioBitrate r) (screenshotIntervalSecs r) (screenshotFormat r) (screenshotPath r) (screenshotEnabled r) (clipboardText r).
Definition set_scaleDisplay (v : bool) (r : wf_myrtille) : wf_myrtille :=
  Build_wf_myrtille (processInputs r) (imageEncoding r) (imageQuality r) (imageQuantity r) (imageCount r) (imageIdx r) (imageBuffer r) v (clientWidth r) (clientHeight r) (aspectRatio r) (audioFormat r) (audioBitrate r) (screenshotIntervalSecs r) (screenshotFormat r) (screenshotPath r) (screenshotEnabled r) (clipboardText r).
Definition set_clientWidth (v : Z) (r : wf_myrtille) : wf_myrtille :=
  Build_wf_myrtille (processInputs r) (imageEncoding r) (imageQuality r) (imageQuantity r) (imageCount r) (imageIdx r) (imageBuffer r) (scaleDisplay r) v (clientHeight r) (aspectRatio r) (audioFormat r) (audioBitrate r) (screenshotIntervalSecs r) (screenshotFormat r) (screenshotPath r) (screenshotEnabled r) (clipboardText r).
Definition set_clientHeight (v : Z) (r : wf_myrtille) : wf_myrtille :=
  Build_wf_myrtille (processInputs r) (imageEncoding r) (imageQuality r) (imageQuantity r) (imageCount r) (imageIdx r) (imageBuffer r) (scaleDisplay r) (clientWidth r) v (aspectRatio r) (audioFormat r) (audioBitrate r) (screenshotIntervalSecs r) (screenshotFormat r) (screenshotPath r) (screenshotEnabled r) (clipboardText r).
Definition set_audioFormat (v : Z) (r : wf_myrtille) : wf_myrtille :=
  Build_wf_myrtille (processInputs r) (imageEncoding r) (imageQuality r) (imageQuantity r) (imageCount r) (imageIdx r) (imageBuffer r) (scaleDisplay r) (clientWidth r) (clientHeight r) (aspectRatio r) v (audioBitrate r) (screenshotIntervalSecs r) (screenshotFormat r) (screenshotPath r) (screenshotEnabled r) (clipboardText r).
Definition set_audioBitrate (v : Z) (r : wf_myrtille) : wf_myrtille :=
  Build_wf_myrtille (processInputs r) (imageEncoding r) (imageQuality r) (imageQuantity r) (imageCount r) (imageIdx r) (imageBuffer r) (scaleDisplay r) (clientWidth r) (clientHeight r) (aspectRatio r) (audioFormat r) v (screenshotIntervalSecs r) (screenshotFormat r) (screenshotPath r) (screenshotEnabled r) (clipboardText r).
Definition set_screenshotIntervalSecs (v : Z) (r : wf_myrtille) : wf_myrtille :=
  Build_wf_myrtille (processInputs r) (imageEncoding r) (imageQuality r) (imageQuantity r) (imageCount r) (imageIdx r) (imageBuffer r) (scaleDisplay r) (clientWidth r) (clientHeight r) (aspectRatio r) (audioFormat r) (audioBitrate r) v (screenshotFormat r) (screenshotPath r) (screenshotEnabled r) (clipboardText r).
Definition set_screenshotFormat (v : Z) (r : wf_myrtille) : wf_myrtille :=
  Build_wf_myrtille (processInputs r) (imageEncoding r) (imageQuality r) (imageQuantity r) (imageCount r) (imageIdx r) (imageBuffer r) (scaleDisplay r) (clientWidth r) (clientHeight r) (aspectRatio r) (audioFormat r) (audioBitrate r) (screenshotIntervalSecs r) v (screenshotPath r) (screenshotEnabled r) (clipboardText r).
Definition set_screenshotPath (v : string) (r : wf_myrtille) : wf_myrtille :=
  Build_wf_myrtille (processInputs r) (imageEncoding r) (imageQuality r) (imageQuantity r) (imageCount r) (imageIdx r) (imageBuffer r) (scaleDisplay r) (clientWidth r) (clientHeight r) (aspectRatio r) (audioFormat r) (audioBitrate r) (screenshotIntervalSecs r) (screenshotFormat r) v (screenshotEnabled r) (clipboardText r).
Definition set_screenshotEnabled (v : bool) (r : wf_myrtille) : wf_myrtille :=
  Build_wf_myrtille (processInputs r) (imageEncoding r) (imageQuality r) (imageQuantity r) (imageCount r) (imageIdx r) (imageBuffer r) (scaleDisplay r) (clientWidth r) (clientHeight r) (aspectRatio r) (audioFormat r) (audioBitrate r) (screenshotIntervalSecs r) (screenshotFormat r) (screenshotPath r) v (clipboardText r).
Definition set_clipboardText (v : list Z) (r : wf_myrtille) : wf_myrtille :=
  Build_wf_myrtille (processInputs r) (imageEncoding r) (imageQuality r) (imageQuantity r) (imageCount r) (imageIdx r) (imageBuffer r) (scaleDisplay r) (clientWidth r) (clientHeight r) (aspectRatio r) (audioFormat r) (audioBitrate r) (screenshotIntervalSecs r) (screenshotFormat r) (screenshotPath r) (screenshotEnabled r) v.

(** One end of a named pipe: whether the peer is still there, and the
    buffers written so far, one per successful [WriteFile]. *)
Record pipe : Type := {
  connected : bool;
  written : list (list Z)
}.

(** Calls into the RDP engine and the file system, in program order.  The
    input callbacks take [UINT16] parameters ([flags], [code], [x], [y]):
    a call is recorded with the values the callee receives. *)
Inductive effect : Type :=
| CallUnicodeKeyboardEvent (flags code : Z)
| CallKeyboardEvent (flags code : Z)
| CallMouseEvent (flags x y : Z)
| CallCreateThread_wf_client_thread
| CallMonitorReady
| CallSaveScreenshot (path : string) (format : Z) (bmp : Bitmap)
| CallExit.

(** The [wfContext] and the globals of the file. *)
Record world : Type := {
  settings : rdpSettings;
  context_input : rdpInput;
  cliprdr : bool;
  primary : option Bitmap;
  cursor : Z;
  myrtille : wf_myrtille;
  commandMap : gmap string COMMAND;
  inputsPipe : pipe;
  updatesPipe : pipe;
  audioPipe : pipe;
  effects : list effect
}.

Definition with_settings (v : rdpSettings) (r : world) : world :=
  Build_world v (context_input r) (cliprdr r) (primary r) (cursor r) (myrtille r) (commandMap r) (inputsPipe r) (updatesPipe r) (audioPipe r) (effects r).
Definition with_myrtille (v : wf_myrtille) (r : world) : world :=
  Build_world (settings r) (context_input r) (cliprdr r) (primary r) (cursor r) v (commandMap r) (inputsPipe r) (updatesPipe r) (audioPipe r) (effects r).
Definition with_commandMap (v : gmap string COMMAND) (r : world) : world :=
  Build_world (settings r) (context_input r) (cliprdr r) (primary r) (cursor r) (myrtille r) v (inputsPipe r) (updatesPipe r) (audioPipe r) (effects r).
Definition with_inputsPipe (v : pipe) (r : world) : world :=
  Build_world (settings r) (context_input r) (cliprdr r) (primary r) (cursor r) (myrtille r) (commandMap r) v (updatesPipe r) (audioPipe r) (effects r).
Definition with_updatesPipe (v : pipe) (r : world) : world :=
  Build_world (settings r) (context_input r) (cliprdr r) (primary r) (cursor r) (myrtille r) (commandMap r) (inputsPipe r) v (audioPipe r) (effects r).
Definition with_audioPipe (v : pipe) (r : world) : world :=
  Build_world (settings r) (context_input r) (cliprdr r) (primary r) (cursor r) (myrtille r) (commandMap r) (inputsPipe r) (updatesPipe r) v (effects r).
Definition with_effects (v : list effect) (r : world) : world :=
  Build_world (settings r) (context_input r) (cliprdr r) (primary r) (cursor r) (myrtille r) (commandMap r) (inputsPipe r) (updatesPipe r) (audioPipe r) v.

(* ===================================================================== *)
(** * Collaborators *)
(* ===================================================================== *)

(** The Win32, GDI+, libwebp and FreeRDP calls whose results the bridge only
    passes on.  An encoder returns the content of the stream it wrote to; a
    failed encoding leaves the stream empty (the source reads the stream
    size and ignores the status of [Save] and [WebPEncode]). *)
Class Platform : Type := {
  (** [BitBlt] of the [w] x [h] area at ([x], [y]) of [src] into a fresh
      [bw] x [bh] bitmap *)
  BitBlt : forall (src : Bitmap) (bw bh w h x y : Z), Bitmap;
  (** [StretchBlt] (HALFTONE) of the [sw] x [sh] area at ([x], [y]) of
      [src] onto [dw] x [dh] of a fresh [bw] x [bh] bitmap *)
  StretchBlt : forall (src : Bitmap) (bw bh dw dh x y sw sh : Z), Bitmap;
  (** [DrawIconEx] of a cursor over the blue mask brush, redrawn as ARGB *)
  DrawIconEx : forall (hicon : Z), Bitmap;
  (** [GetIconInfo]: the hotspot *)
  GetIconInfo : forall (hicon : Z), Z * Z;
  (** [bmp->Save(stream, &pngClsid)] *)
  Save_png : Bitmap -> list Z;
  (** [bmp->Save(stream, &jpgClsid, &encoderParameters)] at a quality *)
  Save_jpeg : Bitmap -> Z -> list Z;
  (** [WebPEncode] at a quality, through [webPWriter] *)
  WebPEncode : Bitmap -> Z -> list Z;
  (** [ConvertToUnicode(CP_UTF8, ..)]: UTF-8 to UTF-16 code units *)
  ConvertToUnicode : string -> list Z;
  (** [freerdp_parse_username]: the user and the domain *)
  freerdp_parse_username : string -> option string * option string;
  (** the flags of freerdp/input.h *)
  KBD_FLAGS_EXTENDED : Z;
  KBD_FLAGS_DOWN : Z;
  KBD_FLAGS_RELEASE : Z;
  PTR_FLAGS_WHEEL : Z;
  PTR_FLAGS_WHEEL_NEGATIVE : Z;
  PTR_FLAGS_MOVE : Z;
  PTR_FLAGS_DOWN : Z;
  PTR_FLAGS_BUTTON1 : Z;
  PTR_FLAGS_BUTTON2 : Z;
  PTR_FLAGS_BUTTON3 : Z
}.

(* ===================================================================== *)
(** * The state and fault monad *)
(* ===================================================================== *)

(** What ends a thread of the bridge abnormally: an exception of the
    standard library that nothing catches, or a hardware fault. *)
Inductive fault : Type :=
| Exception (e : exn)
| bad_array_new_length
| integer_divide_by_zero.

Inductive outcome (A : Type) : Type :=
| Ok (a : A) (w : world)
| Fault (f : fault) (w : world).
Arguments Ok {A} a w.
Arguments Fault {A} f w.

(** A computation over the shared [world]; the state reached when a fault
    occurs is kept. *)
Definition M (A : Type) : Type := world -> outcome A.

Definition ret {A} (a : A) : M A := fun w => Ok a w.
Definition bind {A B} (m : M A) (k : A -> M B) : M B := fun w =>
  match m w with
  | Ok a w' => k a w'
  | Fault f w' => Fault f w'
  end.

Declare Scope M_scope.
Delimit Scope M_scope with M.
Bind Scope M_scope with M.
Notation "x ← y ; z" := (bind y (fun x => z))
  (at level 20, y at level 100, z at level 200, only parsing) : M_scope.
Notation "y ;; z" := (bind y (fun _ => z))
  (at level 100, z at level 200, only parsing, right associativity) : M_scope.
Local Open Scope M_scope.

Definition get : M world := fun w => Ok w w.
Definition gets {A} (f : world -> A) : M A := fun w => Ok (f w) w.
Definition modify (f : world -> world) : M unit := fun w => Ok tt (f w).
Definition raise {A} (f : fault) : M A := fun w => Fault f w.
Definition skip : M unit := ret tt.

(** The result of a standard-library call that may throw. *)
Definition throwing {A} (r : exn + A) : M A :=
  match r with
  | inl e => raise (Exception e)
  | inr a => ret a
  end.

(** The state a computation ends in, whether it ends normally or not. *)
Definition final {A} (o : outcome A) : world :=
  match o with
  | Ok _ w => w
  | Fault _ w => w
  end.

Definition returns {A} (o : outcome A) : bool :=
  match o with
  | Ok _ _ => true
  | Fault _ _ => false
  end.

Definition modify_myrtille (f : wf_myrtille -> wf_myrtille) : M unit :=
  modify (fun w => with_myrtille (f (myrtille w)) w).
Definition modify_settings (f : rdpSettings -> rdpSettings) : M unit :=
  modify (fun w => with_settings (f (settings w)) w).
Definition call (e : effect) : M unit :=
  modify (fun w => with_effects (effects w ++ [e]) w).

(** [new byte[n]] for an [int] [n]. *)
Definition new_array (n : Z) : M (list Z) :=
  if n <? 0 then raise bad_array_new_length else ret (new_bytes (Z.to_nat n)).

(** [a / b] on [int]s. *)
Definition idiv (a b : Z) : M Z :=
  if b =? 0 then raise integer_divide_by_zero else ret (wrap_int (cdiv a b)).

(** [a % b] on [int]s. *)
Definition imod (a b : Z) : M Z :=
  if b =? 0 then raise integer_divide_by_zero else ret (cmod a b).

(** [memcpy(&dst[off], src, n)] *)
Definition memcpy (dst : list Z) (off : nat) (src : list Z) (n : nat) : list Z :=
  list_inserts off (take n src) dst.

(** [WriteFile(pipe, buffer, ..)] on the updates pipe: [true] when the
    buffer was written. *)
Definition WriteFile_updates (buffer : list Z) : M bool :=
  p ← gets updatesPipe;
  if connected p
  then modify (with_updatesPipe {| connected := true; written := written p ++ [buffer] |});;
       ret true
  else ret false.

(** [WriteFile] on the audio pipe. *)
Definition WriteFile_audio (buffer : list Z) : M bool :=
  p ← gets audioPipe;
  if connected p
  then modify (with_audioPipe {| connected := true; written := written p ++ [buffer] |});;
       ret true
  else ret false.

(* ===================================================================== *)
(** * Outbound message framer *)
(* ===================================================================== *)

(** A wide string literal of ASCII characters, as UTF-16 code units. *)
Definition wstr (s : string) : list Z :=
  (fun a => Z.of_nat (nat_of_ascii a)) <$> list_ascii_of_string s.

(** The memory of a [std::wstring]: two bytes per unit, low byte first. *)
Definition wchar_bytes (msg : list Z) : list Z :=
  flat_map (fun u => [Z.land u 255; Z.land (Z.shiftr u 8) 255]) msg.

(** [void sendMessage(wfContext* wfc, std::wstring msg)] *)
Definition sendMessage (msg : list Z) : M unit :=
  if (length msg =? 0)%nat then skip
  else
    let bytesPerChar := 2%nat in
    let size := (length msg * bytesPerChar)%nat in
    let header := int32ToBytes (wrap_int (Z.of_nat size)) 0 (new_bytes 4) in
    let buffer := new_bytes (size + 4) in
    let buffer := memcpy buffer 0 header 4 in
    let buffer := memcpy buffer 4 (wchar_bytes msg) size in
    ok ← WriteFile_updates buffer;
    if ok then skip
    else modify_myrtille (set_processInputs false).

(** [void sendAudio(wfContext* wfc, const BYTE* data, size_t size)] *)
Definition sendAudio (data : list Z) : M unit :=
  ok ← WriteFile_audio data;
  if ok then skip
  else modify_myrtille (set_processInputs false).

(** [void takeScreenshot(wfContext* wfc, Gdiplus::Bitmap* bmp)]: the file
    name also carries the tick count, which is left out of the record. *)
Definition takeScreenshot (bmp : Bitmap) : M unit :=
  w ← get;
  let m := myrtille w in
  if negb (String.eqb (screenshotPath m) "")
  then
    last ← throwing (Str.substr (screenshotPath m) (Str.len (screenshotPath m) - 1) 1);
    let ss := screenshotPath m ++ (if negb (String.eqb last "\") then "\" else "") in
    let ss := ss ++ default "" (MyrtilleSessionId (settings w)) ++ "_"
                 ++ (if screenshotFormat m =? IMAGE_FORMAT.PNG then ".png" else ".jpg") in
    if screenshotFormat m =? IMAGE_FORMAT.PNG
    then call (CallSaveScreenshot ss IMAGE_FORMAT.PNG bmp)
    else if screenshotFormat m =? IMAGE_FORMAT.JPEG
    then call (CallSaveScreenshot ss IMAGE_FORMAT.JPEG bmp)
    else skip
  else skip.

(** [void sendImage(wfContext* wfc, Gdiplus::Bitmap* bmp, int idx, int posX,
    int posY, int width, int height, int format, int quality,
    IStream* stream, int size, bool fullscreen)].  [stream] is the content
    of the stream. *)
Definition sendImage (bmp : Bitmap) (idx posX posY width height format quality : Z)
    (stream : list Z) (size : Z) (fullscreen : bool) : M unit :=
  (* image structure size (4 bytes), tag, info *)
  let header := new_bytes 40 in
  let header := int32ToBytes (wrap_int (size + 36)) 0 header in
  let header := int32ToBytes 0 4 header in
  let header := int32ToBytes idx 8 header in
  let header := int32ToBytes posX 12 header in
  let header := int32ToBytes posY 16 header in
  let header := int32ToBytes width 20 header in
  let header := int32ToBytes height 24 header in
  let header := int32ToBytes format 28 header in
  let header := int32ToBytes quality 32 header in
  let header := int32ToBytes (b2z fullscreen) 36 header in
  (* data: [stream->Read(data, size, &bytesRead)] from the start *)
  data ← new_array size;
  let data := memcpy data 0 stream (Z.to_nat size) in
  (* buffer *)
  buffer ← new_array (wrap_int (size + 40));
  let buffer := memcpy buffer 0 header 40 in
  let buffer := memcpy buffer 40 data (Z.to_nat size) in
  (* send *)
  ok ← WriteFile_updates buffer;
  (if ok then skip else modify_myrtille (set_processInputs false));;
  (* if taking screenshot and the image is fullscreen, save it *)
  enabled ← gets (fun w => screenshotEnabled (myrtille w));
  if enabled && fullscreen
  then modify_myrtille (set_screenshotEnabled false);;
       takeScreenshot bmp
  else skip.

(* ===================================================================== *)
(** * Adaptive encoding pipeline *)
(* ===================================================================== *)

Section Pipeline.
Context `{Platform}.

(** The size a stream reports: [(ULONG)statstg.cbSize.LowPart]. *)
Definition stream_size (stream : list Z) : Z := wrap_uint (Z.of_nat (length stream)).

(** The quality [processImage] starts from. *)
Definition initial_quality (m : wf_myrtille) (fullscreen adaptive : bool) : Z :=
  if imageEncoding m =? IMAGE_ENCODING.PNG then IMAGE_QUALITY.HIGHEST
  else if fullscreen && adaptive then IMAGE_QUALITY.HIGHER
  else imageQuality m.

(** What the encoding step of [processImage] leaves in its locals:
    [stream] ([None] for [NULL]), [format], [quality] and [size]. *)
Record encoded : Type := {
  enc_stream : option (list Z);
  enc_format : Z;
  enc_quality : Z;
  enc_size : Z
}.

(** The encoding step of [processImage], up to "send the image".  [format]
    is uninitialised when no branch is taken; it is 0 here. *)
Definition encode_image (m : wf_myrtille) (bmp : Bitmap) (fullscreen adaptive : bool)
    : encoded :=
  let quality := initial_quality m fullscreen adaptive in
  if (imageEncoding m =? IMAGE_ENCODING.PNG) || (imageEncoding m =? IMAGE_ENCODING.JPEG)
     || (imageEncoding m =? IMAGE_ENCODING.AUTO)
  then
    (* convert the bitmap into PNG *)
    let '(pngStream, pngSize) :=
      if (imageEncoding m =? IMAGE_ENCODING.PNG) || (imageEncoding m =? IMAGE_ENCODING.AUTO)
      then let s := Save_png bmp in (Some s, stream_size s)
      else (None, 0) in
    (* convert the bitmap into JPEG *)
    let '(jpgStream, jpgSize) :=
      if (imageEncoding m =? IMAGE_ENCODING.JPEG) || (imageEncoding m =? IMAGE_ENCODING.AUTO)
      then let s := Save_jpeg bmp quality in (Some s, stream_size s)
      else (None, 0) in
    (* use the lowest sized format *)
    if (imageEncoding m =? IMAGE_ENCODING.PNG)
       || ((imageEncoding m =? IMAGE_ENCODING.AUTO) && (pngSize <=? jpgSize))
    then {| enc_stream := pngStream; enc_format := IMAGE_FORMAT.PNG;
            enc_quality := IMAGE_QUALITY.HIGHEST; enc_size := pngSize |}
    else {| enc_stream := jpgStream; enc_format := IMAGE_FORMAT.JPEG;
            enc_quality := quality; enc_size := jpgSize |}
  else if imageEncoding m =? IMAGE_ENCODING.WEBP
  then
    let s := WebPEncode bmp quality in
    {| enc_stream := Some s; enc_format := IMAGE_FORMAT.WEBP;
       enc_quality := quality; enc_size := stream_size s |}
  else {| enc_stream := None; enc_format := 0; enc_quality := quality; enc_size := 0 |}.

(** The guard and pre-increment both senders apply to [imageIdx]:
    [if (imageIdx == INT_MAX) imageIdx = 0;] *)
Definition reset_imageIdx : M unit :=
  idx ← gets (fun w => imageIdx (myrtille w));
  if idx =? INT_MAX then modify_myrtille (set_imageIdx 0) else skip.

(** [++myrtille->imageIdx] *)
Definition preincrement_imageIdx : M Z :=
  idx ← gets (fun w => imageIdx (myrtille w));
  let idx' := wrap_int (idx + 1) in
  modify_myrtille (set_imageIdx idx');;
  ret idx'.

(** [void processImage(wfContext* wfc, Gdiplus::Bitmap* bmp, int left,
    int top, int right, int bottom, bool fullscreen, bool adaptive)] *)
Definition processImage (bmp : Bitmap) (left top right bottom : Z)
    (fullscreen adaptive : bool) : M unit :=
  m ← gets myrtille;
  let e := encode_image m bmp fullscreen adaptive in
  (* send the image *)
  reset_imageIdx;;
  match enc_stream e with
  | Some stream =>
      if 0 <? enc_size e
      then
        idx ← preincrement_imageIdx;
        sendImage bmp idx left top (wrap_int (right - left)) (wrap_int (bottom - top))
                  (enc_format e) (enc_quality e) stream (wrap_int (enc_size e)) fullscreen
      else skip
  | None => skip
  end.

End Pipeline.

(* ===================================================================== *)
(** * Region consolidator and throttle; the three producers *)
(* ===================================================================== *)

(** The "unset" accumulator. *)
Definition imageBuffer_unset : RECT.t := RECT.mk (-1) (-1) (-1) (-1).

(** The consistency check of [wf_myrtille_send_region]: [true] when the
    region is rejected.  [DesktopWidth] and [DesktopHeight] are unsigned;
    each comparison with them is reached by a coordinate already known
    not to be negative. *)
Definition region_rejected (s : rdpSettings) (region : RECT.t) : bool :=
  (RECT.left region <? 0) || (DesktopWidth s <? RECT.left region)
  || (RECT.top region <? 0) || (DesktopHeight s <? RECT.top region)
  || (RECT.right region <? 0) || (DesktopWidth s <? RECT.right region)
  || (RECT.bottom region <? 0) || (DesktopHeight s <? RECT.bottom region)
  || (RECT.right region <? RECT.left region)
  || (RECT.bottom region <? RECT.top region).

(** [if (imageCount == INT_MAX) imageCount = 0;  imageCount++;] *)
Definition count_region (m : wf_myrtille) : wf_myrtille :=
  let m := if imageCount m =? INT_MAX then set_imageCount 0 m else m in
  set_imageCount (wrap_int (imageCount m + 1)) m.

(** The four updates of [imageBuffer] by a region. *)
Definition consolidate (region : RECT.t) (b : RECT.t) : RECT.t :=
  let b := if (RECT.top b =? -1) || (RECT.top region <? RECT.top b)
           then RECT.set_top (RECT.top region) b else b in
  let b := if (RECT.left b =? -1) || (RECT.left region <? RECT.left b)
           then RECT.set_left (RECT.left region) b else b in
  let b := if (RECT.bottom b =? -1) || (RECT.bottom b <? RECT.bottom region)
           then RECT.set_bottom (RECT.bottom region) b else b in
  let b := if (RECT.right b =? -1) || (RECT.right b <? RECT.right region)
           then RECT.set_right (RECT.right region) b else b in
  b.

Definition throttled_quantity (q : Z) : bool :=
  (q =? 5) || (q =? 10) || (q =? 20) || (q =? 25) || (q =? 50).

(** The "ips regulator" of [wf_myrtille_send_region]: the new session state
    and the region that goes on to extraction, [None] when the function
    returns there. *)
Definition ips_regulator (m : wf_myrtille) (region : RECT.t)
    : wf_myrtille * option RECT.t :=
  let m := count_region m in
  if throttled_quantity (imageQuantity m)
  then
    let m := set_imageBuffer (consolidate region (imageBuffer m)) m in
    if negb (cmod (imageCount m) (cdiv 100 (imageQuantity m)) =? 0)
    then (m, None)
    else
      let b := imageBuffer m in
      let region :=
        if negb (RECT.top b =? -1) && negb (RECT.left b =? -1)
           && negb (RECT.bottom b =? -1) && negb (RECT.right b =? -1)
        then RECT.mk (RECT.left b) (RECT.top b) (RECT.right b) (RECT.bottom b)
        else region in
      (set_imageBuffer imageBuffer_unset m, Some region)
  else (m, Some region).

Section Producers.
Context `{Platform}.

(** "extract the consolidated region" and "process it". *)
Definition extract_and_process (hdc : Bitmap) (region : RECT.t) : M unit :=
  w ← get;
  let m := myrtille w in
  let cw := clientWidth m in
  let ch := clientHeight m in
  let dw := wrap_int (DesktopWidth (settings w)) in
  let dh := wrap_int (DesktopHeight (settings w)) in
  let width := wrap_int (RECT.right region - RECT.left region) in
  let height := wrap_int (RECT.bottom region - RECT.top region) in
  if negb (scaleDisplay m) || ((cw =? dw) && (ch =? dh))
  then
    let bmpRegion := BitBlt hdc width height width height
                            (RECT.left region) (RECT.top region) in
    processImage bmpRegion (RECT.left region) (RECT.top region)
                 (RECT.right region) (RECT.bottom region) false false
  else
    sw ← idiv (wrap_int (width * cw)) dw;
    sh ← idiv (wrap_int (height * ch)) dh;
    let bmpRegion := StretchBlt hdc sw sh sw sh
                                (RECT.left region) (RECT.top region) width height in
    (* scale region *)
    left ← idiv (wrap_int (RECT.left region * cw)) dw;
    top ← idiv (wrap_int (RECT.top region * ch)) dh;
    right ← idiv (wrap_int (RECT.right region * cw)) dw;
    bottom ← idiv (wrap_int (RECT.bottom region * ch)) dh;
    processImage bmpRegion left top right bottom false false.

(** [void wf_myrtille_send_region(wfContext* wfc, RECT region)] *)
Definition wf_myrtille_send_region (region : RECT.t) : M unit :=
  w ← get;
  match MyrtilleSessionId (settings w), primary w with
  | Some _, Some hdc =>
      (* consistency check *)
      if region_rejected (settings w) region then skip
      else
        (* ips regulator *)
        let '(m, forwarded) := ips_regulator (myrtille w) region in
        modify (with_myrtille m);;
        match forwarded with
        | None => skip
        | Some region => extract_and_process hdc region
        end
  | _, _ => skip
  end.

(** [void wf_myrtille_send_screen(wfContext* wfc, bool adaptive)] *)
Definition wf_myrtille_send_screen (adaptive : bool) : M unit :=
  w ← get;
  match MyrtilleSessionId (settings w), primary w with
  | Some _, Some hdc =>
      let m := myrtille w in
      let cw := clientWidth m in
      let ch := clientHeight m in
      let dw := wrap_int (DesktopWidth (settings w)) in
      let dh := wrap_int (DesktopHeight (settings w)) in
      let bw := if scaleDisplay m then cw else dw in
      let bh := if scaleDisplay m then ch else dh in
      let bmpScreen :=
        if negb (scaleDisplay m) || ((cw =? dw) && (ch =? dh))
        then BitBlt hdc bw bh dw dh 0 0
        else StretchBlt hdc bw bh cw ch 0 0 dw dh in
      processImage bmpScreen 0 0 bw bh true adaptive
  | _, _ => skip
  end.

(** One iteration of the inner loop of [wf_myrtille_send_cursor]: the
    locked bits and the two flags [bmpBitsTransparent], [bmpBitsColor].
    An index outside the bits reads 0 and writes nothing. *)
Definition cursor_pixel (stride x : Z) (st : list Z * bool * bool) (y : Z)
    : list Z * bool * bool :=
  let '(bmpBits, bmpBitsTransparent, bmpBitsColor) := st in
  let i := Z.to_nat (cdiv (y * stride) 4 + x) in
  let color := default 0 (bmpBits !! i) in
  let b := Z.land color 255 in
  let g := Z.shiftr (Z.land color 65280) 8 in
  let r := Z.shiftr (Z.land color 16711680) 16 in
  if (r =? 0) && (g =? 0) && (b =? 255)
  then (<[i := 16777215]> bmpBits, true, bmpBitsColor)
  else
    let bmpBits := if (r =? 255) && (g =? 255) && (b =? 0)
                   then <[i := 4278190080]> bmpBits else bmpBits in
    (bmpBits, bmpBitsTransparent, true).

(** "make the cursor transparent": both loops. *)
Definition make_transparent (bmp : Bitmap) : Bitmap * bool * bool :=
  let '(bits, transparent, color) :=
    foldl (fun st x => foldl (cursor_pixel (bm_stride bmp) x) st (seqZ 0 (bm_height bmp)))
          (bm_bits bmp, false, false) (seqZ 0 (bm_width bmp)) in
  ({| bm_width := bm_width bmp; bm_height := bm_height bmp;
      bm_stride := bm_stride bmp; bm_bits := bits |}, transparent, color).

(** [void wf_myrtille_send_cursor(wfContext* wfc)] *)
Definition wf_myrtille_send_cursor : M unit :=
  w ← get;
  match MyrtilleSessionId (settings w), primary w with
  | Some _, Some hdc =>
      let '(bmpTransparentCursor, bmpBitsTransparent, bmpBitsColor) :=
        make_transparent (DrawIconEx (cursor w)) in
      (* send the cursor only if it has a transparent mask and isn't empty *)
      if bmpBitsTransparent && bmpBitsColor
      then
        let pngStream := Save_png bmpTransparentCursor in
        let pngSize := stream_size pngStream in
        let '(xHotspot, yHotspot) := GetIconInfo (cursor w) in
        reset_imageIdx;;
        if 0 <? pngSize
        then
          idx ← preincrement_imageIdx;
          sendImage bmpTransparentCursor idx xHotspot yHotspot
                    (bm_width bmpTransparentCursor) (bm_height bmpTransparentCursor)
                    IMAGE_FORMAT.CUR IMAGE_QUALITY.HIGHEST
                    pngStream (wrap_int pngSize) false
        else skip
      else skip
  | _, _ => skip
  end.

End Producers.

(* ===================================================================== *)
(** * Command dispatcher *)
(* ===================================================================== *)

Section Dispatcher.
Context `{Platform}.

(** The aspect-locked branch of [processResizeDisplay]: the new
    [clientWidth] and [clientHeight]. *)
Definition keep_aspect_ratio (ratio : Float32.float) (clientWidth clientHeight : Z)
    : Z * Z :=
  let aspectRatio := Float32.div (Float32.of_int clientWidth) (Float32.of_int clientHeight) in
  if Float32.eqb ratio aspectRatio
  then (clientWidth, clientHeight)
  else if Float32.ltb ratio aspectRatio
  then (Float32.to_int (Float32.mul (Float32.of_int clientHeight) ratio), clientHeight)
  else (clientWidth, Float32.to_int (Float32.div (Float32.of_int clientWidth) ratio)).

(** [void processResizeDisplay(wfContext* wfc, bool keepAspectRatio,
    std::string resolution)] *)
Definition processResizeDisplay (keepAspectRatio : bool) (resolution : string) : M unit :=
  match Str.find resolution "x" with
  | Some separatorIdx =>
      sw ← throwing (Str.substr resolution 0 separatorIdx);
      width ← throwing (Str.stoi sw);
      sh ← throwing (Str.substr resolution (separatorIdx + 1)
                                (Str.len resolution - separatorIdx - 1));
      height ← throwing (Str.stoi sh);
      m ← gets myrtille;
      let '(cw, ch) :=
        if keepAspectRatio then keep_aspect_ratio (aspectRatio m) width height
        else (width, height) in
      modify_myrtille (set_clientWidth cw);;
      modify_myrtille (set_clientHeight ch)
  | None => skip
  end.

(** [void processMouseInput(wfContext* wfc, std::string input, UINT16 flags)].
    [flags] is a [UINT16]; the [int] positions are converted to the
    [UINT16] parameters of [MouseEvent] at the call. *)
Definition processMouseInput (input : string) (flags : Z) : M unit :=
  w ← get;
  if negb (MouseEvent (context_input w)) then skip
  else
    match Str.find input "-" with
    | Some separatorIdx =>
        mX ← throwing (Str.substr input 0 separatorIdx);
        mY ← throwing (Str.substr input (separatorIdx + 1)
                                  (Str.len input - separatorIdx - 1));
        if String.eqb mX "" then skip
        else
          x ← throwing (Str.stoi mX);
          if negb (0 <=? x) || String.eqb mY "" then skip
          else
            y ← throwing (Str.stoi mY);
            if negb (0 <=? y) then skip
            else
              let m := myrtille w in
              let cw := clientWidth m in
              let ch := clientHeight m in
              let dw := wrap_int (DesktopWidth (settings w)) in
              let dh := wrap_int (DesktopHeight (settings w)) in
              if negb (scaleDisplay m) || ((cw =? dw) && (ch =? dh))
              then call (CallMouseEvent (wrap_uint16 flags) (wrap_uint16 x) (wrap_uint16 y))
              else
                sx ← idiv (wrap_int (x * dw)) cw;
                sy ← idiv (wrap_int (y * dh)) ch;
                call (CallMouseEvent (wrap_uint16 flags) (wrap_uint16 sx) (wrap_uint16 sy))
    | None => skip
    end.

(** [case COMMAND::SEND_SERVER_ADDRESS].  [calloc] succeeds for a size that
    is not negative and fails for a negative [int] taken as a [size_t]. *)
Definition send_server_address (commandArgs : string) : M unit :=
  let args := Str.c_str commandArgs in
  modify_settings (set_ServerHostname None);;
  match Str.find args "[" with
  | None =>
      (* ipv4 *)
      match Str.find args ":" with
      | Some length =>
          modify_settings (set_ServerPort (wrap_uint (Str.atoi (Str.from args (length + 1)))));;
          modify_settings (set_ServerHostname (Some (String.substring 0 length args)))
      | None => modify_settings (set_ServerHostname (Some args))
      end
  | Some p =>
      (* ipv6 *)
      match Str.find args "]" with
      | Some p2 =>
          (* valid [] ipv6 addr found *)
          let length := Z.of_nat p2 - Z.of_nat p in
          if 0 <=? length
          then
            modify_settings
              (set_ServerHostname
                 (Some (String.substring (p + 1) (Z.to_nat (length - 1)) args)));;
            if String.eqb (String.substring (p2 + 1) 1 args) ":"
            then modify_settings
                   (set_ServerPort (wrap_uint (Str.atoi (Str.from args (p2 + 2)))))
            else skip
          else skip
      | None => skip
      end
  end.

(** [commandMap[key]]: [std::map::operator[]] inserts a value-initialised
    entry for a key the map does not hold, and returns it. *)
Definition commandMap_subscript (key : string) : M COMMAND :=
  cm ← gets commandMap;
  match cm !! key with
  | Some command => ret command
  | None =>
      modify (with_commandMap (<[key := COMMAND_value_initialized]> cm));;
      ret COMMAND_value_initialized
  end.

(** [case COMMAND::SEND_KEY_UNICODE: case COMMAND::SEND_KEY_SCANCODE:].  The
    flags and the [int] that [atoi] returns are converted to the [UINT16]
    parameters of the callbacks at the call. *)
Definition send_key (command : COMMAND) (commandArgs : string) : M unit :=
  let args := Str.split commandArgs "-" in
  match args with
  | keyCode :: pressed :: rest =>
      w ← get;
      let updown := if String.eqb pressed "1" then KBD_FLAGS_DOWN else KBD_FLAGS_RELEASE in
      if decide (command = SEND_KEY_UNICODE)
      then
        if UnicodeKeyboardEvent (context_input w)
        then call (CallUnicodeKeyboardEvent (wrap_uint16 updown)
                                            (wrap_uint16 (Str.atoi keyCode)))
        else skip
      else
        match rest with
        | [extend] =>
            if KeyboardEvent (context_input w)
            then call (CallKeyboardEvent
                         (wrap_uint16
                            (Z.lor (if String.eqb extend "1" then KBD_FLAGS_EXTENDED else 0)
                                   updown))
                         (wrap_uint16 (Str.atoi keyCode)))
            else skip
        | _ => skip
        end
  | _ => skip
  end.

(** The three mouse button cases: the first character is the state. *)
Definition send_mouse_button (commandArgs : string) (button : Z) : M unit :=
  input ← throwing (Str.substr commandArgs 1 (Str.len commandArgs - 1));
  state ← throwing (Str.substr commandArgs 0 1);
  processMouseInput input
    (if String.eqb state "0" then button else Z.lor PTR_FLAGS_DOWN button).

(** The [switch (command)] of [processInputsPipe]. *)
Definition dispatch (command : COMMAND) (commandArgs : string) : M unit :=
  match command with
  | SEND_SERVER_ADDRESS => send_server_address commandArgs
  | SEND_VM_GUID =>
      modify_settings (set_VmConnectMode true);;
      modify_settings (set_ServerPort 2179);;
      modify_settings (set_NegotiateSecurityLayer false);;
      modify_settings (set_SendPreconnectionPdu true);;
      modify_settings (set_PreconnectionBlob (Some (Str.c_str commandArgs)))
  | SEND_USER_DOMAIN =>
      modify_settings (set_Domain (Some (Str.c_str commandArgs)))
  | SEND_USER_NAME =>
      let user := Str.c_str commandArgs in
      w ← get;
      match Domain (settings w) with
      | None =>
          let '(u, d) := freerdp_parse_username user in
          modify_settings (set_Username u);;
          modify_settings (set_Domain d)
      | Some _ => modify_settings (set_Username (Some user))
      end
  | SEND_USER_PASSWORD =>
      modify_settings (set_Password (Some (Str.c_str commandArgs)))
  | SEND_START_PROGRAM =>
      modify_settings (set_AlternateShell (Some (Str.c_str commandArgs)))
  | CONNECT_CLIENT => call CallCreateThread_wf_client_thread
  | SEND_BROWSER_RESIZE =>
      scale ← gets (fun w => scaleDisplay (myrtille w));
      if scale
      then
        match Str.split commandArgs "|" with
        | [keep; resolution] => processResizeDisplay (String.eqb keep "1") resolution
        | _ => skip
        end;;
        sendMessage (wstr "reload")
      else skip
  | SEND_BROWSER_PULSE => skip
  | SEND_KEY_UNICODE | SEND_KEY_SCANCODE => send_key command commandArgs
  | SEND_MOUSE_MOVE => processMouseInput commandArgs PTR_FLAGS_MOVE
  | SEND_MOUSE_LEFT_BUTTON => send_mouse_button commandArgs PTR_FLAGS_BUTTON1
  | SEND_MOUSE_MIDDLE_BUTTON => send_mouse_button commandArgs PTR_FLAGS_BUTTON3
  | SEND_MOUSE_RIGHT_BUTTON => send_mouse_button commandArgs PTR_FLAGS_BUTTON2
  | SEND_MOUSE_WHEEL_UP => processMouseInput commandArgs (Z.lor PTR_FLAGS_WHEEL 120)
  | SEND_MOUSE_WHEEL_DOWN =>
      processMouseInput commandArgs
        (Z.lor (Z.lor PTR_FLAGS_WHEEL PTR_FLAGS_WHEEL_NEGATIVE) 136)
  | SET_SCALE_DISPLAY =>
      let scale := negb (String.eqb commandArgs "0") in
      modify_myrtille (set_scaleDisplay scale);;
      (if scale
       then
         match Str.split commandArgs "|" with
         | [keep; resolution] => processResizeDisplay (String.eqb keep "1") resolution
         | _ => skip
         end
       else skip);;
      sendMessage (wstr "reload")
  | SET_RECONNECT_SESSION =>
      match Str.split commandArgs "|" with
      | [_; reload] => if String.eqb reload "1" then sendMessage (wstr "reload") else skip
      | _ => skip
      end
  | SET_IMAGE_ENCODING =>
      v ← throwing (Str.stoi commandArgs);
      modify_myrtille (set_imageEncoding v);;
      modify_myrtille (set_imageQuality IMAGE_QUALITY.HIGH)
  | SET_IMAGE_QUALITY =>
      v ← throwing (Str.stoi commandArgs);
      modify_myrtille (set_imageQuality v)
  | SET_IMAGE_QUANTITY =>
      v ← throwing (Str.stoi commandArgs);
      modify_myrtille (set_imageQuantity v)
  | SET_AUDIO_FORMAT =>
      v ← throwing (Str.stoi commandArgs);
      modify_myrtille (set_audioFormat v)
  | SET_AUDIO_BITRATE =>
      v ← throwing (Str.stoi commandArgs);
      modify_myrtille (set_audioBitrate v)
  | SET_SCREENSHOT_CONFIG =>
      match Str.split commandArgs "|" with
      | [interval; format; path] =>
          v ← throwing (Str.stoi interval);
          modify_myrtille (set_screenshotIntervalSecs v);;
          f ← throwing (Str.stoi format);
          modify_myrtille (set_screenshotFormat f);;
          modify_myrtille (set_screenshotPath path)
      | _ => skip
      end
  | START_TAKING_SCREENSHOTS | STOP_TAKING_SCREENSHOTS => skip
  | TAKE_SCREENSHOT =>
      modify_myrtille (set_screenshotEnabled true);;
      wf_myrtille_send_screen true
  | REQUEST_FULLSCREEN_UPDATE =>
      wf_myrtille_send_screen (String.eqb commandArgs "adaptive")
  | SEND_LOCAL_CLIPBOARD =>
      modify_myrtille (set_clipboardText (ConvertToUnicode (Str.c_str commandArgs)));;
      has_cliprdr ← gets cliprdr;
      if has_cliprdr then call CallMonitorReady else skip
  | CLOSE_CLIENT => modify_myrtille (set_processInputs false)
  end.

(** The [else] branch of the reader for a full payload: look the tag up,
    take the arguments, dispatch.  (Logging is left out.) *)
Definition process_message (message : string) : M unit :=
  tag ← throwing (Str.substr message 0 3);
  command ← commandMap_subscript tag;
  commandArgs ← throwing (Str.substr message 3 (Str.len message - 3));
  dispatch command commandArgs.

End Dispatcher.

(* ===================================================================== *)
(** * Session start and the input command reader *)
(* ===================================================================== *)

(** The command mapping [wf_myrtille_start] fills in. *)
Definition commandMap_start : gmap string COMMAND :=
  list_to_map
    [("SRV", SEND_SERVER_ADDRESS); ("VMG", SEND_VM_GUID); ("DOM", SEND_USER_DOMAIN);
     ("USR", SEND_USER_NAME); ("PWD", SEND_USER_PASSWORD); ("PRG", SEND_START_PROGRAM);
     ("CON", CONNECT_CLIENT); ("RSZ", SEND_BROWSER_RESIZE); ("PLS", SEND_BROWSER_PULSE);
     ("KUC", SEND_KEY_UNICODE); ("KSC", SEND_KEY_SCANCODE); ("MMO", SEND_MOUSE_MOVE);
     ("MLB", SEND_MOUSE_LEFT_BUTTON); ("MMB", SEND_MOUSE_MIDDLE_BUTTON);
     ("MRB", SEND_MOUSE_RIGHT_BUTTON); ("MWU", SEND_MOUSE_WHEEL_UP);
     ("MWD", SEND_MOUSE_WHEEL_DOWN); ("SCA", SET_SCALE_DISPLAY);
     ("RCN", SET_RECONNECT_SESSION); ("ECD", SET_IMAGE_ENCODING);
     ("QLT", SET_IMAGE_QUALITY); ("QNT", SET_IMAGE_QUANTITY); ("AUD", SET_AUDIO_FORMAT);
     ("BIT", SET_AUDIO_BITRATE); ("SSC", SET_SCREENSHOT_CONFIG);
     ("SS1", START_TAKING_SCREENSHOTS); ("SS0", STOP_TAKING_SCREENSHOTS);
     ("SCN", TAKE_SCREENSHOT); ("FSU", REQUEST_FULLSCREEN_UPDATE);
     ("CLP", SEND_LOCAL_CLIPBOARD); ("CLO", CLOSE_CLIENT)].

(** The session state [wf_myrtille_start] sets up. *)
Definition wf_myrtille_start (s : rdpSettings) : wf_myrtille :=
  let clientWidth := wrap_int (DesktopWidth s) in
  let clientHeight := wrap_int (DesktopHeight s) in
  {| processInputs := true;
     imageEncoding := IMAGE_ENCODING.AUTO;
     imageQuality := IMAGE_QUALITY.HIGH;
     imageQuantity := IMAGE_COUNT_SAMPLING_RATE;
     imageCount := 0;
     imageIdx := 0;
     imageBuffer := imageBuffer_unset;
     scaleDisplay := false;
     clientWidth := clientWidth;
     clientHeight := clientHeight;
     aspectRatio := Float32.div (Float32.of_int clientWidth) (Float32.of_int clientHeight);
     audioFormat := AUDIO_FORMAT.MP3;
     audioBitrate := 128;
     screenshotIntervalSecs := 60;
     screenshotFormat := IMAGE_FORMAT.PNG;
     screenshotPath := "";
     screenshotEnabled := false;
     clipboardText := [] |}.

(** The locals of [processInputsPipe] that live across iterations. *)
Record reader : Type := {
  sizeHeader : bool;
  bytesToRead : Z
}.

Definition reader_start : reader := {| sizeHeader := true; bytesToRead := 0 |}.

(** What one [ReadFile] on the inputs pipe gives: a failure, or the bytes
    the peer supplied. *)
Inductive ReadFile_result : Type :=
| ReadFile_failed
| ReadFile_bytes (bytes : list Z).

Section Reader.
Context `{Platform}.

(** One iteration of the main loop of [processInputsPipe]. *)
Definition processInputsPipe_iteration (rd : reader) (r : ReadFile_result) : M reader :=
  let bytesToRead := if sizeHeader rd then 4 else bytesToRead rd in
  let rd := {| sizeHeader := sizeHeader rd; bytesToRead := bytesToRead |} in
  match r with
  | ReadFile_failed =>
      (* pipe problem; exit *)
      modify_myrtille (set_processInputs false);;
      ret rd
  | ReadFile_bytes bytes =>
      let bytesRead := Nat.min (length bytes) (Z.to_nat bytesToRead) in
      let buffer := memcpy (new_bytes (Z.to_nat bytesToRead)) 0 bytes bytesRead in
      if (0 <? bytesRead)%nat
      then
        if sizeHeader rd
        then ret {| sizeHeader := false; bytesToRead := wrap_uint (bytesToInt32 buffer) |}
        else
          process_message (Str.of_bytes (take bytesRead buffer));;
          ret {| sizeHeader := true; bytesToRead := bytesToRead |}
      else ret rd
  end.

(** What follows the main loop: the three handles are closed and the
    process exits. *)
Definition processInputsPipe_exit : M unit :=
  modify (fun w => with_inputsPipe {| connected := false; written := written (inputsPipe w) |} w);;
  modify (fun w => with_updatesPipe {| connected := false; written := written (updatesPipe w) |} w);;
  modify (fun w => with_audioPipe {| connected := false; written := written (audioPipe w) |} w);;
  call CallExit.

(** [DWORD WINAPI processInputsPipe(LPVOID lpParameter)] over the reads the
    peer serves; when they run out the thread stays blocked in [ReadFile]. *)
Fixpoint processInputsPipe_loop (rd : reader) (reads : list ReadFile_result) : M unit :=
  running ← gets (fun w => processInputs (myrtille w));
  if running
  then
    match reads with
    | [] => skip
    | r :: reads' =>
        rd' ← processInputsPipe_iteration rd r;
        processInputsPipe_loop rd' reads'
    end
  else processInputsPipe_exit.

Definition processInputsPipe (reads : list ReadFile_result) : M unit :=
  processInputsPipe_loop reader_start reads.

End Reader.

(* ===================================================================== *)
(** * A concrete platform and session, for running the model *)
(* ===================================================================== *)

Module Sample.

(** A blank bitmap of a given size. *)
Definition blank (w h : Z) : Bitmap :=
  {| bm_width := w; bm_height := h; bm_stride := 4 * w; bm_bits := [] |}.

(** A 2 x 1 cursor: one pixel of the blue mask, one white pixel. *)
Definition arrow : Bitmap :=
  {| bm_width := 2; bm_height := 1; bm_stride := 8; bm_bits := [255; 16777215] |}.

(** Encoders whose output size follows the bitmap: the PNG stream has one
    byte per column, the JPEG stream one byte per row, so that either can
    be made the smaller one, or empty. *)
Global Instance platform : Platform := {|
  BitBlt := fun _ bw bh _ _ _ _ => blank bw bh;
  StretchBlt := fun _ bw bh _ _ _ _ _ _ => blank bw bh;
  DrawIconEx := fun _ => arrow;
  GetIconInfo := fun _ => (3, 4);
  Save_png := fun bmp => replicate (Z.to_nat (bm_width bmp)) 80;
  Save_jpeg := fun bmp quality => replicate (Z.to_nat (bm_height bmp)) 74;
  WebPEncode := fun bmp quality => replicate (Z.to_nat (bm_width bmp)) 87;
  ConvertToUnicode := fun s => wstr s;
  freerdp_parse_username := fun user => (Some user, None);
  KBD_FLAGS_EXTENDED := 256;
  KBD_FLAGS_DOWN := 16384;
  KBD_FLAGS_RELEASE := 32768;
  PTR_FLAGS_WHEEL := 512;
  PTR_FLAGS_WHEEL_NEGATIVE := 256;
  PTR_FLAGS_MOVE := 2048;
  PTR_FLAGS_DOWN := 32768;
  PTR_FLAGS_BUTTON1 := 4096;
  PTR_FLAGS_BUTTON2 := 8192;
  PTR_FLAGS_BUTTON3 := 16384
|}.

Definition desktop : rdpSettings := {|
  MyrtilleSessionId := Some "42";
  ServerHostname := Some "old.example";
  ServerPort := 3389;
  Domain := None;
  Username := None;
  Password := None;
  AlternateShell := None;
  VmConnectMode := false;
  NegotiateSecurityLayer := true;
  SendPreconnectionPdu := false;
  PreconnectionBlob := None;
  DesktopWidth := 1024;
  DesktopHeight := 768
|}.

Definition open_pipe : pipe := {| connected := true; written := [] |}.

(** The session right after [wf_myrtille_start] and [wf_myrtille_connect]. *)
Definition session : world := {|
  settings := desktop;
  context_input := {| UnicodeKeyboardEvent := true; KeyboardEvent := true; MouseEvent := true |};
  cliprdr := true;
  primary := Some (blank 1024 768);
  cursor := 0;
  myrtille := wf_myrtille_start desktop;
  commandMap := commandMap_start;
  inputsPipe := open_pipe;
  updatesPipe := open_pipe;
  audioPipe := open_pipe;
  effects := []
|}.

(** The same session with chosen encoding controls. *)
Definition session_with (encoding quality quantity : Z) : world :=
  with_myrtille
    (set_imageEncoding encoding
       (set_imageQuality quality (set_imageQuantity quantity (myrtille session))))
    session.

End Sample.


(* ===================================================================== *)
(** * Clipboard bridge, print jobs and audio *)
(* ===================================================================== *)

Definition CLIPBOARD_MAX_LENGTH_SEND : Z := 1048576.

(** Reduction to a [size_t].  The width (64 bits here) only shows when
    [size / 2 - 1] wraps below zero, and then only through the result being
    above [CLIPBOARD_MAX_LENGTH_SEND], which holds for 32 bits as well. *)
Definition wrap_size_t (z : Z) : Z := z mod 2 ^ 64.

(** A wide C string behind a [wchar_t*]: the units before the first NUL. *)
Fixpoint wc_str (l : list Z) : list Z :=
  match l with
  | [] => []
  | u :: l' => if u =? 0 then [] else u :: wc_str l'
  end.

(** [void wf_myrtille_read_client_clipboard(wfContext* wfc,
    const wchar_t** text, size_t* size)]: what is stored through the two
    pointers, [None] when nothing is.  The text is the memory of the cached
    string with its terminator. *)
Definition wf_myrtille_read_client_clipboard : M (option (list Z * Z)) :=
  w ← get;
  match MyrtilleSessionId (settings w) with
  | None => ret None
  | Some _ =>
      let text := clipboardText (myrtille w) in
      let bytesPerChar := 2%nat in
      ret (Some ((text ++ [0])%list, Z.of_nat ((length text + 1) * bytesPerChar)))
  end.

(** [void wf_myrtille_send_server_clipboard(wfContext* wfc, BYTE* data,
    size_t size)].  [data] is the memory behind the pointer, read as
    [wchar_t] units. *)
Definition wf_myrtille_send_server_clipboard (data : list Z) (size : Z) : M unit :=
  w ← get;
  match MyrtilleSessionId (settings w) with
  | None => skip
  | Some _ =>
      let bytesPerChar := 2 in
      (* number of characters into the clipboard; subtract the null terminator *)
      let clipboardLength := wrap_size_t (size / bytesPerChar - 1) in
      (* if the clipboard is larger than allowed, truncate it *)
      let clipboardText :=
        take (Z.to_nat (if clipboardLength <=? CLIPBOARD_MAX_LENGTH_SEND
                        then clipboardLength else CLIPBOARD_MAX_LENGTH_SEND)) data in
      let wss := (wstr "clipboard|" ++ wc_str clipboardText)%list in
      let wss := if CLIPBOARD_MAX_LENGTH_SEND <? clipboardLength
                 then (wss ++ wstr "--- TRUNCATED ---")%list else wss in
      sendMessage wss
  end.

(** [void wf_myrtille_send_printjob(wfContext* wfc, wchar_t* printJobName)] *)
Definition wf_myrtille_send_printjob (printJobName : list Z) : M unit :=
  w ← get;
  match MyrtilleSessionId (settings w) with
  | None => skip
  | Some _ => sendMessage (wstr "printjob|" ++ wc_str printJobName ++ wstr ".pdf")%list
  end.

(** [void wf_myrtille_send_audio(wfContext* wfc, const BYTE* data,
    size_t size)]: [data] holds the [size] bytes. *)
Definition wf_myrtille_send_audio (data : list Z) : M unit :=
  w ← get;
  match MyrtilleSessionId (settings w) with
  | None => skip
  | Some _ => sendAudio data
  end.

(* ===================================================================== *)
(** * Encoder lookup *)
(* ===================================================================== *)

(** The two fields of [ImageCodecInfo] the lookup reads; the MIME type is a
    wide C string. *)
Record ImageCodecInfo : Type := {
  MimeType : list Z;
  Clsid : Z
}.

(** The [for] loop of [getEncoderClsid] from index [j] on: the index of the
    first codec of the format, with its class identifier. *)
Fixpoint getEncoderClsid_loop (j : Z) (codecs : list ImageCodecInfo) (format : list Z)
    : option (Z * Z) :=
  match codecs with
  | [] => None
  | codec :: rest =>
      if decide (wc_str (MimeType codec) = wc_str format)
      then Some (j, Clsid codec)
      else getEncoderClsid_loop (j + 1) rest format
  end.

(** [int getEncoderClsid(const WCHAR* format, CLSID* pClsid)], given what
    [GetImageEncodersSize] and [GetImageEncoders] report: the value
    returned and the content of [*pClsid] afterwards. *)
Definition getEncoderClsid (size : Z) (codecs : list ImageCodecInfo) (format : list Z)
    (pClsid : Z) : Z * Z :=
  if size =? 0 then (-1, pClsid)
  else
    match getEncoderClsid_loop 0 codecs format with
    | Some (j, clsid) => (wrap_int j, clsid)
    | None => (-1, pClsid)
    end.

(* ===================================================================== *)
(** * Vocabulary of the properties *)
(* ===================================================================== *)

Local Close Scope string_scope.

(** A rectangle that is degenerate or out of the desktop bounds. *)
Definition degenerate_or_out_of_bounds (s : rdpSettings) (r : RECT.t) : Prop :=
  RECT.left r > RECT.right r \/ RECT.top r > RECT.bottom r
  \/ RECT.left r < 0 \/ RECT.top r < 0 \/ RECT.right r < 0 \/ RECT.bottom r < 0
  \/ RECT.left r > DesktopWidth s \/ RECT.right r > DesktopWidth s
  \/ RECT.top r > DesktopHeight s \/ RECT.bottom r > DesktopHeight s.


(* ===================================================================== *)
(** * The layout of an image message *)
(* ===================================================================== *)

(** The four bytes of a 32-bit integer, least significant first, as the
    wire format words it. *)
Definition le32 (v : Z) : list Z :=
  [v mod 256; (v / 256) mod 256; (v / 65536) mod 256; (v / 16777216) mod 256].

(** The image message of the wire format: the total length (payload length
    + 36), the tag 0, the sequence index, x, y, width, height, format,
    quality, the fullscreen flag, then the payload. *)
Definition image_message (idx x y width height format quality : Z) (fullscreen : bool)
    (payload : list Z) : list Z :=
  le32 (Z.of_nat (length payload) + 36) ++ le32 0 ++ le32 idx ++ le32 x ++ le32 y
  ++ le32 width ++ le32 height ++ le32 format ++ le32 quality
  ++ le32 (b2z fullscreen) ++ payload.

(** When [sendImage] gets to write: the pipe is connected and the buffers
    can be allocated. *)
Definition image_sent (w : world) (size : Z) : bool :=
  connected (updatesPipe w) && (0 <=? size) && (size <=? INT_MAX - 40).

(** What [stream->Read(data, size, ..)] leaves in [data]: the first [size]
    bytes of the stream (a shorter stream leaves the rest of the buffer as
    it was). *)
Definition stream_read (stream : list Z) (size : Z) : list Z :=
  take (Z.to_nat size) (stream ++ replicate (Z.to_nat size) 0).

(** The end of [sendImage], from "send" on. *)
Definition write_image (bmp : Bitmap) (fullscreen : bool) (buffer : list Z) : M unit :=
  ok ← WriteFile_updates buffer;
  (if ok then skip else modify_myrtille (set_processInputs false));;
  enabled ← gets (fun w => screenshotEnabled (myrtille w));
  if enabled && fullscreen
  then modify_myrtille (set_screenshotEnabled false);;
       takeScreenshot bmp
  else skip.

(** The header [sendImage] builds. *)
Definition image_header (size idx x y width height format quality : Z) (fullscreen : bool)
    : list Z :=
  int32ToBytes (b2z fullscreen) 36 (int32ToBytes quality 32 (int32ToBytes format 28
    (int32ToBytes height 24 (int32ToBytes width 20 (int32ToBytes y 16 (int32ToBytes x 12
      (int32ToBytes idx 8 (int32ToBytes 0 4 (int32ToBytes (wrap_int (size + 36)) 0
        (new_bytes 40)))))))))).


(** The index the next image message carries, given the index stored in
    the session: [if (imageIdx == INT_MAX) imageIdx = 0;] then
    [++imageIdx]. *)
Definition next_idx (i : Z) : Z := if i =? INT_MAX then 1 else i + 1.

(** The stream [processImage] goes on to send: the one it selected, when
    its size is not zero. *)
Definition selected_stream (e : encoded) : option (list Z) :=
  match enc_stream e with
  | Some stream => if 0 <? enc_size e then Some stream else None
  | None => None
  end.

(** The sequence index, the format and the quality an image message
    carries. *)
Definition frame_idx (frame : list Z) : Z := bytesToInt32 (take 4 (drop 8 frame)).
Definition frame_format (frame : list Z) : Z := bytesToInt32 (take 4 (drop 28 frame)).
Definition frame_quality (frame : list Z) : Z := bytesToInt32 (take 4 (drop 32 frame)).

(** The buffers written to the updates pipe between two states. *)
Definition new_frames (w w' : world) : list (list Z) :=
  drop (length (written (updatesPipe w))) (written (updatesPipe w')).

(** What one call of a producer may do to the index and to the pipe. *)
Definition image_step_post (w : world) (o : outcome unit) : Prop :=
  let w' := final o in
  connected (updatesPipe w') = connected (updatesPipe w)
  /\ 0 <= imageIdx (myrtille w') <= INT_MAX
  /\ ((written (updatesPipe w') = written (updatesPipe w)
       /\ (returns o = true -> connected (updatesPipe w) = true ->
           next_idx (imageIdx (myrtille w')) = next_idx (imageIdx (myrtille w))))
      \/ exists frame,
           connected (updatesPipe w) = true
           /\ written (updatesPipe w') = written (updatesPipe w) ++ [frame]
           /\ frame_idx frame = next_idx (imageIdx (myrtille w))
           /\ imageIdx (myrtille w') = next_idx (imageIdx (myrtille w))).

Definition image_step (c : M unit) : Prop :=
  forall w, 0 <= imageIdx (myrtille w) <= INT_MAX -> image_step_post w (c w).

(** The three producers of image messages. *)
Inductive producer : Type :=
| Region (region : RECT.t)
| Screen (adaptive : bool)
| Cursor.

Definition produce `{Platform} (p : producer) : M unit :=
  match p with
  | Region region => wf_myrtille_send_region region
  | Screen adaptive => wf_myrtille_send_screen adaptive
  | Cursor => wf_myrtille_send_cursor
  end.

(** What may happen between two calls of a producer (a command that
    changes the configuration, a repaint, a text message): the sequence
    index is not touched and a pipe the peer left stays so. *)
Definition between_calls (w w' : world) : Prop :=
  imageIdx (myrtille w') = imageIdx (myrtille w)
  /\ (connected (updatesPipe w) = false -> connected (updatesPipe w') = false).

(** A run of the producers from a state, with the image messages it
    writes.  A call that faults ends the run. *)
Inductive image_run `{Platform} : world -> list (list Z) -> world -> Prop :=
| image_run_done (w : world) : image_run w [] w
| image_run_call (p : producer) (w w' : world) (frames : list (list Z)) (w'' : world) :
    produce p w = Ok tt w' ->
    image_run w' frames w'' ->
    image_run w (new_frames w w' ++ frames) w''
| image_run_fault (p : producer) (w : world) (f : fault) (w' : world) :
    produce p w = Fault f w' ->
    image_run w (new_frames w w') w'
| image_run_between (w w' : world) (frames : list (list Z)) (w'' : world) :
    between_calls w w' ->
    image_run w' frames w'' ->
    image_run w frames w''.

(** Indices that follow one another from [expected] on, each in
    [1, INT_MAX]. *)
Fixpoint consecutive (expected : Z) (indices : list Z) : Prop :=
  match indices with
  | [] => True
  | i :: rest => i = expected /\ 1 <= i <= INT_MAX /\ consecutive (next_idx i) rest
  end.

(** The throttle over a sequence of region events that passed the
    consistency check: the session state it ends in and, event by event,
    what the regulator forwards. *)
Fixpoint regulate (m : wf_myrtille) (regions : list RECT.t)
    : wf_myrtille * list (option RECT.t) :=
  match regions with
  | [] => (m, [])
  | region :: rest =>
      let '(m1, forwarded) := ips_regulator m region in
      let '(m2, others) := regulate m1 rest in
      (m2, forwarded :: others)
  end.

(** The smallest rectangle that holds two rectangles, and the bounding
    union of a group of rectangles. *)
Definition rect_union (a b : RECT.t) : RECT.t :=
  RECT.mk (Z.min (RECT.left a) (RECT.left b)) (Z.min (RECT.top a) (RECT.top b))
          (Z.max (RECT.right a) (RECT.right b)) (Z.max (RECT.bottom a) (RECT.bottom b)).

Definition bounding_union (group : list RECT.t) : RECT.t :=
  match group with
  | [] => imageBuffer_unset
  | region :: rest => foldl rect_union region rest
  end.

(** What the throttle is to forward of a complete group of events: nothing
    for all but the last, and with the last the bounding union of the
    group. *)
Definition group_forwards (group : list RECT.t) : list (option RECT.t) :=
  replicate (length group - 1) None ++ [Some (bounding_union group)].

(** The session state with the throttle counter and the accumulator
    replaced. *)
Definition throttle_state (count : Z) (buffer : RECT.t) (m : wf_myrtille) : wf_myrtille :=
  set_imageBuffer buffer (set_imageCount count m).

(** Coordinates that are not negative, as the consistency check leaves
    them. *)
Definition nonneg (r : RECT.t) : Prop :=
  0 <= RECT.left r /\ 0 <= RECT.top r /\ 0 <= RECT.right r /\ 0 <= RECT.bottom r.

(** The accumulator after a run of regions. *)
Definition accumulate (b : RECT.t) (regions : list RECT.t) : RECT.t :=
  foldl (fun b r => consolidate r b) b regions.


(* ===================================================================== *)
(** * Further properties: vocabulary *)
(* ===================================================================== *)

(** A value a [byte] can hold. *)
Definition is_byte (b : Z) : Prop := 0 <= b < 256.


(** A text message of the wire format: its byte length as a 32-bit
    little-endian word, then its UTF-16 units, low byte first. *)
Definition text_message (msg : list Z) : list Z :=
  le32 (2 * Z.of_nat (length msg)) ++ wchar_bytes msg.

(** The world after [sendMessage]: one more write on the updates pipe, or
    the run flag cleared when the pipe is gone; nothing for an empty text. *)
Definition message_sent (msg : list Z) (w : world) : world :=
  match msg with
  | [] => w
  | _ :: _ =>
      if connected (updatesPipe w)
      then with_updatesPipe
             {| connected := true;
                written := written (updatesPipe w) ++ [text_message msg] |} w
      else with_myrtille (set_processInputs false (myrtille w)) w
  end.


(** A computation keeps an observation of the state: the observation is the
    same in the final state, whether the computation returns or faults. *)
Definition keeps {X A : Type} (f : world -> X) (c : M A) : Prop :=
  forall w, f (final (c w)) = f w.

(** The configuration fields of the session state: all but the counters,
    the accumulator, the run flag and the screenshot trigger. *)
Definition session_configuration (m : wf_myrtille) :=
  (imageEncoding m, imageQuality m, imageQuantity m, scaleDisplay m,
   clientWidth m, clientHeight m, aspectRatio m,
   (audioFormat m, audioBitrate m, screenshotIntervalSecs m, screenshotFormat m,
    screenshotPath m, clipboardText m)).

(** The part of the state that is configuration: what the session was
    started with and what the gateway sets by commands. *)
Definition configuration (w : world) :=
  (settings w, context_input w, cliprdr w, primary w, cursor w, commandMap w,
   inputsPipe w, audioPipe w, session_configuration (myrtille w)).


(** A pipe after [CloseHandle]. *)
Definition closed (p : pipe) : pipe :=
  {| connected := false; written := written p |}.

(** The state the reader thread leaves: the run flag cleared, the three
    pipes closed, the process exited; everything else as it was. *)
Definition shut_down (w : world) : world :=
  {| settings := settings w;
     context_input := context_input w;
     cliprdr := cliprdr w;
     primary := primary w;
     cursor := cursor w;
     myrtille := set_processInputs false (myrtille w);
     commandMap := commandMap w;
     inputsPipe := closed (inputsPipe w);
     updatesPipe := closed (updatesPipe w);
     audioPipe := closed (audioPipe w);
     effects := effects w ++ [CallExit] |}.

(** A read that did not fail. *)
Definition read_succeeded (r : ReadFile_result) : Prop :=
  match r with
  | ReadFile_failed => False
  | ReadFile_bytes _ => True
  end.


(** The commands that set up the connection: the ones that write
    [rdpSettings]. *)
Definition connection_setup (c : COMMAND) : bool :=
  match c with
  | SEND_SERVER_ADDRESS | SEND_VM_GUID | SEND_USER_DOMAIN | SEND_USER_NAME
  | SEND_USER_PASSWORD | SEND_START_PROGRAM => true
  | _ => false
  end.

(** The keyboard and mouse commands. *)
Definition user_input (c : COMMAND) : bool :=
  match c with
  | SEND_KEY_UNICODE | SEND_KEY_SCANCODE
  | SEND_MOUSE_MOVE | SEND_MOUSE_LEFT_BUTTON | SEND_MOUSE_MIDDLE_BUTTON
  | SEND_MOUSE_RIGHT_BUTTON | SEND_MOUSE_WHEEL_UP | SEND_MOUSE_WHEEL_DOWN => true
  | _ => false
  end.

(** An event injected into the RDP session. *)
Definition input_event (e : effect) : bool :=
  match e with
  | CallUnicodeKeyboardEvent _ _ | CallKeyboardEvent _ _ | CallMouseEvent _ _ _ => true
  | _ => false
  end.

(** What the session is connected to and with: the connection settings,
    the engine's callbacks and surfaces, the command map, and the two pipes
    the command handlers have no business with. *)
Definition connection (w : world) :=
  (settings w, context_input w, cliprdr w, primary w, cursor w, commandMap w,
   inputsPipe w, audioPipe w).

(** A computation that injects at most one input event and does nothing
    else, whether it returns or faults. *)
Definition injects_at_most_one {A : Type} (c : M A) : Prop :=
  forall w,
    final (c w) = w
    \/ exists e, input_event e = true /\ final (c w) = with_effects (effects w ++ [e]) w.

(** A computation that returns and changes the connection settings only. *)
Definition writes_settings_only {A : Type} (c : M A) : Prop :=
  forall w, exists a s, c w = Ok a (with_settings s w).


(** A character does not occur in a string. *)
Definition lacks (s : string) (c : ascii) : Prop := Str.find s c = None.


(** Whether a pointer position is mapped from the browser's display to the
    desktop: scaling is on and the two sizes differ. *)
Definition pointer_scaled (w : world) : bool :=
  scaleDisplay (myrtille w)
  && negb ((clientWidth (myrtille w) =? wrap_int (DesktopWidth (settings w)))
           && (clientHeight (myrtille w) =? wrap_int (DesktopHeight (settings w)))).


(** The accumulator of the throttle is unset, or a rectangle the
    consistency check accepts. *)
Definition accumulator_ok (s : rdpSettings) (b : RECT.t) : Prop :=
  b = imageBuffer_unset \/ region_rejected s b = false.

(** A rectangle that holds another one. *)
Definition covers (outer inner : RECT.t) : Prop :=
  RECT.left outer <= RECT.left inner /\ RECT.top outer <= RECT.top inner
  /\ RECT.right inner <= RECT.right outer /\ RECT.bottom inner <= RECT.bottom outer.

(** The state of the throttle is sound: the event counter is a
    non-negative [int] and the accumulator is unset or an accepted
    rectangle. *)
Definition throttle_ok (w : world) : Prop :=
  0 <= imageCount (myrtille w) <= INT_MAX
  /\ accumulator_ok (settings w) (imageBuffer (myrtille w)).

(** What the soundness of the throttle depends on. *)
Definition throttle_view (w : world) :=
  (DesktopWidth (settings w), DesktopHeight (settings w),
   imageCount (myrtille w), imageBuffer (myrtille w)).


(** The region producer called on a sequence of events, each call on the
    state the previous call left, forwards [forwards]: a call that forwards
    nothing returns with nothing changed but the counter and the accumulator
    of the throttle; a call that forwards a rectangle does what the
    extraction and encoding of that rectangle does, once the counter and
    the accumulator are updated. *)
Fixpoint region_calls_forward `{Platform} (hdc : Bitmap) (w : world)
    (regions : list RECT.t) (forwards : list (option RECT.t)) : Prop :=
  match regions, forwards with
  | [], [] => True
  | region :: rest, forwarded :: others =>
      let o := wf_myrtille_send_region region w in
      (exists count buffer,
         let w' := with_myrtille (throttle_state count buffer (myrtille w)) w in
         o = match forwarded with
             | None => Ok tt w'
             | Some consolidated => extract_and_process hdc consolidated w'
             end)
      /\ region_calls_forward hdc (final o) rest others
  | _, _ => False
  end.

(** The rectangle an image message carries: x, y, width and height. *)
Definition frame_rect (frame : list Z) : Z * Z * Z * Z :=
  (bytesToInt32 (take 4 (drop 12 frame)), bytesToInt32 (take 4 (drop 16 frame)),
   bytesToInt32 (take 4 (drop 20 frame)), bytesToInt32 (take 4 (drop 24 frame))).


(** The file a screenshot is saved to (without the tick count): the
    configured folder, a backslash unless the folder ends with one, the
    session id, and the extension of the configured format. *)
Definition screenshot_file (w : world) : string :=
  let m := myrtille w in
  (screenshotPath m
   +:+ (if negb (String.eqb (String.substring (Str.len (screenshotPath m) - 1) 1
                                              (screenshotPath m)) "\")
        then "\" else ""))
  +:+ default ""%string (MyrtilleSessionId (settings w)) +:+ "_"
  +:+ (if screenshotFormat m =? IMAGE_FORMAT.PNG then ".png" else ".jpg").

(** What taking a screenshot of [bmp] saves: one file in the PNG or JPEG
    format, nothing when no folder is configured or the format is neither. *)
Definition screenshot_saved (w : world) (bmp : Bitmap) : list effect :=
  let m := myrtille w in
  if String.eqb (screenshotPath m) "" then []
  else if (screenshotFormat m =? IMAGE_FORMAT.PNG) || (screenshotFormat m =? IMAGE_FORMAT.JPEG)
  then [CallSaveScreenshot (screenshot_file w) (screenshotFormat m) bmp]
  else [].


(** The text message the server clipboard goes out as: the text, cut at
    [CLIPBOARD_MAX_LENGTH_SEND] units and marked when it was longer. *)
Definition clipboard_message (text : list Z) : list Z :=
  wstr "clipboard|"
  ++ (if Z.of_nat (length text) <=? CLIPBOARD_MAX_LENGTH_SEND
      then text
      else take (Z.to_nat CLIPBOARD_MAX_LENGTH_SEND) text ++ wstr "--- TRUNCATED ---").

(** A wide string without a NUL unit. *)
Definition no_nul (text : list Z) : Prop := Forall (fun u => u <> 0) text.


(** The tags of the command map, in the order of the enumeration. *)
Definition COMMAND_tag (c : COMMAND) : string :=
  match c with
  | SEND_SERVER_ADDRESS => "SRV" | SEND_VM_GUID => "VMG" | SEND_USER_DOMAIN => "DOM"
  | SEND_USER_NAME => "USR" | SEND_USER_PASSWORD => "PWD" | SEND_START_PROGRAM => "PRG"
  | CONNECT_CLIENT => "CON" | SEND_BROWSER_RESIZE => "RSZ" | SEND_BROWSER_PULSE => "PLS"
  | SEND_KEY_UNICODE => "KUC" | SEND_KEY_SCANCODE => "KSC" | SEND_MOUSE_MOVE => "MMO"
  | SEND_MOUSE_LEFT_BUTTON => "MLB" | SEND_MOUSE_MIDDLE_BUTTON => "MMB"
  | SEND_MOUSE_RIGHT_BUTTON => "MRB" | SEND_MOUSE_WHEEL_UP => "MWU"
  | SEND_MOUSE_WHEEL_DOWN => "MWD" | SET_SCALE_DISPLAY => "SCA"
  | SET_RECONNECT_SESSION => "RCN" | SET_IMAGE_ENCODING => "ECD"
  | SET_IMAGE_QUALITY => "QLT" | SET_IMAGE_QUANTITY => "QNT" | SET_AUDIO_FORMAT => "AUD"
  | SET_AUDIO_BITRATE => "BIT" | SET_SCREENSHOT_CONFIG => "SSC"
  | START_TAKING_SCREENSHOTS => "SS1" | STOP_TAKING_SCREENSHOTS => "SS0"
  | TAKE_SCREENSHOT => "SCN" | REQUEST_FULLSCREEN_UPDATE => "FSU"
  | SEND_LOCAL_CLIPBOARD => "CLP" | CLOSE_CLIENT => "CLO"
  end.


(** Items joined by a delimiter, each item followed by one, and a last
    piece after them. *)
Definition joined (delim : ascii) (items : list string) (last : string) : string :=
  foldr (fun item rest => item +:+ String delim rest) last items.


(** A codec whose MIME type is the one looked for, as [wcscmp] sees it. *)
Definition encodes (format : list Z) (codec : ImageCodecInfo) : Prop :=
  wc_str (MimeType codec) = wc_str format.


(** The colour of the mask [DrawIconEx] paints behind the cursor (blue),
    the yellow some cursors come in, and what the conversion makes of a
    pixel: the mask becomes transparent white, yellow becomes opaque black,
    anything else stays.  The alpha channel is not looked at. *)
Definition is_mask (color : Z) : bool :=
  (Z.shiftr (Z.land color 16711680) 16 =? 0) && (Z.shiftr (Z.land color 65280) 8 =? 0)
  && (Z.land color 255 =? 255).

Definition is_yellow (color : Z) : bool :=
  (Z.shiftr (Z.land color 16711680) 16 =? 255) && (Z.shiftr (Z.land color 65280) 8 =? 255)
  && (Z.land color 255 =? 0).

Definition recolor (color : Z) : Z :=
  if is_mask color then 16777215
  else if is_yellow color then 4278190080
  else color.

(** A bitmap whose rows are packed: the stride is four bytes per pixel of
    the width, and the bits hold width x height pixels. *)
Definition packed (bmp : Bitmap) : Prop :=
  0 <= bm_width bmp /\ 0 <= bm_height bmp
  /\ bm_stride bmp = 4 * bm_width bmp
  /\ length (bm_bits bmp) = Z.to_nat (bm_width bmp * bm_height bmp).

(** The conversion of one pixel, by its index in the bits. *)
Definition pixel_step (st : list Z * bool * bool) (i : nat) : list Z * bool * bool :=
  let '(bmpBits, bmpBitsTransparent, bmpBitsColor) := st in
  let color := default 0 (bmpBits !! i) in
  if is_mask color
  then (<[i := 16777215]> bmpBits, true, bmpBitsColor)
  else
    let bmpBits := if is_yellow color then <[i := 4278190080]> bmpBits else bmpBits in
    (bmpBits, bmpBitsTransparent, true).

(** The index of the pixel at column [x] of row [y], and the order in which
    the two loops visit the pixels: column by column. *)
Definition pixel_index (width x y : Z) : nat := Z.to_nat (y * width + x).

Definition pixel_order (width height : Z) : list nat :=
  seqZ 0 width ≫= fun x => pixel_index width x <$> seqZ 0 height.

(* ===================================================================== *)
(** * Reasoning about computations *)
(* ===================================================================== *)

(** Unfold the monad down to functions over [world]. *)
Ltac run :=
  unfold skip, modify_myrtille, modify_settings, call, throwing, gets, get,
         modify, raise, bind, ret in *.

Lemma bind_Ok {A B} (m : M A) (k : A -> M B) w a w' :
  m w = Ok a w' -> bind m k w = k a w'.
Proof. intros E. unfold bind. now rewrite E. Qed.

Lemma bind_Fault {A B} (m : M A) (k : A -> M B) w f w' :
  m w = Fault f w' -> bind m k w = Fault f w'.
Proof. intros E. unfold bind. now rewrite E. Qed.

(* ===================================================================== *)
(** * The consistency check of region events *)
(* ===================================================================== *)

Lemma region_rejected_iff s r :
  region_rejected s r = true <-> degenerate_or_out_of_bounds s r.
Proof.
  unfold region_rejected, degenerate_or_out_of_bounds.
  rewrite !orb_true_iff, !Z.ltb_lt. lia.
Qed.

Lemma region_accepted_iff s r :
  region_rejected s r = false <->
  0 <= RECT.left r <= RECT.right r /\ RECT.right r <= DesktopWidth s /\
  0 <= RECT.top r <= RECT.bottom r /\ RECT.bottom r <= DesktopHeight s.
Proof.
  unfold region_rejected.
  rewrite !orb_false_iff, !Z.ltb_ge. lia.
Qed.

(** C10: a region event whose rectangle is degenerate or out of bounds makes
    [wf_myrtille_send_region] return with the whole state as it was: the
    throttle counter, the accumulator, every other session field and the
    pipes are unchanged. *)
Theorem send_region_rejected_no_effect `{Platform} (w : world) (region : RECT.t) :
  degenerate_or_out_of_bounds (settings w) region ->
  wf_myrtille_send_region region w = Ok tt w.
Proof.
  intros Hbad. apply region_rejected_iff in Hbad.
  unfold wf_myrtille_send_region. run.
  destruct (MyrtilleSessionId (settings w)); [|reflexivity].
  destruct (primary w); [|reflexivity].
  now rewrite Hbad.
Qed.

Lemma send_region_rejected_no_effect_witness :
  degenerate_or_out_of_bounds (settings Sample.session) (RECT.mk 30 10 20 40)
  /\ wf_myrtille_send_region (RECT.mk 30 10 20 40) Sample.session = Ok tt Sample.session.
Proof.
  assert (Hbad : degenerate_or_out_of_bounds (settings Sample.session) (RECT.mk 30 10 20 40)).
  { left. simpl. lia. }
  split; [exact Hbad|].
  exact (send_region_rejected_no_effect Sample.session (RECT.mk 30 10 20 40) Hbad).
Defined.

(* ===================================================================== *)
(** * Command dispatch *)
(* ===================================================================== *)

Lemma substring_all (s : string) : String.substring 0 (String.length s) s = s.
Proof. induction s as [|a s IH]; simpl; [reflexivity|now rewrite IH]. Qed.

Lemma substr_tag (a b c : ascii) (args : string) :
  Str.substr (String a (String b (String c args))) 0 3
  = inr (String a (String b (String c EmptyString))).
Proof.
  unfold Str.substr. simpl. now destruct args.
Qed.

Lemma substr_args (a b c : ascii) (args : string) :
  let message := String a (String b (String c args)) in
  Str.substr message 3 (Str.len message - 3) = inr args.
Proof.
  unfold Str.substr, Str.len. simpl.
  rewrite Nat.sub_0_r. now rewrite substring_all.
Qed.

(** What the reader does with a payload whose tag the command mapping does
    not hold: the subscript inserts the tag with the enumerator of value 0
    and the handler of that enumerator runs on the arguments. *)
Lemma process_message_unknown_tag `{Platform} (w : world) (a b c : ascii) (args : string) :
  let tag := String a (String b (String c EmptyString)) in
  commandMap w !! tag = None ->
  process_message (String a (String b (String c args))) w
  = send_server_address args
      (with_commandMap (<[tag := SEND_SERVER_ADDRESS]> (commandMap w)) w).
Proof.
  intros tag Hnone. unfold process_message.
  rewrite (substr_args a b c args), substr_tag.
  unfold commandMap_subscript. run. fold tag. rewrite Hnone. reflexivity.
Qed.

(** What the reader does with a payload whose tag the mapping holds. *)
Lemma process_message_known_tag `{Platform} (w : world) (a b c : ascii) (args : string)
    (command : COMMAND) :
  commandMap w !! String a (String b (String c EmptyString)) = Some command ->
  process_message (String a (String b (String c args))) w = dispatch command args w.
Proof.
  intros Hsome. unfold process_message.
  rewrite (substr_args a b c args), substr_tag.
  unfold commandMap_subscript. run. rewrite Hsome. reflexivity.
Qed.

(** C1: the inputs pipe serves a length header and the payload
    [XYZhost:3390], whose tag is not registered.  The reader still runs a
    handler on it, the one of [SEND_SERVER_ADDRESS]: the host name and the
    port of the connection settings are replaced, and the tag is added to
    the command mapping.  Nothing is written to the updates pipe and the
    loop goes on. *)
Theorem unknown_tag_runs_server_address_handler :
  let reads := [ReadFile_bytes [12; 0; 0; 0];
                ReadFile_bytes (Str.to_bytes "XYZhost:3390"%string)] in
  let o := processInputsPipe reads Sample.session in
  commandMap Sample.session !! "XYZ"%string = None
  /\ ServerHostname (settings Sample.session) = Some "old.example"%string
  /\ ServerPort (settings Sample.session) = 3389
  /\ returns o = true
  /\ ServerHostname (settings (final o)) = Some "host"%string
  /\ ServerPort (settings (final o)) = 3390
  /\ commandMap (final o) !! "XYZ"%string = Some SEND_SERVER_ADDRESS
  /\ written (updatesPipe (final o)) = written (updatesPipe Sample.session)
  /\ processInputs (myrtille (final o)) = true
  /\ final (process_message "XYZhost:3390"%string Sample.session) = final o.
Proof. vm_compute. repeat split; reflexivity. Qed.

(** C7 (as amended): when [std::stoi] converts the argument to [v], a
    [SET_IMAGE_ENCODING] command returns with the image quality at the HIGH
    default (50) whatever it was before, and with the encoding [v]; a
    [SET_IMAGE_QUALITY] or [SET_IMAGE_QUANTITY] command stores [v] as it
    is. *)
Theorem encoding_controls `{Platform} (w : world) (commandArgs : string) (v : Z) :
  Str.stoi commandArgs = inr v ->
  dispatch SET_IMAGE_ENCODING commandArgs w
    = Ok tt (with_myrtille
               (set_imageQuality IMAGE_QUALITY.HIGH (set_imageEncoding v (myrtille w))) w)
  /\ imageQuality (myrtille (final (dispatch SET_IMAGE_ENCODING commandArgs w))) = 50
  /\ dispatch SET_IMAGE_QUALITY commandArgs w
     = Ok tt (with_myrtille (set_imageQuality v (myrtille w)) w)
  /\ dispatch SET_IMAGE_QUANTITY commandArgs w
     = Ok tt (with_myrtille (set_imageQuantity v (myrtille w)) w).
Proof.
  intros Hv. unfold dispatch. run. rewrite Hv. simpl. repeat split.
Qed.

Lemma encoding_controls_witness :
  Str.stoi "2"%string = inr 2
  /\ imageQuality (myrtille (final (dispatch SET_IMAGE_ENCODING "2"%string
                                      (Sample.session_with 0 10 100)))) = 50.
Proof.
  split; [reflexivity|].
  exact (proj1 (proj2 (encoding_controls (Sample.session_with 0 10 100) "2"%string 2 eq_refl))).
Defined.

(** With an argument [std::stoi] rejects, each of the three commands throws
    before any assignment. *)
Lemma encoding_controls_throw `{Platform} (w : world) (commandArgs : string) (e : exn) :
  Str.stoi commandArgs = inl e ->
  dispatch SET_IMAGE_ENCODING commandArgs w = Fault (Exception e) w
  /\ dispatch SET_IMAGE_QUALITY commandArgs w = Fault (Exception e) w
  /\ dispatch SET_IMAGE_QUANTITY commandArgs w = Fault (Exception e) w.
Proof.
  intros He. unfold dispatch. run. rewrite He. simpl. repeat split.
Qed.

(** C7, the claim as stated fails: the argument [abc] of a
    [SET_IMAGE_ENCODING] command makes [std::stoi] throw, and the quality
    stays at the 10 it was. *)
Lemma encoding_controls_counterexample :
  let w := Sample.session_with 0 10 100 in
  process_message "ECDabc"%string w = Fault (Exception invalid_argument) w
  /\ imageQuality (myrtille (final (process_message "ECDabc"%string w))) = 10
  /\ imageQuality (myrtille (final (process_message "ECDabc"%string w))) <> IMAGE_QUALITY.HIGH.
Proof.
  intros w.
  assert (E : process_message "ECDabc"%string w = Fault (Exception invalid_argument) w).
  { unfold w.
    rewrite (process_message_known_tag _ "E"%char "C"%char "D"%char "abc"%string SET_IMAGE_ENCODING)
      by (vm_compute; reflexivity).
    apply (encoding_controls_throw _ "abc"%string invalid_argument). reflexivity. }
  rewrite E. simpl. repeat split. discriminate.
Qed.

Lemma byte0 v : Z.land v 255 = v mod 256.
Proof. change 255 with (Z.ones 8). rewrite Z.land_ones by lia. reflexivity. Qed.
Lemma byte_n v n : 0 <= n -> Z.land (Z.shiftr v n) 255 = (v / 2 ^ n) mod 256.
Proof. intros. rewrite byte0, Z.shiftr_div_pow2 by lia. reflexivity. Qed.

Lemma int32ToBytes_le32 (v : Z) (off : nat) (bytes : list Z) :
  (off + 4 <= length bytes)%nat ->
  int32ToBytes v off bytes = take off bytes ++ le32 v ++ drop (off + 4) bytes.
Proof.
  intros Hlen. unfold int32ToBytes, le32.
  rewrite (byte_n v 8), (byte_n v 16), (byte_n v 24), (byte0 v) by lia.
  change (2 ^ 8) with 256. change (2 ^ 16) with 65536. change (2 ^ 24) with 16777216.
  generalize (v mod 256) (v / 256 mod 256) (v / 65536 mod 256) (v / 16777216 mod 256).
  intros b0 b1 b2 b3.
  rewrite <- (take_drop off bytes) at 1.
  assert (Hoff : length (take off bytes) = off) by (rewrite length_take; lia).
  destruct (drop off bytes) as [|x0 [|x1 [|x2 [|x3 rest]]]] eqn:E;
    try (apply (f_equal length) in E; rewrite length_drop in E; simpl in E; lia).
  assert (drop (off + 4) bytes = rest) as ->.
  { rewrite <- drop_drop, E. reflexivity. }
  rewrite !insert_app_r_alt by lia.
  rewrite Hoff.
  replace (off - off)%nat with 0%nat by lia.
  replace (off + 1 - off)%nat with 1%nat by lia.
  replace (off + 2 - off)%nat with 2%nat by lia.
  replace (off + 3 - off)%nat with 3%nat by lia.
  reflexivity.
Qed.

Ltac to_div_mod :=
  repeat match goal with
         | |- context [Z.land (Z.shiftr ?v ?n) 255] => rewrite (byte_n v n) by lia
         end;
  repeat match goal with
         | |- context [Z.land ?v 255] => rewrite (byte0 v)
         end;
  change (2 ^ 8) with 256; change (2 ^ 16) with 65536; change (2 ^ 24) with 16777216.

Ltac hide_bytes :=
  repeat match goal with
         | |- context [?a mod 256] => generalize (a mod 256); intro
         end.

Lemma header_le32 (f0 f1 f2 f3 f4 f5 f6 f7 f8 f9 : Z) :
  int32ToBytes f9 36 (int32ToBytes f8 32 (int32ToBytes f7 28 (int32ToBytes f6 24
    (int32ToBytes f5 20 (int32ToBytes f4 16 (int32ToBytes f3 12 (int32ToBytes f2 8
      (int32ToBytes f1 4 (int32ToBytes f0 0 (new_bytes 40))))))))))
  = le32 f0 ++ le32 f1 ++ le32 f2 ++ le32 f3 ++ le32 f4 ++ le32 f5 ++ le32 f6
    ++ le32 f7 ++ le32 f8 ++ le32 f9.
Proof.
  unfold int32ToBytes, le32. to_div_mod. hide_bytes. reflexivity.
Qed.

Lemma wrap_int_congruent v : exists k, wrap_int v = v + k * 2 ^ 32.
Proof.
  exists (- ((v + 2 ^ 31) / 2 ^ 32)). unfold wrap_int.
  rewrite Z.mod_eq by lia. lia.
Qed.

Lemma le32_congruent v k : le32 (v + k * 2 ^ 32) = le32 v.
Proof.
  unfold le32.
  replace (v + k * 2 ^ 32) with (v + (k * 16777216) * 256) at 2 by lia.
  replace (v + k * 2 ^ 32) with (v + (k * 65536) * 65536) at 2 by lia.
  replace (v + k * 2 ^ 32) with (v + (k * 256) * 16777216) at 2 by lia.
  replace (v + k * 2 ^ 32) with (v + (k * 16777216) * 256) by lia.
  rewrite !Z.div_add by lia.
  rewrite Z_mod_plus_full.
  replace (v / 256 + k * 16777216) with (v / 256 + (k * 65536) * 256) by lia.
  replace (v / 65536 + k * 65536) with (v / 65536 + (k * 256) * 256) by lia.
  replace (v / 16777216 + k * 256) with (v / 16777216 + k * 256) by lia.
  rewrite !Z_mod_plus_full. reflexivity.
Qed.

Lemma le32_wrap_int v : le32 (wrap_int v) = le32 v.
Proof. destruct (wrap_int_congruent v) as [k ->]. apply le32_congruent. Qed.

Lemma memcpy_read (stream : list Z) (n : nat) :
  memcpy (new_bytes n) 0 stream n = take n (stream ++ replicate n 0).
Proof.
  unfold memcpy, new_bytes.
  rewrite take_app, take_replicate.
  assert (Hk : (length (take n stream) <= n)%nat) by (rewrite length_take; lia).
  assert (E : replicate n 0 = replicate (length (take n stream)) 0
                              ++ replicate (n - length (take n stream)) 0).
  { rewrite <- replicate_add. f_equal. lia. }
  rewrite E at 1.
  rewrite list_inserts_0_r by (now rewrite length_replicate).
  f_equal. f_equal. rewrite length_take. lia.
Qed.

Lemma memcpy_frame (header data : list Z) (n : nat) :
  length header = 40%nat -> length data = n ->
  memcpy (memcpy (new_bytes (n + 40)) 0 header 40) 40 data n = header ++ data.
Proof.
  intros Hh Hd. unfold memcpy, new_bytes.
  rewrite !firstn_all2 by lia.
  rewrite Nat.add_comm, replicate_add.
  rewrite list_inserts_0_r by (now rewrite length_replicate).
  replace 40%nat with (length header + 0)%nat at 1 by lia.
  rewrite list_inserts_app_r.
  f_equal.
  rewrite <- (app_nil_r (replicate n 0)).
  rewrite list_inserts_0_r by (now rewrite length_replicate).
  apply app_nil_r.
Qed.

Lemma with_effects_id (w : world) : with_effects (effects w) w = w.
Proof. now destruct w. Qed.

Lemma takeScreenshot_final (bmp : Bitmap) (w : world) :
  exists l, final (takeScreenshot bmp w) = with_effects l w.
Proof.
  unfold takeScreenshot. run.
  destruct (negb _); [|exists (effects w); simpl; now rewrite with_effects_id].
  destruct (Str.substr _ _ _); simpl; [exists (effects w); now rewrite with_effects_id|].
  repeat match goal with
         | |- context [if ?c then _ else _] => destruct c
         end; simpl; try (eexists; reflexivity);
    exists (effects w); now rewrite with_effects_id.
Qed.


Lemma bind_ret {A B} (a : A) (k : A -> M B) w : bind (ret a) k w = k a w.
Proof. reflexivity. Qed.

Lemma bind_raise {A B} (f : fault) (k : A -> M B) w : bind (raise f) k w = Fault f w.
Proof. reflexivity. Qed.

Lemma write_image_final (bmp : Bitmap) (fullscreen : bool) (buffer : list Z) (w : world) :
  let w' := final (write_image bmp fullscreen buffer w) in
  written (updatesPipe w')
  = written (updatesPipe w) ++ (if connected (updatesPipe w) then [buffer] else [])
  /\ connected (updatesPipe w') = connected (updatesPipe w)
  /\ imageIdx (myrtille w') = imageIdx (myrtille w).
Proof.
  unfold write_image, WriteFile_updates. run.
  destruct (connected (updatesPipe w)) eqn:Hc; cbn -[takeScreenshot];
    destruct (screenshotEnabled (myrtille w) && fullscreen); cbn -[takeScreenshot];
    try match goal with |- context [takeScreenshot bmp ?w0] =>
          destruct (takeScreenshot_final bmp w0) as [l ->] end;
    cbn; rewrite ?app_nil_r; auto.
Qed.

Lemma sendImage_unfold (bmp : Bitmap) (idx x y width height format quality : Z)
    (stream : list Z) (size : Z) (fullscreen : bool) :
  sendImage bmp idx x y width height format quality stream size fullscreen
  = (data ← new_array size;
     buffer ← new_array (wrap_int (size + 40));
     write_image bmp fullscreen
       (memcpy (memcpy buffer 0
                  (image_header size idx x y width height format quality fullscreen) 40)
               40 (memcpy data 0 stream (Z.to_nat size)) (Z.to_nat size))).
Proof. reflexivity. Qed.

Lemma sendImage_final (bmp : Bitmap) (idx x y width height format quality : Z)
    (stream : list Z) (size : Z) (fullscreen : bool) (w : world) :
  size <= INT_MAX ->
  let w' := final (sendImage bmp idx x y width height format quality stream size fullscreen w) in
  written (updatesPipe w')
  = written (updatesPipe w)
    ++ (if image_sent w size
        then [image_message idx x y width height format quality fullscreen
                            (stream_read stream size)]
        else [])
  /\ connected (updatesPipe w') = connected (updatesPipe w)
  /\ imageIdx (myrtille w') = imageIdx (myrtille w).
Proof.
  intros Hmax.
  rewrite sendImage_unfold. unfold image_header.
  unfold image_sent, new_array.
  destruct (size <? 0) eqn:Hneg.
  { rewrite bind_raise. assert ((0 <=? size) = false) as -> by lia.
    rewrite andb_false_r. cbv beta iota zeta delta [final andb].
    rewrite app_nil_r. auto. }
  apply Z.ltb_ge in Hneg.
  assert ((0 <=? size) = true) as -> by lia.
  rewrite bind_ret.
  destruct (Z_le_dec size (INT_MAX - 40)) as [Hfit|Hbig].
  - assert (Hw40 : wrap_int (size + 40) = size + 40).
    { unfold wrap_int, INT_MAX in *. rewrite Z.mod_small by lia. lia. }
    rewrite Hw40.
    assert ((size + 40 <? 0) = false) as -> by lia.
    assert ((size <=? INT_MAX - 40) = true) as -> by lia.
    rewrite bind_ret, !andb_true_r.
    rewrite header_le32, le32_wrap_int, memcpy_read.
    replace (Z.to_nat (size + 40)) with (Z.to_nat size + 40)%nat by lia.
    rewrite memcpy_frame; cycle 1.
    { rewrite !length_app. reflexivity. }
    { rewrite length_take, length_app, length_replicate. lia. }
    fold (stream_read stream size).
    assert (Hlen : Z.of_nat (length (stream_read stream size)) = size).
    { unfold stream_read. rewrite length_take, length_app, length_replicate. lia. }
    rewrite <- !app_assoc.
    match goal with |- context [write_image bmp fullscreen ?b] =>
      replace b with (image_message idx x y width height format quality fullscreen
                                    (stream_read stream size))
        by (unfold image_message; rewrite Hlen; reflexivity)
    end.
    apply write_image_final.
  - assert (Hw40 : wrap_int (size + 40) = size + 40 - 2 ^ 32).
    { unfold wrap_int, INT_MAX in *.
      assert ((size + 40 + 2 ^ 31) mod 2 ^ 32 = size + 40 + 2 ^ 31 - 2 ^ 32); [|lia].
      symmetry. apply Z.mod_unique with 1; lia. }
    rewrite Hw40.
    assert ((size + 40 - 2 ^ 32 <? 0) = true) as -> by (unfold INT_MAX in *; lia).
    assert ((size <=? INT_MAX - 40) = false) as -> by lia.
    rewrite bind_raise, andb_false_r. cbv beta iota zeta delta [final].
    rewrite app_nil_r. auto.
Qed.

(** C8: every buffer [sendImage] writes to the updates pipe is an image
    message of the wire format: the total length (payload length + 36),
    the tag 0, the sequence index, x, y, width, height, format, quality and
    the fullscreen flag (0 or 1), four bytes each and least significant
    byte first, then the payload.  The payload is what was read of the
    stream, which is the whole stream when [size] is its length.  Nothing
    else is written, and nothing at all when the pipe is not connected or
    a buffer cannot be allocated. *)
Theorem image_message_layout (bmp : Bitmap) (idx x y width height format quality : Z)
    (stream : list Z) (size : Z) (fullscreen : bool) (w : world) :
  size <= INT_MAX ->
  written (updatesPipe
             (final (sendImage bmp idx x y width height format quality
                               stream size fullscreen w)))
  = written (updatesPipe w)
    ++ (if image_sent w size
        then [le32 (Z.of_nat (length (stream_read stream size)) + 36)
              ++ le32 0 ++ le32 idx ++ le32 x ++ le32 y ++ le32 width ++ le32 height
              ++ le32 format ++ le32 quality ++ le32 (b2z fullscreen)
              ++ stream_read stream size]
        else [])
  /\ stream_read stream (Z.of_nat (length stream)) = stream
  /\ (forall v, le32 v = [v mod 256; (v / 256) mod 256; (v / 65536) mod 256;
                          (v / 16777216) mod 256]).
Proof.
  intros Hmax. split; [|split].
  - apply (sendImage_final bmp idx x y width height format quality stream size
                           fullscreen w Hmax).
  - unfold stream_read. rewrite Nat2Z.id, take_app_length. reflexivity.
  - reflexivity.
Qed.

Lemma image_message_layout_witness :
  3 <= INT_MAX
  /\ written (updatesPipe
                (final (sendImage (Sample.blank 1 1) 7 1 2 3 4 1 100 [80; 78; 71] 3
                                  false Sample.session)))
     = [[39; 0; 0; 0;  0; 0; 0; 0;  7; 0; 0; 0;  1; 0; 0; 0;  2; 0; 0; 0;
         3; 0; 0; 0;  4; 0; 0; 0;  1; 0; 0; 0;  100; 0; 0; 0;  0; 0; 0; 0;
         80; 78; 71]].
Proof.
  assert (Hmax : 3 <= INT_MAX) by (unfold INT_MAX; lia).
  split; [exact Hmax|].
  destruct (image_message_layout (Sample.blank 1 1) 7 1 2 3 4 1 100 [80; 78; 71] 3
                                 false Sample.session Hmax) as [E _].
  rewrite E. vm_compute. reflexivity.
Defined.

(* ===================================================================== *)
(** * The sequence index *)
(* ===================================================================== *)

Lemma bind_gets {A B} (f : world -> A) (k : A -> M B) w : bind (gets f) k w = k (f w) w.
Proof. reflexivity. Qed.
Lemma bind_get {B} (k : world -> M B) w : bind get k w = k w w.
Proof. reflexivity. Qed.
Lemma bind_modify {B} (f : world -> world) (k : unit -> M B) w :
  bind (modify f) k w = k tt (f w).
Proof. reflexivity. Qed.
Lemma bind_modify_myrtille {B} (f : wf_myrtille -> wf_myrtille) (k : unit -> M B) w :
  bind (modify_myrtille f) k w = k tt (with_myrtille (f (myrtille w)) w).
Proof. reflexivity. Qed.
Lemma bind_skip {B} (k : unit -> M B) w : bind skip k w = k tt w.
Proof. reflexivity. Qed.
Lemma bind_bind {A B C} (m : M A) (k : A -> M B) (k' : B -> M C) w :
  bind (bind m k) k' w = bind m (fun a => bind (k a) k') w.
Proof. unfold bind. destruct (m w); reflexivity. Qed.

Lemma wrap_int_small z : INT_MIN <= z <= INT_MAX -> wrap_int z = z.
Proof. unfold wrap_int, INT_MIN, INT_MAX. intros. rewrite Z.mod_small by lia. lia. Qed.

Lemma wrap_int_range z : INT_MIN <= wrap_int z <= INT_MAX.
Proof.
  unfold wrap_int, INT_MIN, INT_MAX.
  pose proof (Z.mod_pos_bound (z + 2 ^ 31) (2 ^ 32) ltac:(lia)). lia.
Qed.

Lemma reset_then_preincrement {B} (k : Z -> M B) (w : world) :
  0 <= imageIdx (myrtille w) <= INT_MAX ->
  bind reset_imageIdx (fun _ => bind preincrement_imageIdx k) w
  = k (next_idx (imageIdx (myrtille w)))
      (with_myrtille (set_imageIdx (next_idx (imageIdx (myrtille w))) (myrtille w)) w).
Proof.
  intros Hidx. unfold reset_imageIdx, preincrement_imageIdx, next_idx.
  rewrite bind_bind, bind_gets.
  destruct (imageIdx (myrtille w) =? INT_MAX) eqn:E.
  - rewrite bind_modify_myrtille, bind_bind, bind_gets, bind_bind, bind_modify_myrtille,
      bind_ret.
    cbn [myrtille with_myrtille imageIdx set_imageIdx].
    change (wrap_int (0 + 1)) with 1.
    destruct w as [? ? ? ? ? []]; reflexivity.
  - rewrite bind_skip, bind_bind, bind_gets, bind_bind, bind_modify_myrtille, bind_ret.
    apply Z.eqb_neq in E.
    rewrite wrap_int_small by (unfold INT_MIN, INT_MAX in *; lia).
    reflexivity.
Qed.

Section ProcessImage.
Context `{Platform}.

Lemma processImage_final (bmp : Bitmap) (left top right bottom : Z)
    (fullscreen adaptive : bool) (w : world) :
  0 <= imageIdx (myrtille w) <= INT_MAX ->
  let e := encode_image (myrtille w) bmp fullscreen adaptive in
  let w' := final (processImage bmp left top right bottom fullscreen adaptive w) in
  connected (updatesPipe w') = connected (updatesPipe w)
  /\ match selected_stream e with
     | Some stream =>
         written (updatesPipe w')
         = written (updatesPipe w)
           ++ (if image_sent w (wrap_int (enc_size e))
               then [image_message (next_idx (imageIdx (myrtille w))) left top
                       (wrap_int (right - left)) (wrap_int (bottom - top))
                       (enc_format e) (enc_quality e) fullscreen
                       (stream_read stream (wrap_int (enc_size e)))]
               else [])
         /\ imageIdx (myrtille w') = next_idx (imageIdx (myrtille w))
     | None =>
         written (updatesPipe w') = written (updatesPipe w)
         /\ imageIdx (myrtille w')
            = (if imageIdx (myrtille w) =? INT_MAX then 0 else imageIdx (myrtille w))
     end.
Proof.
  intros Hidx e w'. subst w'. unfold processImage.
  rewrite bind_gets. fold e. unfold selected_stream.
  destruct (enc_stream e) as [stream|] eqn:Es.
  - destruct (0 <? enc_size e) eqn:Epos.
    + rewrite reset_then_preincrement by assumption.
      match goal with |- context [final (sendImage ?b ?i ?x ?y ?wd ?ht ?f ?q ?s ?sz ?fs ?w0)] =>
        destruct (sendImage_final b i x y wd ht f q s sz fs w0) as (Hw & Hc & Hi)
      end.
      { apply wrap_int_range. }
      rewrite Hw, Hc, Hi. repeat split.
    + unfold reset_imageIdx. rewrite bind_bind, bind_gets.
      destruct (imageIdx (myrtille w) =? INT_MAX); repeat split.
  - unfold reset_imageIdx. rewrite bind_bind, bind_gets.
    destruct (imageIdx (myrtille w) =? INT_MAX); repeat split.
Qed.
End ProcessImage.

Lemma lor_shiftl_add (a b n : Z) :
  0 <= n -> 0 <= a < 2 ^ n -> Z.lor a (Z.shiftl b n) = a + b * 2 ^ n.
Proof.
  intros Hn Ha.
  assert (Hland : Z.land a (Z.shiftl b n) = 0).
  { apply Z.bits_inj'. intros i Hi.
    rewrite Z.land_spec, Z.bits_0.
    destruct (Z_lt_dec i n).
    - rewrite Z.shiftl_spec_low by lia. apply andb_false_r.
    - rewrite <- (Z.mod_small a (2 ^ n)) by lia.
      rewrite Z.mod_pow2_bits_high by lia. reflexivity. }
  rewrite <- Z.lxor_lor by assumption.
  rewrite <- Z.add_nocarry_lxor by assumption.
  now rewrite Z.shiftl_mul_pow2.
Qed.

Lemma bytesToInt32_le32 (v : Z) : bytesToInt32 (le32 v) = wrap_int v.
Proof.
  unfold bytesToInt32, le32, byte_at. cbn [lookup list_lookup default from_option id].
  assert (H0 := Z.mod_pos_bound v 256 ltac:(lia)).
  assert (H1 := Z.mod_pos_bound (v / 256) 256 ltac:(lia)).
  assert (H2 := Z.mod_pos_bound (v / 65536) 256 ltac:(lia)).
  assert (H3 := Z.mod_pos_bound (v / 16777216) 256 ltac:(lia)).
  rewrite (lor_shiftl_add (v mod 256)) by lia.
  rewrite (lor_shiftl_add (v mod 256 + _)) by lia.
  rewrite (lor_shiftl_add (v mod 256 + _ + _)) by lia.
  change (2 ^ 8) with 256. change (2 ^ 16) with 65536. change (2 ^ 24) with 16777216.
  assert (E : v mod 256 + (v / 256) mod 256 * 256 + (v / 65536) mod 256 * 65536
              + (v / 16777216) mod 256 * 16777216 = v mod 2 ^ 32).
  { change (2 ^ 32) with 4294967296. Z.to_euclidean_division_equations. lia. }
  rewrite E.
  destruct (wrap_int_congruent v) as [k Hk].
  unfold wrap_int in *.
  rewrite Zplus_mod_idemp_l. reflexivity.
Qed.

Lemma frame_idx_image_message idx x y width height format quality fullscreen payload :
  INT_MIN <= idx <= INT_MAX ->
  frame_idx (image_message idx x y width height format quality fullscreen payload) = idx.
Proof.
  intros Hidx. unfold frame_idx, image_message.
  change (take 4 (drop 8 (le32 (Z.of_nat (length payload) + 36) ++ le32 0 ++ le32 idx
            ++ le32 x ++ le32 y ++ le32 width ++ le32 height ++ le32 format
            ++ le32 quality ++ le32 (b2z fullscreen) ++ payload)))
    with (le32 idx).
  rewrite bytesToInt32_le32. now apply wrap_int_small.
Qed.

Lemma next_idx_range i : 0 <= i <= INT_MAX -> 1 <= next_idx i <= INT_MAX.
Proof.
  unfold next_idx. intros Hi. destruct (i =? INT_MAX) eqn:E.
  - unfold INT_MAX. lia.
  - apply Z.eqb_neq in E. lia.
Qed.

Lemma image_step_post_same w o :
  0 <= imageIdx (myrtille w) <= INT_MAX -> final o = w -> image_step_post w o.
Proof.
  intros Hi E. unfold image_step_post. rewrite E. split; [reflexivity|].
  split; [assumption|]. left. split; [reflexivity|]. reflexivity.
Qed.

Lemma image_step_post_ext w1 w o :
  imageIdx (myrtille w1) = imageIdx (myrtille w) ->
  updatesPipe w1 = updatesPipe w ->
  image_step_post w1 o -> image_step_post w o.
Proof.
  unfold image_step_post. intros Ei Ep. rewrite Ei, Ep. auto.
Qed.

Lemma sendImage_returns (bmp : Bitmap) (idx x y width height format quality : Z)
    (stream : list Z) (size : Z) (fullscreen : bool) (w : world) :
  size <= INT_MAX ->
  returns (sendImage bmp idx x y width height format quality stream size fullscreen w) = true ->
  (0 <=? size) && (size <=? INT_MAX - 40) = true.
Proof.
  intros Hmax. rewrite sendImage_unfold. unfold new_array.
  destruct (size <? 0) eqn:Hneg; [rewrite bind_raise; discriminate|].
  apply Z.ltb_ge in Hneg. rewrite bind_ret.
  destruct (Z_le_dec size (INT_MAX - 40)) as [Hfit|Hbig]; [intros _; lia|].
  assert (Hw40 : wrap_int (size + 40) = size + 40 - 2 ^ 32).
  { unfold wrap_int, INT_MAX in *.
    assert ((size + 40 + 2 ^ 31) mod 2 ^ 32 = size + 40 + 2 ^ 31 - 2 ^ 32); [|lia].
    symmetry. apply Z.mod_unique with 1; lia. }
  rewrite Hw40.
  assert ((size + 40 - 2 ^ 32 <? 0) = true) as -> by (unfold INT_MAX in *; lia).
  rewrite bind_raise. discriminate.
Qed.

Section Steps.
Context `{Platform}.

Lemma processImage_returns (bmp : Bitmap) (left top right bottom : Z)
    (fullscreen adaptive : bool) (w : world) :
  0 <= imageIdx (myrtille w) <= INT_MAX ->
  let e := encode_image (myrtille w) bmp fullscreen adaptive in
  returns (processImage bmp left top right bottom fullscreen adaptive w) = true ->
  selected_stream e <> None ->
  image_sent w (wrap_int (enc_size e)) = connected (updatesPipe w).
Proof.
  intros Hidx e. unfold processImage.
  rewrite bind_gets. fold e. unfold selected_stream.
  destruct (enc_stream e) as [stream|] eqn:Es; [|congruence].
  destruct (0 <? enc_size e) eqn:Epos; [|congruence].
  rewrite reset_then_preincrement by assumption.
  intros Hret _. apply sendImage_returns in Hret; [|apply wrap_int_range].
  unfold image_sent. rewrite <- andb_assoc, Hret. apply andb_true_r.
Qed.

Lemma image_step_processImage (bmp : Bitmap) (left top right bottom : Z)
    (fullscreen adaptive : bool) :
  image_step (processImage bmp left top right bottom fullscreen adaptive).
Proof.
  intros w Hidx.
  pose proof (processImage_final bmp left top right bottom fullscreen adaptive w Hidx)
    as [Hc Hsel].
  pose proof (processImage_returns bmp left top right bottom fullscreen adaptive w Hidx)
    as Hret.
  cbv zeta in Hsel, Hret.
  set (e := encode_image (myrtille w) bmp fullscreen adaptive) in *.
  set (o := processImage bmp left top right bottom fullscreen adaptive w) in *.
  unfold image_step_post. split; [exact Hc|].
  pose proof (next_idx_range _ Hidx) as Hn.
  destruct (selected_stream e) as [stream|] eqn:Esel.
  - destruct Hsel as [Hw Hi]. split; [rewrite Hi; lia|].
    destruct (image_sent w (wrap_int (enc_size e))) eqn:Esent.
    + right. eexists. split; [|split; [exact Hw|split; [|exact Hi]]].
      * unfold image_sent in Esent. apply andb_true_iff in Esent as [Esent _].
        now apply andb_true_iff in Esent as [Esent _].
      * apply frame_idx_image_message. unfold INT_MIN. lia.
    + left. rewrite app_nil_r in Hw. split; [exact Hw|].
      intros Hr Hconn. specialize (Hret Hr ltac:(discriminate)). congruence.
  - destruct Hsel as [Hw Hi]. split.
    + rewrite Hi. destruct (imageIdx (myrtille w) =? INT_MAX); unfold INT_MAX in *; lia.
    + left. split; [exact Hw|]. intros _ _. rewrite Hi. unfold next_idx.
      destruct (imageIdx (myrtille w) =? INT_MAX) eqn:E; [reflexivity|].
      now rewrite E.
Qed.

End Steps.

Lemma image_step_reset_only (w : world) :
  0 <= imageIdx (myrtille w) <= INT_MAX ->
  image_step_post w (bind reset_imageIdx (fun _ => skip) w).
Proof.
  intros Hidx. unfold reset_imageIdx. rewrite bind_bind, bind_gets.
  unfold image_step_post.
  destruct (imageIdx (myrtille w) =? INT_MAX) eqn:E.
  - rewrite bind_modify_myrtille. cbv beta. unfold skip, ret.
    cbn [final updatesPipe with_myrtille myrtille imageIdx set_imageIdx].
    split; [reflexivity|]. split; [unfold INT_MAX; lia|].
    left. split; [reflexivity|]. intros _ _. unfold next_idx. now rewrite E.
  - rewrite bind_skip. unfold skip, ret. cbn [final].
    split; [reflexivity|]. split; [assumption|]. left. auto.
Qed.

Lemma image_step_guarded_send (bmp : Bitmap) (x y width height format quality : Z)
    (stream : list Z) (size : Z) (fullscreen : bool) :
  image_step
    (reset_imageIdx;;
     if 0 <? size
     then idx ← preincrement_imageIdx;
          sendImage bmp idx x y width height format quality stream (wrap_int size) fullscreen
     else skip).
Proof.
  intros w Hidx.
  destruct (0 <? size); [|now apply image_step_reset_only].
  rewrite reset_then_preincrement by assumption.
  pose proof (next_idx_range _ Hidx) as Hn.
  match goal with |- image_step_post _ (sendImage ?b ?i ?x ?y ?wd ?ht ?f ?q ?s ?sz ?fs ?w0) =>
    pose proof (sendImage_final b i x y wd ht f q s sz fs w0 (proj2 (wrap_int_range _)))
      as (Hw & Hc & Hi);
    pose proof (sendImage_returns b i x y wd ht f q s sz fs w0 (proj2 (wrap_int_range _)))
      as Hret;
    set (o := sendImage b i x y wd ht f q s sz fs w0) in *
  end.
  cbv zeta in Hw, Hc, Hi.
  unfold image_sent in Hw.
  cbn [updatesPipe with_myrtille myrtille imageIdx set_imageIdx] in Hw, Hc, Hi.
  unfold image_step_post. split; [exact Hc|]. split; [rewrite Hi; lia|].
  destruct (connected (updatesPipe w)) eqn:Econn.
  - destruct ((0 <=? wrap_int size) && (wrap_int size <=? INT_MAX - 40)) eqn:Efit.
    + rewrite <- andb_assoc, Efit in Hw. right. eexists. split; [reflexivity|].
      split; [exact Hw|].
      split; [|exact Hi]. apply frame_idx_image_message. unfold INT_MIN. lia.
    + rewrite <- andb_assoc, Efit in Hw. cbn [andb] in Hw. rewrite app_nil_r in Hw.
      left. split; [exact Hw|]. intros Hr _. specialize (Hret Hr). congruence.
  - cbn [andb] in Hw. rewrite app_nil_r in Hw. left. split; [exact Hw|].
    intros _ Habs. discriminate.
Qed.

Lemma ips_regulator_imageIdx (m : wf_myrtille) (region : RECT.t) :
  imageIdx (fst (ips_regulator m region)) = imageIdx m.
Proof.
  unfold ips_regulator, count_region.
  repeat match goal with
         | |- context [if ?c then _ else _] => destruct c
         end; reflexivity.
Qed.

Lemma image_step_post_idiv (a b : Z) (k : Z -> M unit) (w : world) :
  0 <= imageIdx (myrtille w) <= INT_MAX ->
  (forall v, image_step_post w (k v w)) ->
  image_step_post w (bind (idiv a b) k w).
Proof.
  intros Hidx Hk. unfold idiv. destruct (b =? 0).
  - rewrite bind_raise. now apply image_step_post_same.
  - rewrite bind_ret. apply Hk.
Qed.

Section ProducerSteps.
Context `{Platform}.

Lemma image_step_extract_and_process (hdc : Bitmap) (region : RECT.t) :
  image_step (extract_and_process hdc region).
Proof.
  intros w Hidx. unfold extract_and_process. rewrite bind_get.
  destruct (negb (scaleDisplay (myrtille w)) || _).
  - now apply image_step_processImage.
  - repeat (apply image_step_post_idiv; [assumption|intros ?]).
    now apply image_step_processImage.
Qed.

Lemma image_step_send_region (region : RECT.t) :
  image_step (wf_myrtille_send_region region).
Proof.
  intros w Hidx. unfold wf_myrtille_send_region. rewrite bind_get.
  destruct (MyrtilleSessionId (settings w)); [|now apply image_step_post_same].
  destruct (primary w) as [hdc|]; [|now apply image_step_post_same].
  destruct (region_rejected (settings w) region); [now apply image_step_post_same|].
  pose proof (ips_regulator_imageIdx (myrtille w) region) as Hi.
  destruct (ips_regulator (myrtille w) region) as [m forwarded]. cbn [fst] in Hi.
  rewrite bind_modify.
  apply (image_step_post_ext (with_myrtille m w)); [exact Hi|reflexivity|].
  assert (Hidx' : 0 <= imageIdx (myrtille (with_myrtille m w)) <= INT_MAX)
    by (cbn [myrtille with_myrtille]; now rewrite Hi).
  destruct forwarded as [r|].
  - now apply image_step_extract_and_process.
  - now apply image_step_post_same.
Qed.

Lemma image_step_send_screen (adaptive : bool) :
  image_step (wf_myrtille_send_screen adaptive).
Proof.
  intros w Hidx. unfold wf_myrtille_send_screen. rewrite bind_get.
  destruct (MyrtilleSessionId (settings w)); [|now apply image_step_post_same].
  destruct (primary w) as [hdc|]; [|now apply image_step_post_same].
  now apply image_step_processImage.
Qed.

Lemma image_step_send_cursor : image_step wf_myrtille_send_cursor.
Proof.
  intros w Hidx. unfold wf_myrtille_send_cursor. rewrite bind_get.
  destruct (MyrtilleSessionId (settings w)); [|now apply image_step_post_same].
  destruct (primary w) as [hdc|]; [|now apply image_step_post_same].
  destruct (make_transparent (DrawIconEx (cursor w))) as [[bmp transparent] color].
  destruct (transparent && color); [|now apply image_step_post_same].
  destruct (GetIconInfo (cursor w)) as [xHotspot yHotspot].
  now apply image_step_guarded_send.
Qed.

End ProducerSteps.

Lemma image_step_produce `{Platform} (p : producer) : image_step (produce p).
Proof.
  destruct p; cbn [produce].
  - apply image_step_send_region.
  - apply image_step_send_screen.
  - apply image_step_send_cursor.
Qed.

Lemma new_frames_same (w w' : world) :
  written (updatesPipe w') = written (updatesPipe w) -> new_frames w w' = [].
Proof. unfold new_frames. intros ->. apply drop_all. Qed.

Lemma new_frames_one (w w' : world) (frame : list Z) :
  written (updatesPipe w') = written (updatesPipe w) ++ [frame] ->
  new_frames w w' = [frame].
Proof. unfold new_frames. intros ->. apply drop_app_length. Qed.

(** The frames of a run follow one another from the index the state
    announces, and a run on a pipe the peer left writes nothing. *)
Lemma image_run_consecutive `{Platform} (w : world) (frames : list (list Z)) (w' : world) :
  image_run w frames w' ->
  0 <= imageIdx (myrtille w) <= INT_MAX ->
  (connected (updatesPipe w) = false -> frames = [])
  /\ consecutive (next_idx (imageIdx (myrtille w))) (frame_idx <$> frames).
Proof.
  induction 1 as [w|p w w1 frames w2 Hcall Hrun IH|p w f w1 Hcall|w w1 frames w2 Hbetween Hrun IH];
    intros Hidx.
  - split; [reflexivity|exact I].
  - pose proof (image_step_produce p w Hidx) as Hstep.
    rewrite Hcall in Hstep. unfold image_step_post in Hstep. cbn [final returns] in Hstep.
    destruct Hstep as (Hconn & Hidx1 & Hcases).
    destruct (IH Hidx1) as [IHnone IHchain].
    destruct Hcases as [[Hsame Hnext]|(frame & Hc & Hw & Hf & Hi)].
    + rewrite (new_frames_same _ _ Hsame). cbn [app].
      split; [intros Hoff; apply IHnone; congruence|].
      destruct (connected (updatesPipe w)) eqn:Hc.
      * rewrite <- Hnext by reflexivity. exact IHchain.
      * rewrite IHnone by congruence. exact I.
    + rewrite (new_frames_one _ _ _ Hw). split; [congruence|].
      cbn [app fmap list_fmap consecutive]. split; [exact Hf|].
      split; [rewrite Hf; now apply next_idx_range|].
      rewrite Hf, <- Hi. exact IHchain.
  - pose proof (image_step_produce p w Hidx) as Hstep.
    rewrite Hcall in Hstep. unfold image_step_post in Hstep. cbn [final returns] in Hstep.
    destruct Hstep as (Hconn & Hidx1 & [[Hsame Hnext]|(frame & Hc & Hw & Hf & Hi)]).
    + rewrite (new_frames_same _ _ Hsame). split; [reflexivity|exact I].
    + rewrite (new_frames_one _ _ _ Hw). split; [congruence|].
      cbn [fmap list_fmap consecutive]. split; [exact Hf|].
      split; [rewrite Hf; now apply next_idx_range|exact I].
  - destruct Hbetween as [Hi Hoff]. rewrite <- Hi in Hidx.
    destruct (IH Hidx) as [IHnone IHchain].
    split; [intros Hc; apply IHnone; now apply Hoff|].
    rewrite <- Hi. exact IHchain.
Qed.

(** C5 (as amended): along any run of the three producers (region,
    fullscreen, cursor), whatever happens in between, the sequence indices
    of the image messages written follow one another: the first is the
    successor of the stored index, each next one is the successor of the one
    before, where the successor of [i] is [i + 1] and the successor of
    [INT_MAX] is 1 (the counter is reset to 0 and incremented before use).
    Every index is in [1, INT_MAX]: never negative, and never 0. *)
Theorem sequence_index_consecutive `{Platform} (w : world) (frames : list (list Z))
    (w' : world) :
  image_run w frames w' ->
  0 <= imageIdx (myrtille w) <= INT_MAX ->
  consecutive (next_idx (imageIdx (myrtille w))) (frame_idx <$> frames)
  /\ Forall (fun i => 1 <= i <= INT_MAX) (frame_idx <$> frames)
  /\ next_idx INT_MAX = 1
  /\ (forall i, i <> INT_MAX -> next_idx i = i + 1).
Proof.
  intros Hrun Hidx.
  pose proof (proj2 (image_run_consecutive w frames w' Hrun Hidx)) as Hchain.
  split; [exact Hchain|]. split; [|split].
  - clear Hrun. revert Hchain. generalize (next_idx (imageIdx (myrtille w))).
    induction (frame_idx <$> frames) as [|i rest IH]; intros expected Hc.
    + constructor.
    + destruct Hc as (_ & Hrange & Hrest). constructor; [exact Hrange|].
      now apply (IH (next_idx i)).
  - reflexivity.
  - intros i Hi. unfold next_idx. apply Z.eqb_neq in Hi. now rewrite Hi.
Qed.

Lemma outcome_Ok (o : outcome unit) : returns o = true -> o = Ok tt (final o).
Proof. destruct o as [[] w|f w]; [reflexivity|discriminate]. Qed.

Lemma sequence_index_consecutive_witness :
  let w0 := Sample.session in
  let w1 := final (produce (Region (RECT.mk 0 0 3 5)) w0) in
  let w2 := final (produce Cursor w1) in
  let frames := new_frames w0 w1 ++ (new_frames w1 w2 ++ []) in
  image_run w0 frames w2
  /\ 0 <= imageIdx (myrtille w0) <= INT_MAX
  /\ frame_idx <$> frames = [1; 2]
  /\ consecutive (next_idx (imageIdx (myrtille w0))) (frame_idx <$> frames).
Proof.
  intros w0 w1 w2 frames.
  assert (Hrun : image_run w0 frames w2).
  { apply (image_run_call (Region (RECT.mk 0 0 3 5)) w0 w1).
    { apply outcome_Ok. vm_compute. reflexivity. }
    apply (image_run_call Cursor w1 w2).
    { apply outcome_Ok. vm_compute. reflexivity. }
    apply image_run_done. }
  assert (Hidx : 0 <= imageIdx (myrtille w0) <= INT_MAX) by (vm_compute; split; discriminate).
  split; [exact Hrun|]. split; [exact Hidx|].
  split; [vm_compute; reflexivity|].
  exact (proj1 (sequence_index_consecutive w0 frames w2 Hrun Hidx)).
Defined.

(** C5, the claim as stated fails at the wrap: from the stored index
    [INT_MAX - 1], two region updates carry [INT_MAX] and then 1; the
    second index is neither one greater than the first nor 0. *)
Lemma sequence_index_counterexample :
  let w0 := with_myrtille (set_imageIdx (INT_MAX - 1) (myrtille Sample.session))
                          Sample.session in
  let w1 := final (wf_myrtille_send_region (RECT.mk 0 0 3 5) w0) in
  let w2 := final (wf_myrtille_send_region (RECT.mk 0 0 3 5) w1) in
  frame_idx <$> written (updatesPipe w2) = [INT_MAX; 1]
  /\ 1 <> INT_MAX + 1
  /\ 1 <> 0.
Proof. vm_compute. repeat split; discriminate. Qed.

(* ===================================================================== *)
(** * The adaptive encoding pipeline *)
(* ===================================================================== *)

Lemma stream_size_nonneg (stream : list Z) : 0 <= stream_size stream.
Proof. unfold stream_size, wrap_uint. apply Z.mod_pos_bound. lia. Qed.

Section Encoding.
Context `{Platform}.

(** What [processImage] writes. *)
Lemma processImage_frames (bmp : Bitmap) (left top right bottom : Z)
    (fullscreen adaptive : bool) (w : world) :
  0 <= imageIdx (myrtille w) <= INT_MAX ->
  let e := encode_image (myrtille w) bmp fullscreen adaptive in
  new_frames w (final (processImage bmp left top right bottom fullscreen adaptive w))
  = match selected_stream e with
    | Some stream =>
        if image_sent w (wrap_int (enc_size e))
        then [image_message (next_idx (imageIdx (myrtille w))) left top
                (wrap_int (right - left)) (wrap_int (bottom - top))
                (enc_format e) (enc_quality e) fullscreen
                (stream_read stream (wrap_int (enc_size e)))]
        else []
    | None => []
    end.
Proof.
  intros Hidx e.
  destruct (processImage_final bmp left top right bottom fullscreen adaptive w Hidx)
    as [_ Hsel].
  cbv zeta in Hsel. fold e in Hsel.
  destruct (selected_stream e) as [stream|].
  - destruct Hsel as [Hw _].
    destruct (image_sent w (wrap_int (enc_size e))).
    + now apply new_frames_one.
    + rewrite app_nil_r in Hw. now apply new_frames_same.
  - destruct Hsel as [Hw _]. now apply new_frames_same.
Qed.

(** The encoding step in AUTO mode. *)
Lemma encode_image_auto (m : wf_myrtille) (bmp : Bitmap) (fullscreen adaptive : bool) :
  imageEncoding m = IMAGE_ENCODING.AUTO ->
  let png := Save_png bmp in
  let jpg := Save_jpeg bmp (initial_quality m fullscreen adaptive) in
  encode_image m bmp fullscreen adaptive
  = if stream_size png <=? stream_size jpg
    then {| enc_stream := Some png; enc_format := IMAGE_FORMAT.PNG;
            enc_quality := IMAGE_QUALITY.HIGHEST; enc_size := stream_size png |}
    else {| enc_stream := Some jpg; enc_format := IMAGE_FORMAT.JPEG;
            enc_quality := initial_quality m fullscreen adaptive;
            enc_size := stream_size jpg |}.
Proof.
  intros Hauto png jpg. unfold encode_image. rewrite Hauto.
  change (IMAGE_ENCODING.AUTO =? IMAGE_ENCODING.PNG) with false.
  change (IMAGE_ENCODING.AUTO =? IMAGE_ENCODING.JPEG) with false.
  change (IMAGE_ENCODING.AUTO =? IMAGE_ENCODING.AUTO) with true.
  cbn [orb andb]. reflexivity.
Qed.

(** The encoding step in the fixed modes. *)
Lemma encode_image_png (m : wf_myrtille) (bmp : Bitmap) (fullscreen adaptive : bool) :
  imageEncoding m = IMAGE_ENCODING.PNG ->
  encode_image m bmp fullscreen adaptive
  = {| enc_stream := Some (Save_png bmp); enc_format := IMAGE_FORMAT.PNG;
       enc_quality := IMAGE_QUALITY.HIGHEST; enc_size := stream_size (Save_png bmp) |}.
Proof. intros E. unfold encode_image. rewrite E. reflexivity. Qed.

Lemma encode_image_jpeg (m : wf_myrtille) (bmp : Bitmap) (fullscreen adaptive : bool) :
  imageEncoding m = IMAGE_ENCODING.JPEG ->
  let quality := initial_quality m fullscreen adaptive in
  encode_image m bmp fullscreen adaptive
  = {| enc_stream := Some (Save_jpeg bmp quality); enc_format := IMAGE_FORMAT.JPEG;
       enc_quality := quality; enc_size := stream_size (Save_jpeg bmp quality) |}.
Proof. intros E. unfold encode_image. rewrite E. reflexivity. Qed.

Lemma encode_image_webp (m : wf_myrtille) (bmp : Bitmap) (fullscreen adaptive : bool) :
  imageEncoding m = IMAGE_ENCODING.WEBP ->
  let quality := initial_quality m fullscreen adaptive in
  encode_image m bmp fullscreen adaptive
  = {| enc_stream := Some (WebPEncode bmp quality); enc_format := IMAGE_FORMAT.WEBP;
       enc_quality := quality; enc_size := stream_size (WebPEncode bmp quality) |}.
Proof. intros E. unfold encode_image. rewrite E. reflexivity. Qed.

Lemma encode_image_unsupported (m : wf_myrtille) (bmp : Bitmap) (fullscreen adaptive : bool) :
  imageEncoding m < 0 \/ 3 < imageEncoding m ->
  enc_stream (encode_image m bmp fullscreen adaptive) = None.
Proof.
  intros E. unfold encode_image, IMAGE_ENCODING.PNG, IMAGE_ENCODING.JPEG,
    IMAGE_ENCODING.AUTO, IMAGE_ENCODING.WEBP.
  assert ((imageEncoding m =? 1) = false) as -> by lia.
  assert ((imageEncoding m =? 2) = false) as -> by lia.
  assert ((imageEncoding m =? 0) = false) as -> by lia.
  assert ((imageEncoding m =? 3) = false) as -> by lia.
  reflexivity.
Qed.

(** In PNG mode [processImage] does not depend on the adaptive flag. *)
Lemma processImage_png_adaptive (bmp : Bitmap) (left top right bottom : Z)
    (fullscreen adaptive : bool) (w : world) :
  imageEncoding (myrtille w) = IMAGE_ENCODING.PNG ->
  processImage bmp left top right bottom fullscreen adaptive w
  = processImage bmp left top right bottom fullscreen false w.
Proof.
  intros Hpng. unfold processImage. rewrite !bind_gets.
  now rewrite !encode_image_png by assumption.
Qed.

End Encoding.

(** C3: in AUTO mode [processImage] produces both a PNG and a JPEG
    candidate and selects the one whose stream is smaller, the PNG one when
    the sizes are equal.  When the PNG candidate is selected, the image
    message written carries the quality 100 (and the format PNG) whatever
    the client-set quality; when the JPEG one is selected, the message
    carries the format JPEG. *)
Theorem auto_selects_smaller `{Platform} (w : world) (bmp : Bitmap)
    (left top right bottom : Z) (fullscreen adaptive : bool) :
  imageEncoding (myrtille w) = IMAGE_ENCODING.AUTO ->
  0 <= imageIdx (myrtille w) <= INT_MAX ->
  let png := Save_png bmp in
  let quality := initial_quality (myrtille w) fullscreen adaptive in
  let jpg := Save_jpeg bmp quality in
  let e := encode_image (myrtille w) bmp fullscreen adaptive in
  let frames :=
    new_frames w (final (processImage bmp left top right bottom fullscreen adaptive w)) in
  let message format quality size payload :=
    if (0 <? size) && image_sent w (wrap_int size)
    then [image_message (next_idx (imageIdx (myrtille w))) left top
            (wrap_int (right - left)) (wrap_int (bottom - top))
            format quality fullscreen (stream_read payload (wrap_int size))]
    else [] in
  (stream_size png <= stream_size jpg ->
   enc_stream e = Some png /\ enc_size e = stream_size png
   /\ frames = message IMAGE_FORMAT.PNG 100 (stream_size png) png)
  /\ (stream_size jpg < stream_size png ->
      enc_stream e = Some jpg /\ enc_size e = stream_size jpg
      /\ frames = message IMAGE_FORMAT.JPEG quality (stream_size jpg) jpg).
Proof.
  intros Hauto Hidx png quality jpg e frames message.
  pose proof (processImage_frames bmp left top right bottom fullscreen adaptive w Hidx)
    as Hframes.
  cbv zeta in Hframes. fold e in Hframes. fold frames in Hframes.
  pose proof (encode_image_auto (myrtille w) bmp fullscreen adaptive Hauto) as He.
  cbv zeta in He. fold e png quality jpg in He.
  split; intros Hcmp.
  - assert (Hle : (stream_size png <=? stream_size jpg) = true) by lia.
    rewrite Hle in He. rewrite He in *. cbn [enc_stream enc_size].
    split; [reflexivity|]. split; [reflexivity|].
    rewrite Hframes. unfold selected_stream, message.
    cbn [enc_stream enc_size enc_format enc_quality].
    destruct (0 <? stream_size png); reflexivity.
  - assert (Hle : (stream_size png <=? stream_size jpg) = false) by lia.
    rewrite Hle in He. rewrite He in *. cbn [enc_stream enc_size].
    split; [reflexivity|]. split; [reflexivity|].
    rewrite Hframes. unfold selected_stream, message.
    cbn [enc_stream enc_size enc_format enc_quality].
    destruct (0 <? stream_size jpg); reflexivity.
Qed.

Lemma auto_selects_smaller_witness :
  let w := Sample.session_with IMAGE_ENCODING.AUTO 10 100 in
  imageEncoding (myrtille w) = IMAGE_ENCODING.AUTO
  /\ 0 <= imageIdx (myrtille w) <= INT_MAX
  /\ enc_stream (encode_image (myrtille w) (Sample.blank 3 5) false false)
     = Some (Save_png (Sample.blank 3 5))
  /\ frame_quality
       <$> new_frames w (final (processImage (Sample.blank 3 5) 0 0 3 5 false false w))
     = [100].
Proof.
  intros w.
  assert (Hauto : imageEncoding (myrtille w) = IMAGE_ENCODING.AUTO) by reflexivity.
  assert (Hidx : 0 <= imageIdx (myrtille w) <= INT_MAX) by (vm_compute; split; discriminate).
  assert (Hcmp : stream_size (Save_png (Sample.blank 3 5))
                 <= stream_size (Save_jpeg (Sample.blank 3 5)
                                           (initial_quality (myrtille w) false false)))
    by (vm_compute; discriminate).
  destruct (proj1 (auto_selects_smaller w (Sample.blank 3 5) 0 0 3 5 false false Hauto Hidx)
                  Hcmp) as (Hs & _ & Hf).
  split; [exact Hauto|]. split; [exact Hidx|]. split; [exact Hs|].
  rewrite Hf. vm_compute. reflexivity.
Defined.

(** What AUTO mode does with an empty candidate, in general: the candidate
    of smaller size is the one selected even when that size is zero.  So the
    stream that goes on to be sent is not empty exactly when both candidates
    are not empty; an update is written only in that case, and none is
    written as soon as either candidate is empty. *)
Lemma auto_update_needs_both_candidates `{Platform} (w : world) (bmp : Bitmap)
    (left top right bottom : Z) (fullscreen adaptive : bool) :
  imageEncoding (myrtille w) = IMAGE_ENCODING.AUTO ->
  0 <= imageIdx (myrtille w) <= INT_MAX ->
  let png := Save_png bmp in
  let jpg := Save_jpeg bmp (initial_quality (myrtille w) fullscreen adaptive) in
  let e := encode_image (myrtille w) bmp fullscreen adaptive in
  let frames :=
    new_frames w (final (processImage bmp left top right bottom fullscreen adaptive w)) in
  enc_size e = Z.min (stream_size png) (stream_size jpg)
  /\ (selected_stream e <> None <-> 0 < stream_size png /\ 0 < stream_size jpg)
  /\ (frames <> [] -> 0 < stream_size png /\ 0 < stream_size jpg)
  /\ (stream_size png = 0 \/ stream_size jpg = 0 -> frames = []).
Proof.
  intros Hauto Hidx png jpg e frames.
  pose proof (processImage_frames bmp left top right bottom fullscreen adaptive w Hidx)
    as Hframes.
  cbv zeta in Hframes. fold e in Hframes. fold frames in Hframes.
  pose proof (encode_image_auto (myrtille w) bmp fullscreen adaptive Hauto) as He.
  cbv zeta in He. fold e png jpg in He.
  pose proof (stream_size_nonneg png) as Hpng.
  pose proof (stream_size_nonneg jpg) as Hjpg.
  assert (Hsize : enc_size e = Z.min (stream_size png) (stream_size jpg)).
  { rewrite He. destruct (stream_size png <=? stream_size jpg) eqn:Hle;
      cbn [enc_size]; lia. }
  assert (Hsel : selected_stream e <> None <-> 0 < stream_size png /\ 0 < stream_size jpg).
  { unfold selected_stream. rewrite Hsize.
    assert (Hs : enc_stream e <> None)
      by (rewrite He; destruct (stream_size png <=? stream_size jpg); discriminate).
    destruct (enc_stream e) as [stream|]; [|contradiction].
    destruct (0 <? Z.min (stream_size png) (stream_size jpg)) eqn:Hpos.
    - split; [lia|discriminate].
    - split; [contradiction|lia]. }
  split; [exact Hsize|]. split; [exact Hsel|]. split.
  - intros Hne. apply Hsel. intros Hnone. apply Hne. rewrite Hframes, Hnone. reflexivity.
  - intros Hempty. rewrite Hframes.
    destruct (selected_stream e) as [stream|] eqn:Es; [|reflexivity].
    assert (Hboth : 0 < stream_size png /\ 0 < stream_size jpg)
      by (apply Hsel; discriminate).
    lia.
Qed.

Lemma auto_update_needs_both_candidates_witness :
  let w := Sample.session_with IMAGE_ENCODING.AUTO 10 100 in
  imageEncoding (myrtille w) = IMAGE_ENCODING.AUTO
  /\ 0 <= imageIdx (myrtille w) <= INT_MAX
  /\ enc_size (encode_image (myrtille w) (Sample.blank 3 5) false false)
     = Z.min (stream_size (Save_png (Sample.blank 3 5)))
             (stream_size (Save_jpeg (Sample.blank 3 5)
                                     (initial_quality (myrtille w) false false))).
Proof.
  intros w.
  assert (Hauto : imageEncoding (myrtille w) = IMAGE_ENCODING.AUTO) by reflexivity.
  assert (Hidx : 0 <= imageIdx (myrtille w) <= INT_MAX) by (vm_compute; split; discriminate).
  split; [exact Hauto|]. split; [exact Hidx|].
  exact (proj1 (auto_update_needs_both_candidates w (Sample.blank 3 5) 0 0 3 5 false false
                                                  Hauto Hidx)).
Defined.

(** C4: the code at an image whose PNG encoding fails (an empty stream) and
    whose JPEG encoding succeeds with five bytes.  AUTO mode selects the
    empty PNG stream, since 0 <= 5, and then writes no update because the
    selected size is 0: the failed candidate wins over the one that
    succeeded, and the update is omitted although not every candidate
    failed. *)
Theorem auto_empty_candidate_selected :
  let w := Sample.session_with IMAGE_ENCODING.AUTO 10 100 in
  let bmp := Sample.blank 0 5 in
  let e := encode_image (myrtille w) bmp false false in
  Save_png bmp = []
  /\ Save_jpeg bmp (initial_quality (myrtille w) false false) = [74; 74; 74; 74; 74]
  /\ enc_stream e = Some []
  /\ enc_format e = IMAGE_FORMAT.PNG
  /\ processImage bmp 0 0 0 5 false false w = Ok tt w
  /\ written (updatesPipe (final (processImage bmp 0 0 0 5 false false w))) = [].
Proof. vm_compute. repeat split; reflexivity. Qed.

(** C6 (as amended): in the encoding modes AUTO, JPEG and WEBP, a
    fullscreen update requested with the adaptive flag is encoded at the
    fixed quality HIGHER (75) whatever the client-set quality, and any other
    update at the client-set quality: that quality is the one the JPEG or
    WebP encoder is run at and the one the image message carries (in AUTO
    mode the JPEG candidate is encoded at it, and the message carries it
    unless the PNG candidate is selected).  The adaptive quality is the
    strictly higher one exactly when the client-set quality is below 75.
    In PNG mode the flag changes nothing: the quality is 100 and
    [processImage] does the same with and without it. *)
Theorem adaptive_quality_tier `{Platform} (w : world) (bmp : Bitmap)
    (left top right bottom : Z) (fullscreen adaptive : bool) :
  imageEncoding (myrtille w) <> IMAGE_ENCODING.PNG ->
  let m := myrtille w in
  let tier := if fullscreen && adaptive then IMAGE_QUALITY.HIGHER else imageQuality m in
  let png := Save_png bmp in
  let jpg := Save_jpeg bmp tier in
  let webp := WebPEncode bmp tier in
  let e := encode_image m bmp fullscreen adaptive in
  let frames :=
    new_frames w (final (processImage bmp left top right bottom fullscreen adaptive w)) in
  let message format quality payload :=
    if (0 <? stream_size payload) && image_sent w (wrap_int (stream_size payload))
    then [image_message (next_idx (imageIdx m)) left top
            (wrap_int (right - left)) (wrap_int (bottom - top))
            format quality fullscreen (stream_read payload (wrap_int (stream_size payload)))]
    else [] in
  let png_mode := with_myrtille (set_imageEncoding IMAGE_ENCODING.PNG m) w in
  initial_quality m true true = IMAGE_QUALITY.HIGHER
  /\ initial_quality m fullscreen false = imageQuality m
  /\ initial_quality m false true = imageQuality m
  /\ (initial_quality m true false < initial_quality m true true <-> imageQuality m < 75)
  /\ (forall a,
        initial_quality (set_imageEncoding IMAGE_ENCODING.PNG m) fullscreen a = 100
        /\ encode_image (set_imageEncoding IMAGE_ENCODING.PNG m) bmp fullscreen a
           = encode_image (set_imageEncoding IMAGE_ENCODING.PNG m) bmp fullscreen false
        /\ processImage bmp left top right bottom fullscreen a png_mode
           = processImage bmp left top right bottom fullscreen false png_mode)
  /\ (imageEncoding m = IMAGE_ENCODING.JPEG ->
      e = {| enc_stream := Some jpg; enc_format := IMAGE_FORMAT.JPEG;
             enc_quality := tier; enc_size := stream_size jpg |})
  /\ (imageEncoding m = IMAGE_ENCODING.WEBP ->
      e = {| enc_stream := Some webp; enc_format := IMAGE_FORMAT.WEBP;
             enc_quality := tier; enc_size := stream_size webp |})
  /\ (imageEncoding m = IMAGE_ENCODING.AUTO ->
      e = if stream_size png <=? stream_size jpg
          then {| enc_stream := Some png; enc_format := IMAGE_FORMAT.PNG;
                  enc_quality := IMAGE_QUALITY.HIGHEST; enc_size := stream_size png |}
          else {| enc_stream := Some jpg; enc_format := IMAGE_FORMAT.JPEG;
                  enc_quality := tier; enc_size := stream_size jpg |})
  /\ (0 <= imageIdx m <= INT_MAX ->
      (imageEncoding m = IMAGE_ENCODING.JPEG ->
       frames = message IMAGE_FORMAT.JPEG tier jpg)
      /\ (imageEncoding m = IMAGE_ENCODING.WEBP ->
          frames = message IMAGE_FORMAT.WEBP tier webp)
      /\ (imageEncoding m = IMAGE_ENCODING.AUTO ->
          frames = if stream_size png <=? stream_size jpg
                   then message IMAGE_FORMAT.PNG 100 png
                   else message IMAGE_FORMAT.JPEG tier jpg)).
Proof.
  intros Hmode m tier png jpg webp e frames message png_mode.
  assert (Hne : (imageEncoding m =? IMAGE_ENCODING.PNG) = false) by (now apply Z.eqb_neq).
  assert (Htier : initial_quality m fullscreen adaptive = tier).
  { unfold initial_quality. now rewrite Hne. }
  assert (Hjpeg : imageEncoding m = IMAGE_ENCODING.JPEG ->
                  e = {| enc_stream := Some jpg; enc_format := IMAGE_FORMAT.JPEG;
                         enc_quality := tier; enc_size := stream_size jpg |}).
  { intros E. subst e. rewrite encode_image_jpeg by assumption. cbv zeta.
    now rewrite Htier. }
  assert (Hwebp : imageEncoding m = IMAGE_ENCODING.WEBP ->
                  e = {| enc_stream := Some webp; enc_format := IMAGE_FORMAT.WEBP;
                         enc_quality := tier; enc_size := stream_size webp |}).
  { intros E. subst e. rewrite encode_image_webp by assumption. cbv zeta.
    now rewrite Htier. }
  assert (Hauto : imageEncoding m = IMAGE_ENCODING.AUTO ->
                  e = if stream_size png <=? stream_size jpg
                      then {| enc_stream := Some png; enc_format := IMAGE_FORMAT.PNG;
                              enc_quality := IMAGE_QUALITY.HIGHEST;
                              enc_size := stream_size png |}
                      else {| enc_stream := Some jpg; enc_format := IMAGE_FORMAT.JPEG;
                              enc_quality := tier; enc_size := stream_size jpg |}).
  { intros E. subst e. rewrite encode_image_auto by assumption. cbv zeta.
    now rewrite Htier. }
  split; [unfold initial_quality; now rewrite Hne|].
  split; [unfold initial_quality; rewrite Hne; cbn [andb]; now rewrite andb_false_r|].
  split; [unfold initial_quality; now rewrite Hne|].
  split; [unfold initial_quality; rewrite Hne; cbn [andb];
          unfold IMAGE_QUALITY.HIGHER; lia|].
  split.
  { intros a. split; [reflexivity|]. split.
    - rewrite !encode_image_png by reflexivity. reflexivity.
    - now apply processImage_png_adaptive. }
  split; [exact Hjpeg|]. split; [exact Hwebp|]. split; [exact Hauto|].
  intros Hidx. subst frames.
  rewrite processImage_frames by assumption. cbv zeta. fold m. fold e.
  unfold selected_stream. subst message. cbv beta.
  split; [|split]; intros E.
  - rewrite (Hjpeg E). cbn [enc_stream enc_size enc_format enc_quality].
    now destruct (0 <? stream_size jpg).
  - rewrite (Hwebp E). cbn [enc_stream enc_size enc_format enc_quality].
    now destruct (0 <? stream_size webp).
  - rewrite (Hauto E). destruct (stream_size png <=? stream_size jpg);
      cbn [enc_stream enc_size enc_format enc_quality].
    + now destruct (0 <? stream_size png).
    + now destruct (0 <? stream_size jpg).
Qed.

Lemma adaptive_quality_tier_witness :
  let w := Sample.session_with IMAGE_ENCODING.JPEG 10 100 in
  let bmp := Sample.blank 3 5 in
  imageEncoding (myrtille w) <> IMAGE_ENCODING.PNG
  /\ initial_quality (myrtille w) true true = 75
  /\ initial_quality (myrtille w) true false = 10
  /\ encode_image (myrtille w) bmp true true
     = {| enc_stream := Some (Save_jpeg bmp 75); enc_format := IMAGE_FORMAT.JPEG;
          enc_quality := 75; enc_size := 5 |}
  /\ new_frames w (final (processImage bmp 0 0 3 5 true true w))
     = [image_message 1 0 0 3 5 IMAGE_FORMAT.JPEG 75 true [74; 74; 74; 74; 74]]
  /\ new_frames w (final (processImage bmp 0 0 3 5 true false w))
     = [image_message 1 0 0 3 5 IMAGE_FORMAT.JPEG 10 true [74; 74; 74; 74; 74]].
Proof.
  intros w bmp.
  assert (Hmode : imageEncoding (myrtille w) <> IMAGE_ENCODING.PNG)
    by (vm_compute; discriminate).
  assert (Hjpeg : imageEncoding (myrtille w) = IMAGE_ENCODING.JPEG) by reflexivity.
  assert (Hidx : 0 <= imageIdx (myrtille w) <= INT_MAX) by (vm_compute; split; discriminate).
  split; [exact Hmode|].
  destruct (adaptive_quality_tier w bmp 0 0 3 5 true true Hmode)
    as (Ha & Hn & _ & _ & _ & He & _ & _ & Hf).
  destruct (adaptive_quality_tier w bmp 0 0 3 5 true false Hmode)
    as (_ & _ & _ & _ & _ & _ & _ & _ & Hf').
  split; [exact Ha|]. split; [rewrite Hn; reflexivity|].
  split; [rewrite (He Hjpeg); reflexivity|].
  split.
  - rewrite (proj1 (Hf Hidx) Hjpeg). vm_compute. reflexivity.
  - rewrite (proj1 (Hf' Hidx) Hjpeg). vm_compute. reflexivity.
Defined.

(** C6, the claim as stated fails: with the client-set quality 100 in JPEG
    mode, the adaptive fullscreen update is encoded at 75 and the
    non-adaptive one at 100. *)
Lemma adaptive_quality_not_higher :
  let m := myrtille (Sample.session_with IMAGE_ENCODING.JPEG 100 100) in
  initial_quality m true true = 75
  /\ initial_quality m true false = 100
  /\ enc_quality (encode_image m (Sample.blank 3 5) true true) = 75
  /\ enc_quality (encode_image m (Sample.blank 3 5) true false) = 100
  /\ ~ (initial_quality m true false < initial_quality m true true).
Proof. vm_compute. repeat split; try reflexivity. discriminate. Qed.

(* ===================================================================== *)
(** * Aspect-locked resize *)
(* ===================================================================== *)

Lemma find_lt (s : string) (c : ascii) (i : nat) :
  Str.find s c = Some i -> (i < String.length s)%nat.
Proof.
  revert i. induction s as [|a s IH]; intros i; cbn [Str.find String.length].
  - discriminate.
  - destruct (Ascii.eqb a c).
    + intros [= <-]. lia.
    + destruct (Str.find s c) as [j|]; cbn [fmap option_fmap option_map]; [|discriminate].
      intros [= <-]. specialize (IH j eq_refl). lia.
Qed.

(** [processResizeDisplay] on a resolution that reads as [width] x
    [height]. *)
Lemma processResizeDisplay_parsed `{Platform} (w : world) (keepAspectRatio : bool)
    (resolution : string) (separatorIdx : nat) (width height : Z) :
  Str.find resolution "x" = Some separatorIdx ->
  Str.stoi (String.substring 0 separatorIdx resolution) = inr width ->
  Str.stoi (String.substring (separatorIdx + 1)
                             (Str.len resolution - separatorIdx - 1) resolution)
  = inr height ->
  processResizeDisplay keepAspectRatio resolution w
  = let '(cw, ch) :=
      if keepAspectRatio
      then keep_aspect_ratio (aspectRatio (myrtille w)) width height
      else (width, height) in
    Ok tt (with_myrtille (set_clientHeight ch (set_clientWidth cw (myrtille w))) w).
Proof.
  intros Hfind Hw Hh. unfold processResizeDisplay. rewrite Hfind.
  pose proof (find_lt _ _ _ Hfind) as Hlt.
  unfold Str.substr, Str.len.
  assert ((String.length resolution <? 0)%nat = false) as -> by (apply Nat.ltb_ge; lia).
  assert ((String.length resolution <? separatorIdx + 1)%nat = false) as ->
    by (apply Nat.ltb_ge; lia).
  unfold throwing at 1. rewrite bind_ret. rewrite Hw.
  unfold throwing at 1. rewrite bind_ret.
  unfold throwing at 1. rewrite bind_ret.
  unfold Str.len in Hh. rewrite Hh.
  unfold throwing. rewrite bind_ret, bind_gets.
  destruct (if keepAspectRatio then _ else _) as [cw ch].
  rewrite bind_modify_myrtille. reflexivity.
Qed.

(** C9 (as amended): an aspect-ratio-locked resize to [width] x [height]
    under the fixed ratio [a], with [r] the ratio [width / height] computed
    in single precision: when [a] equals [r] the requested resolution is
    adopted unchanged; when [a] is below [r] the height is kept and the
    width becomes [height * a] truncated to an integer; otherwise the width
    is kept and the height becomes [width / a] truncated to an integer.
    (Nothing is said of the ratio of the truncated pair.) *)
Theorem aspect_locked_resize `{Platform} (w : world) (resolution : string)
    (separatorIdx : nat) (width height : Z) :
  Str.find resolution "x" = Some separatorIdx ->
  Str.stoi (String.substring 0 separatorIdx resolution) = inr width ->
  Str.stoi (String.substring (separatorIdx + 1)
                             (Str.len resolution - separatorIdx - 1) resolution)
  = inr height ->
  let a := aspectRatio (myrtille w) in
  let r := Float32.div (Float32.of_int width) (Float32.of_int height) in
  let o := processResizeDisplay true resolution w in
  let cw := clientWidth (myrtille (final o)) in
  let ch := clientHeight (myrtille (final o)) in
  returns o = true
  /\ (Float32.eqb a r = true -> cw = width /\ ch = height)
  /\ (Float32.eqb a r = false -> Float32.ltb a r = true ->
      ch = height /\ cw = Float32.to_int (Float32.mul (Float32.of_int height) a))
  /\ (Float32.eqb a r = false -> Float32.ltb a r = false ->
      cw = width /\ ch = Float32.to_int (Float32.div (Float32.of_int width) a)).
Proof.
  intros Hfind Hw Hh a r o cw ch. subst cw ch o.
  rewrite (processResizeDisplay_parsed w true resolution separatorIdx width height Hfind Hw Hh).
  unfold keep_aspect_ratio. fold a r.
  destruct (Float32.eqb a r); [|destruct (Float32.ltb a r)];
    cbn [final returns myrtille with_myrtille clientWidth clientHeight
         set_clientWidth set_clientHeight];
    repeat split; intros; try discriminate; reflexivity.
Qed.

Lemma aspect_locked_resize_witness :
  let w := Sample.session in
  Str.find "1000x500"%string "x" = Some 4%nat
  /\ Str.stoi (String.substring 0 4 "1000x500"%string) = inr 1000
  /\ Str.stoi (String.substring (4 + 1) (Str.len "1000x500"%string - 4 - 1)
                                "1000x500"%string) = inr 500
  /\ clientHeight (myrtille (final (processResizeDisplay true "1000x500"%string w))) = 500
  /\ clientWidth (myrtille (final (processResizeDisplay true "1000x500"%string w)))
     = Float32.to_int (Float32.mul (Float32.of_int 500) (aspectRatio (myrtille w))).
Proof.
  intros w.
  assert (Hfind : Str.find "1000x500"%string "x" = Some 4%nat) by reflexivity.
  assert (Hw : Str.stoi (String.substring 0 4 "1000x500"%string) = inr 1000) by reflexivity.
  assert (Hh : Str.stoi (String.substring (4 + 1) (Str.len "1000x500"%string - 4 - 1)
                                          "1000x500"%string) = inr 500) by reflexivity.
  split; [exact Hfind|]. split; [exact Hw|]. split; [exact Hh|].
  destruct (aspect_locked_resize w "1000x500"%string 4 1000 500 Hfind Hw Hh)
    as (_ & _ & Hlt & _).
  apply Hlt; vm_compute; reflexivity.
Defined.

(** C9, the claim as stated fails: with the ratio of a 1024 x 768 desktop, a
    locked resize to 1000 x 500 gives 666 x 500, and 666 / 500 is not that
    ratio, neither in single precision nor exactly. *)
Lemma aspect_locked_resize_counterexample :
  let w := Sample.session in
  let a := aspectRatio (myrtille w) in
  let o := processResizeDisplay true "1000x500"%string w in
  a = Float32.div (Float32.of_int 1024) (Float32.of_int 768)
  /\ returns o = true
  /\ clientWidth (myrtille (final o)) = 666
  /\ clientHeight (myrtille (final o)) = 500
  /\ Float32.eqb (Float32.div (Float32.of_int 666) (Float32.of_int 500)) a = false
  /\ 666 * 768 <> 500 * 1024.
Proof. vm_compute. repeat split; try reflexivity. discriminate. Qed.

(* ===================================================================== *)
(** * The region consolidator and throttle *)
(* ===================================================================== *)

Lemma throttle_state_id m : throttle_state (imageCount m) (imageBuffer m) m = m.
Proof. now destruct m. Qed.

Lemma throttle_state_twice c b c' b' m :
  throttle_state c b (throttle_state c' b' m) = throttle_state c b m.
Proof. reflexivity. Qed.

Lemma throttle_state_count c b m : imageCount (throttle_state c b m) = c.
Proof. reflexivity. Qed.

Lemma throttle_state_buffer c b m : imageBuffer (throttle_state c b m) = b.
Proof. reflexivity. Qed.

Lemma throttle_state_quantity c b m : imageQuantity (throttle_state c b m) = imageQuantity m.
Proof. reflexivity. Qed.

Lemma throttled_quantity_cases q :
  throttled_quantity q = true -> q = 5 \/ q = 10 \/ q = 20 \/ q = 25 \/ q = 50.
Proof. unfold throttled_quantity. rewrite !orb_true_iff, !Z.eqb_eq. tauto. Qed.

Lemma throttled_quantity_divisor q :
  throttled_quantity q = true -> cdiv 100 q = 100 / q /\ 2 <= 100 / q <= 20.
Proof.
  intros Hq. apply throttled_quantity_cases in Hq.
  destruct Hq as [->|[->|[->|[->| ->]]]]; vm_compute; repeat split; discriminate.
Qed.

Lemma rect_eta (b : RECT.t) :
  RECT.mk (RECT.left b) (RECT.top b) (RECT.right b) (RECT.bottom b) = b.
Proof. now destruct b. Qed.

Lemma consolidate_unset (r : RECT.t) : consolidate r imageBuffer_unset = r.
Proof. destruct r. reflexivity. Qed.

Ltac rect_simpl :=
  cbn [orb RECT.left RECT.top RECT.right RECT.bottom] in *;
  unfold RECT.set_left, RECT.set_top, RECT.set_right, RECT.set_bottom in *;
  cbn [orb RECT.left RECT.top RECT.right RECT.bottom] in *.

Lemma consolidate_union (r b : RECT.t) :
  nonneg b -> consolidate r b = rect_union b r.
Proof.
  destruct b as [bl bt br bb], r as [rl rt rr rb]. unfold nonneg. rect_simpl.
  intros (Hl & Ht & Hr & Hb).
  unfold consolidate, rect_union. rect_simpl.
  assert ((bt =? -1) = false) as -> by lia.
  destruct (rt <? bt) eqn:E1; rect_simpl;
    (assert ((bl =? -1) = false) as -> by lia);
    destruct (rl <? bl) eqn:E2; rect_simpl;
    (assert ((bb =? -1) = false) as -> by lia);
    destruct (bb <? rb) eqn:E3; rect_simpl;
    (assert ((br =? -1) = false) as -> by lia);
    destruct (br <? rr) eqn:E4; rect_simpl;
    f_equal; lia.
Qed.

Lemma rect_union_nonneg a b : nonneg a -> nonneg b -> nonneg (rect_union a b).
Proof. unfold nonneg, rect_union. cbn. lia. Qed.

Lemma accumulate_union (b : RECT.t) (regions : list RECT.t) :
  nonneg b -> Forall nonneg regions ->
  accumulate b regions = foldl rect_union b regions /\ nonneg (foldl rect_union b regions).
Proof.
  intros Hb Hrs. revert b Hb. induction Hrs as [|r rs Hr Hrs IH]; intros b Hb.
  - split; [reflexivity|exact Hb].
  - unfold accumulate in *. cbn [foldl]. rewrite consolidate_union by assumption.
    apply IH. now apply rect_union_nonneg.
Qed.

Lemma accumulate_group (group : list RECT.t) :
  group <> [] -> Forall nonneg group ->
  accumulate imageBuffer_unset group = bounding_union group
  /\ nonneg (bounding_union group).
Proof.
  intros Hne Hg. destruct group as [|r rs]; [contradiction|].
  inversion Hg as [|? ? Hr Hrs]; subst.
  unfold accumulate. cbn [foldl bounding_union]. rewrite consolidate_unset.
  now apply accumulate_union.
Qed.

Lemma regulate_app (m : wf_myrtille) (l1 l2 : list RECT.t) :
  regulate m (l1 ++ l2)
  = (fst (regulate (fst (regulate m l1)) l2),
     snd (regulate m l1) ++ snd (regulate (fst (regulate m l1)) l2)).
Proof.
  revert m. induction l1 as [|r l1 IH]; intros m.
  - cbn [app regulate fst snd]. now destruct (regulate m l2).
  - cbn [app regulate]. destruct (ips_regulator m r) as [m1 f].
    rewrite IH. destruct (regulate m1 l1) as [m2 o]. reflexivity.
Qed.

Section Throttle.
Variable q : Z.
Hypothesis Hq : throttled_quantity q = true.
Let k := 100 / q.

Lemma count_region_next (m : wf_myrtille) :
  0 <= imageCount m < INT_MAX ->
  count_region m = set_imageCount (imageCount m + 1) m.
Proof.
  intros Hc. unfold count_region.
  assert ((imageCount m =? INT_MAX) = false) as -> by lia.
  rewrite wrap_int_small by (unfold INT_MIN, INT_MAX in *; lia). reflexivity.
Qed.

(** An event that is dropped. *)
Lemma ips_regulator_drop (m : wf_myrtille) (region : RECT.t) :
  imageQuantity m = q ->
  0 <= imageCount m < INT_MAX ->
  (imageCount m + 1) mod k <> 0 ->
  ips_regulator m region
  = (throttle_state (imageCount m + 1) (consolidate region (imageBuffer m)) m, None).
Proof.
  intros Hm Hc Hmod. unfold ips_regulator. rewrite count_region_next by assumption.
  cbn [imageQuantity set_imageCount set_imageBuffer imageBuffer imageCount].
  rewrite Hm, Hq.
  destruct (throttled_quantity_divisor q Hq) as [-> Hk]. fold k in Hk |- *.
  unfold cmod. rewrite Z.rem_mod_nonneg by lia.
  apply Z.eqb_neq in Hmod. rewrite Hmod. reflexivity.
Qed.

(** An event that is forwarded. *)
Lemma ips_regulator_flush (m : wf_myrtille) (region : RECT.t) :
  imageQuantity m = q ->
  0 <= imageCount m < INT_MAX ->
  (imageCount m + 1) mod k = 0 ->
  nonneg (consolidate region (imageBuffer m)) ->
  ips_regulator m region
  = (throttle_state (imageCount m + 1) imageBuffer_unset m,
     Some (consolidate region (imageBuffer m))).
Proof.
  intros Hm Hc Hmod Hb. unfold ips_regulator. rewrite count_region_next by assumption.
  cbn [imageQuantity set_imageCount set_imageBuffer imageBuffer imageCount].
  rewrite Hm, Hq.
  destruct (throttled_quantity_divisor q Hq) as [-> Hk]. fold k in Hk |- *.
  unfold cmod. rewrite Z.rem_mod_nonneg by lia.
  rewrite Hmod. cbn [Z.eqb negb].
  set (b := consolidate region (imageBuffer m)) in *.
  destruct Hb as (Hl & Ht & Hr & Hbt).
  assert ((RECT.top b =? -1) = false) as -> by lia.
  assert ((RECT.left b =? -1) = false) as -> by lia.
  assert ((RECT.bottom b =? -1) = false) as -> by lia.
  assert ((RECT.right b =? -1) = false) as -> by lia.
  cbn [negb andb]. rewrite rect_eta. reflexivity.
Qed.

(** A run of events none of which is forwarded. *)
Lemma regulate_drops (regions : list RECT.t) (m : wf_myrtille) :
  imageQuantity m = q ->
  0 <= imageCount m ->
  imageCount m + Z.of_nat (length regions) <= INT_MAX ->
  (forall i, 1 <= i <= Z.of_nat (length regions) -> (imageCount m + i) mod k <> 0) ->
  regulate m regions
  = (throttle_state (imageCount m + Z.of_nat (length regions))
                    (accumulate (imageBuffer m) regions) m,
     replicate (length regions) None).
Proof.
  revert m. induction regions as [|r rs IH]; intros m Hm Hc Hmax Hmod.
  - cbn [regulate length accumulate foldl replicate]. rewrite Z.add_0_r.
    now rewrite throttle_state_id.
  - cbn [regulate]. cbn [length] in Hmax, Hmod.
    rewrite ips_regulator_drop; [|assumption|lia|apply Hmod; lia].
    rewrite IH; cycle 1.
    + exact Hm.
    + cbn [throttle_state imageCount set_imageBuffer set_imageCount]. lia.
    + cbn [throttle_state imageCount set_imageBuffer set_imageCount]. lia.
    + cbn [throttle_state imageCount set_imageBuffer set_imageCount].
      intros i Hi. replace (imageCount m + 1 + i) with (imageCount m + (1 + i)) by lia.
      apply Hmod. lia.
    + rewrite throttle_state_twice, throttle_state_count, throttle_state_buffer.
      change (accumulate (imageBuffer m) (r :: rs))
        with (accumulate (consolidate r (imageBuffer m)) rs).
      cbn [length replicate].
      replace (imageCount m + 1 + Z.of_nat (length rs))
        with (imageCount m + Z.of_nat (S (length rs))) by lia.
      reflexivity.
Qed.

Lemma off_boundary (c i : Z) : c mod k = 0 -> 1 <= i < k -> (c + i) mod k <> 0.
Proof.
  intros Hc Hi. rewrite Z.add_mod, Hc, Z.add_0_l, Z.mod_mod by lia.
  rewrite Z.mod_small by lia. lia.
Qed.

Lemma next_boundary (c : Z) : c mod k = 0 -> (c + k) mod k = 0.
Proof.
  destruct (throttled_quantity_divisor q Hq) as [_ Hk]. fold k in Hk.
  intros Hc. rewrite Z.add_mod, Hc, Z.mod_same, Z.add_0_l by lia. reflexivity.
Qed.

(** A complete group, from a group boundary. *)
Lemma regulate_group (group : list RECT.t) (m : wf_myrtille) :
  imageQuantity m = q ->
  imageBuffer m = imageBuffer_unset ->
  0 <= imageCount m ->
  imageCount m mod k = 0 ->
  imageCount m + k <= INT_MAX ->
  Z.of_nat (length group) = k ->
  Forall nonneg group ->
  regulate m group
  = (throttle_state (imageCount m + k) imageBuffer_unset m, group_forwards group).
Proof.
  intros Hm Hb Hc Hmod Hmax Hlen Hg.
  destruct (throttled_quantity_divisor q Hq) as [_ Hk]. fold k in Hk.
  destruct group as [|last init _] using rev_ind; [cbn [length] in Hlen; lia|].
  rewrite length_app in Hlen. cbn [length] in Hlen.
  rewrite regulate_app.
  rewrite (regulate_drops init m);
    [|assumption|assumption|lia|intros i Hi; apply off_boundary; lia].
  cbn [fst snd regulate].
  assert (Hacc : accumulate imageBuffer_unset (init ++ [last])
                 = consolidate last (accumulate imageBuffer_unset init)).
  { unfold accumulate. rewrite foldl_app. reflexivity. }
  destruct (accumulate_group (init ++ [last])) as [Hu Hn];
    [destruct init; discriminate|assumption|].
  rewrite ips_regulator_flush; cycle 1.
  - exact Hm.
  - cbn [throttle_state imageCount set_imageBuffer set_imageCount]. lia.
  - cbn [throttle_state imageCount set_imageBuffer set_imageCount].
    replace (imageCount m + Z.of_nat (length init) + 1) with (imageCount m + k) by lia.
    now apply next_boundary.
  - cbn [throttle_state imageBuffer set_imageBuffer set_imageCount].
    rewrite Hb, <- Hacc, Hu. exact Hn.
  - cbn [throttle_state imageCount imageBuffer set_imageBuffer set_imageCount].
    rewrite Hb, <- Hacc, Hu. unfold group_forwards.
    rewrite length_app. cbn [length].
    replace (length init + 1 - 1)%nat with (length init) by lia.
    cbn [fst snd]. rewrite throttle_state_twice.
    replace (imageCount m + Z.of_nat (length init) + 1) with (imageCount m + k) by lia.
    reflexivity.
Qed.

(** Complete groups followed by an incomplete one, from a group boundary. *)
Lemma regulate_groups (groups : list (list RECT.t)) (tail : list RECT.t) (m : wf_myrtille) :
  imageQuantity m = q ->
  imageBuffer m = imageBuffer_unset ->
  0 <= imageCount m ->
  imageCount m mod k = 0 ->
  imageCount m + k * Z.of_nat (length groups) + Z.of_nat (length tail) <= INT_MAX ->
  Forall (fun g => Z.of_nat (length g) = k /\ Forall nonneg g) groups ->
  Z.of_nat (length tail) < k ->
  regulate m (concat groups ++ tail)
  = (throttle_state (imageCount m + k * Z.of_nat (length groups) + Z.of_nat (length tail))
                    (accumulate imageBuffer_unset tail) m,
     concat (group_forwards <$> groups) ++ replicate (length tail) None).
Proof.
  destruct (throttled_quantity_divisor q Hq) as [_ Hk]. fold k in Hk.
  intros Hm Hb Hc Hmod Hmax Hgs Htail. revert m Hm Hb Hc Hmod Hmax.
  induction Hgs as [|g gs [Hlen Hg] Hgs IH]; intros m Hm Hb Hc Hmod Hmax.
  - cbn [concat app length fmap list_fmap] in *.
    rewrite regulate_drops; [|assumption|assumption|lia|intros i Hi; apply off_boundary; lia].
    rewrite Hb. f_equal. f_equal. lia.
  - cbn [concat length fmap list_fmap] in *. rewrite <- !app_assoc.
    rewrite regulate_app.
    rewrite (regulate_group g m) by (assumption || lia).
    cbn [fst snd].
    rewrite IH; cycle 1.
    + exact Hm.
    + reflexivity.
    + rewrite throttle_state_count. lia.
    + rewrite throttle_state_count. now apply next_boundary.
    + rewrite throttle_state_count. lia.
    + rewrite throttle_state_twice, throttle_state_count.
      cbn [fst snd]. f_equal. f_equal. lia.
Qed.

End Throttle.

(** Outside the throttled quantities every event goes on as it is. *)
Lemma regulate_unthrottled (regions : list RECT.t) (m : wf_myrtille) :
  throttled_quantity (imageQuantity m) = false ->
  snd (regulate m regions) = Some <$> regions
  /\ imageBuffer (fst (regulate m regions)) = imageBuffer m.
Proof.
  revert m. induction regions as [|r rs IH]; intros m Hq.
  - split; reflexivity.
  - cbn [regulate fmap list_fmap].
    assert (Hstep : ips_regulator m r = (count_region m, Some r)).
    { unfold ips_regulator.
      assert (Hsame : imageQuantity (count_region m) = imageQuantity m).
      { unfold count_region. destruct (imageCount m =? INT_MAX); reflexivity. }
      rewrite Hsame, Hq. reflexivity. }
    rewrite Hstep.
    assert (Hq1 : throttled_quantity (imageQuantity (count_region m)) = false).
    { unfold count_region. destruct (imageCount m =? INT_MAX); exact Hq. }
    destruct (IH (count_region m) Hq1) as [IHs IHb].
    destruct (regulate (count_region m) rs) as [m2 others]. cbn [fst snd] in *.
    split; [now rewrite IHs|].
    rewrite IHb. unfold count_region. destruct (imageCount m =? INT_MAX); reflexivity.
Qed.

Lemma length_concat_groups (k : Z) (groups : list (list RECT.t)) :
  Forall (fun g => Z.of_nat (length g) = k) groups ->
  Z.of_nat (length (concat groups)) = k * Z.of_nat (length groups).
Proof.
  induction 1 as [|g gs Hg Hgs IH]; cbn [concat length].
  - lia.
  - rewrite length_app. lia.
Qed.

Lemma accepted_nonneg (s : rdpSettings) (r : RECT.t) :
  region_rejected s r = false -> nonneg r.
Proof. intros Hr. apply region_accepted_iff in Hr. unfold nonneg. lia. Qed.


(* ===================================================================== *)
(** * The 32-bit integer codec *)
(* ===================================================================== *)

Lemma bytesToInt32_prefix (b0 b1 b2 b3 : Z) (rest : list Z) :
  bytesToInt32 (b0 :: b1 :: b2 :: b3 :: rest) = bytesToInt32 [b0; b1; b2; b3].
Proof. reflexivity. Qed.

Lemma le32_of_bytes (b0 b1 b2 b3 : Z) :
  is_byte b0 -> is_byte b1 -> is_byte b2 -> is_byte b3 ->
  le32 (b0 + b1 * 256 + b2 * 65536 + b3 * 16777216) = [b0; b1; b2; b3].
Proof.
  unfold is_byte, le32. intros H0 H1 H2 H3.
  repeat f_equal; Z.to_euclidean_division_equations; lia.
Qed.

Lemma bytesToInt32_sum (b0 b1 b2 b3 : Z) :
  is_byte b0 -> is_byte b1 -> is_byte b2 -> is_byte b3 ->
  bytesToInt32 [b0; b1; b2; b3]
  = wrap_int (b0 + b1 * 256 + b2 * 65536 + b3 * 16777216).
Proof.
  unfold is_byte. intros H0 H1 H2 H3.
  unfold bytesToInt32, byte_at. cbn [lookup list_lookup default from_option id].
  rewrite (lor_shiftl_add b0) by lia.
  rewrite (lor_shiftl_add (b0 + _)) by lia.
  rewrite (lor_shiftl_add (b0 + _ + _)) by lia.
  reflexivity.
Qed.

Lemma int32ToBytes_header (v : Z) : int32ToBytes v 0 (new_bytes 4) = le32 v.
Proof.
  rewrite int32ToBytes_le32 by (cbn; lia).
  cbn [take drop new_bytes replicate app Nat.add]. apply app_nil_r.
Qed.

(** X1.  [int32ToBytes] followed by [bytesToInt32] at the same place gives
    the [int] back, for every [int] (negative ones included), and the write
    touches the four bytes at [offset] only: the buffer keeps its length
    and every other byte. *)
Theorem int32_bytes_round_trip (v : Z) (offset : nat) (bytes : list Z) :
  INT_MIN <= v <= INT_MAX ->
  (offset + 4 <= length bytes)%nat ->
  bytesToInt32 (drop offset (int32ToBytes v offset bytes)) = v
  /\ length (int32ToBytes v offset bytes) = length bytes
  /\ take offset (int32ToBytes v offset bytes) = take offset bytes
  /\ drop (offset + 4) (int32ToBytes v offset bytes) = drop (offset + 4) bytes.
Proof.
  intros Hv Hlen. rewrite int32ToBytes_le32 by assumption.
  assert (Ht : length (take offset bytes) = offset) by (rewrite length_take; lia).
  split; [|split; [|split]].
  - rewrite drop_app_length' by (symmetry; exact Ht).
    unfold le32 at 1. cbn [app]. rewrite bytesToInt32_prefix.
    change [v mod 256; v / 256 mod 256; v / 65536 mod 256; v / 16777216 mod 256]
      with (le32 v).
    rewrite bytesToInt32_le32. now apply wrap_int_small.
  - rewrite !length_app, Ht, length_drop. unfold le32. cbn [length]. lia.
  - rewrite take_app_length' by (symmetry; exact Ht). reflexivity.
  - rewrite app_assoc. rewrite drop_app_length'; [reflexivity|].
    rewrite length_app, Ht. reflexivity.
Qed.

Lemma int32_bytes_round_trip_witness :
  let bytes := [1; 2; 3; 4; 5; 6; 7] in
  (INT_MIN <= -2 <= INT_MAX)
  /\ (2 + 4 <= length bytes)%nat
  /\ int32ToBytes (-2) 2 bytes = [1; 2; 254; 255; 255; 255; 7]
  /\ bytesToInt32 (drop 2 (int32ToBytes (-2) 2 bytes)) = -2.
Proof.
  intros bytes.
  assert (Hv : INT_MIN <= -2 <= INT_MAX) by (unfold INT_MIN, INT_MAX; lia).
  assert (Hlen : (2 + 4 <= length bytes)%nat) by (cbn; lia).
  split; [exact Hv|]. split; [exact Hlen|]. split; [reflexivity|].
  exact (proj1 (int32_bytes_round_trip (-2) 2 bytes Hv Hlen)).
Defined.

(** X2.  The other way round: four bytes read by [bytesToInt32] and written
    back by [int32ToBytes] are the same four bytes, so the codec loses
    nothing in either direction. *)
Theorem bytes_int32_round_trip (b0 b1 b2 b3 : Z) :
  is_byte b0 -> is_byte b1 -> is_byte b2 -> is_byte b3 ->
  int32ToBytes (bytesToInt32 [b0; b1; b2; b3]) 0 (new_bytes 4) = [b0; b1; b2; b3].
Proof.
  intros H0 H1 H2 H3.
  rewrite int32ToBytes_header.
  rewrite bytesToInt32_sum, le32_wrap_int by assumption.
  now apply le32_of_bytes.
Qed.

Lemma bytes_int32_round_trip_witness :
  is_byte 57 /\ is_byte 48 /\ is_byte 0 /\ is_byte 255
  /\ bytesToInt32 [57; 48; 0; 255] = -16764871
  /\ int32ToBytes (bytesToInt32 [57; 48; 0; 255]) 0 (new_bytes 4) = [57; 48; 0; 255].
Proof.
  assert (H0 : is_byte 57) by (unfold is_byte; lia).
  assert (H1 : is_byte 48) by (unfold is_byte; lia).
  assert (H2 : is_byte 0) by (unfold is_byte; lia).
  assert (H3 : is_byte 255) by (unfold is_byte; lia).
  repeat (split; [assumption|]). split; [reflexivity|].
  exact (bytes_int32_round_trip 57 48 0 255 H0 H1 H2 H3).
Defined.

(* ===================================================================== *)
(** * Text messages *)
(* ===================================================================== *)

Lemma length_wchar_bytes (msg : list Z) : length (wchar_bytes msg) = (length msg * 2)%nat.
Proof.
  induction msg as [|u msg IH]; cbn [wchar_bytes flat_map length app]; [reflexivity|].
  fold (wchar_bytes msg). rewrite IH. lia.
Qed.

Lemma memcpy_text (header body : list Z) (n : nat) :
  length header = 4%nat -> length body = n ->
  memcpy (memcpy (new_bytes (n + 4)) 0 header 4) 4 body n = header ++ body.
Proof.
  intros Hh Hb. unfold memcpy, new_bytes.
  rewrite !firstn_all2 by lia.
  rewrite Nat.add_comm, replicate_add.
  rewrite list_inserts_0_r by (now rewrite length_replicate).
  replace 4%nat with (length header + 0)%nat at 1 by lia.
  rewrite list_inserts_app_r. f_equal.
  rewrite <- (app_nil_r (replicate n 0)).
  rewrite list_inserts_0_r by (now rewrite length_replicate).
  apply app_nil_r.
Qed.

Lemma sendMessage_run (msg : list Z) (w : world) :
  sendMessage msg w = Ok tt (message_sent msg w).
Proof.
  unfold sendMessage, message_sent. destruct msg as [|u msg]; [reflexivity|].
  set (m := u :: msg).
  assert ((length m =? 0)%nat = false) as -> by reflexivity.
  rewrite int32ToBytes_header, le32_wrap_int.
  rewrite memcpy_text; [|reflexivity|apply length_wchar_bytes].
  replace (Z.of_nat (length m * 2)) with (2 * Z.of_nat (length m)) by lia.
  fold (text_message m).
  unfold WriteFile_updates. rewrite bind_bind, bind_gets.
  destruct (connected (updatesPipe w)); reflexivity.
Qed.

Lemma length_text_message (msg : list Z) :
  length (text_message msg) = (4 + 2 * length msg)%nat.
Proof.
  unfold text_message. rewrite length_app, length_wchar_bytes. unfold le32. cbn [length]. lia.
Qed.

(** X3.  [sendMessage] always returns.  An empty text sends nothing.  A
    text of [n] units goes out as ONE write of [4 + 2 n] bytes on the
    updates pipe: the byte length [2 n] as a little-endian word, then the
    units low byte first (no image header, no terminator).  When the pipe is
    gone nothing is written and the reader's run flag is cleared instead. *)
Theorem sendMessage_layout (msg : list Z) (w : world) :
  sendMessage msg w
  = Ok tt (match msg with
           | [] => w
           | _ :: _ =>
               if connected (updatesPipe w)
               then with_updatesPipe
                      {| connected := true;
                         written := written (updatesPipe w)
                                    ++ [le32 (2 * Z.of_nat (length msg)) ++ wchar_bytes msg] |} w
               else with_myrtille (set_processInputs false (myrtille w)) w
           end)
  /\ length (le32 (2 * Z.of_nat (length msg)) ++ wchar_bytes msg) = (4 + 2 * length msg)%nat.
Proof.
  split; [apply sendMessage_run|apply length_text_message].
Qed.

(* ===================================================================== *)
(** * What a computation leaves alone *)
(* ===================================================================== *)

Lemma keeps_ret {X A} (f : world -> X) (a : A) : keeps f (ret a).
Proof. intros w. reflexivity. Qed.

Lemma keeps_raise {X A} (f : world -> X) (e : fault) : keeps f (@raise A e).
Proof. intros w. reflexivity. Qed.

Lemma keeps_throwing {X A} (f : world -> X) (r : exn + A) : keeps f (throwing r).
Proof. intros w. destruct r; reflexivity. Qed.

Lemma keeps_get {X} (f : world -> X) : keeps f get.
Proof. intros w. reflexivity. Qed.

Lemma keeps_gets {X A} (f : world -> X) (g : world -> A) : keeps f (gets g).
Proof. intros w. reflexivity. Qed.

Lemma keeps_modify {X} (f : world -> X) (g : world -> world) :
  (forall w, f (g w) = f w) -> keeps f (modify g).
Proof. intros Hg w. apply Hg. Qed.

Lemma keeps_bind {X A B} (f : world -> X) (m : M A) (k : A -> M B) :
  keeps f m -> (forall a, keeps f (k a)) -> keeps f (bind m k).
Proof.
  intros Hm Hk w. unfold bind. specialize (Hm w).
  destruct (m w) as [a w1|e w1]; cbn [final] in *.
  - rewrite Hk. exact Hm.
  - exact Hm.
Qed.

Lemma keeps_idiv {X} (f : world -> X) (a b : Z) : keeps f (idiv a b).
Proof. intros w. unfold idiv. destruct (b =? 0); reflexivity. Qed.

Lemma keeps_new_array {X} (f : world -> X) (n : Z) : keeps f (new_array n).
Proof. intros w. unfold new_array. destruct (n <? 0); reflexivity. Qed.

(** One step of a frame proof: split the computation, close the leaves. *)
Ltac keeps_step :=
  lazymatch goal with
  | |- keeps _ (bind _ _) => apply keeps_bind; [|intros ?]
  | |- keeps _ (ret _) => apply keeps_ret
  | |- keeps _ skip => apply keeps_ret
  | |- keeps _ (raise _) => apply keeps_raise
  | |- keeps _ (throwing _) => apply keeps_throwing
  | |- keeps _ get => apply keeps_get
  | |- keeps _ (gets _) => apply keeps_gets
  | |- keeps _ (idiv _ _) => apply keeps_idiv
  | |- keeps _ (new_array _) => apply keeps_new_array
  | |- keeps _ (modify _) => apply keeps_modify; intros ?; reflexivity
  | |- keeps _ (modify_myrtille _) => apply keeps_modify; intros ?; reflexivity
  | |- keeps _ (modify_settings _) => apply keeps_modify; intros ?; reflexivity
  | |- keeps _ (call _) => apply keeps_modify; intros ?; reflexivity
  | |- keeps _ (if ?c then _ else _) => destruct c
  | |- keeps _ (match ?x with _ => _ end) => destruct x
  end.

Ltac keeps_all := repeat keeps_step.

Lemma ips_regulator_configuration (m : wf_myrtille) (region : RECT.t) :
  session_configuration (fst (ips_regulator m region)) = session_configuration m.
Proof.
  unfold ips_regulator, count_region.
  repeat match goal with
         | |- context [if ?c then _ else _] => destruct c
         end; reflexivity.
Qed.

Lemma keeps_configuration_sendImage bmp idx x y width height format quality stream size fullscreen :
  keeps configuration (sendImage bmp idx x y width height format quality stream size fullscreen).
Proof. unfold sendImage, WriteFile_updates, takeScreenshot. keeps_all. Qed.

Section ProducersFrame.
Context `{Platform}.

Lemma keeps_configuration_processImage bmp left top right bottom fullscreen adaptive :
  keeps configuration (processImage bmp left top right bottom fullscreen adaptive).
Proof.
  unfold processImage, reset_imageIdx, preincrement_imageIdx. keeps_all;
    apply keeps_configuration_sendImage.
Qed.

Lemma keeps_configuration_extract_and_process hdc region :
  keeps configuration (extract_and_process hdc region).
Proof.
  unfold extract_and_process. keeps_all; apply keeps_configuration_processImage.
Qed.

Lemma keeps_configuration_send_region region :
  keeps configuration (wf_myrtille_send_region region).
Proof.
  intros w. unfold wf_myrtille_send_region. rewrite bind_get.
  destruct (MyrtilleSessionId (settings w)); [|reflexivity].
  destruct (primary w) as [hdc|] eqn:Hp; [|reflexivity].
  destruct (region_rejected (settings w) region); [reflexivity|].
  pose proof (ips_regulator_configuration (myrtille w) region) as Hm.
  destruct (ips_regulator (myrtille w) region) as [m forwarded]. cbn [fst] in Hm.
  rewrite bind_modify.
  assert (Hw : configuration (with_myrtille m w) = configuration w).
  { unfold configuration. cbn [settings context_input cliprdr primary cursor commandMap
                                inputsPipe audioPipe myrtille with_myrtille].
    now rewrite Hm. }
  destruct forwarded as [r|]; [|exact Hw].
  rewrite keeps_configuration_extract_and_process. exact Hw.
Qed.

Lemma keeps_configuration_send_screen adaptive :
  keeps configuration (wf_myrtille_send_screen adaptive).
Proof.
  unfold wf_myrtille_send_screen. keeps_all; apply keeps_configuration_processImage.
Qed.

Lemma keeps_configuration_send_cursor : keeps configuration wf_myrtille_send_cursor.
Proof.
  unfold wf_myrtille_send_cursor, reset_imageIdx, preincrement_imageIdx.
  keeps_all; apply keeps_configuration_sendImage.
Qed.

(** X4.  The three producers of image messages ([wf_myrtille_send_region],
    [wf_myrtille_send_screen], [wf_myrtille_send_cursor]) never change the
    configuration, whether they return or fault: the connection settings,
    the command map, the inputs and audio pipes, and every configured field
    of the session (encoding, quality, quantity, scaling, client size,
    aspect ratio, audio and screenshot settings, clipboard text) are the
    same afterwards.  In particular the quality an adaptive update encodes
    at is not written back. *)
Theorem producers_keep_configuration (p : producer) (w : world) :
  configuration (final (produce p w)) = configuration w.
Proof.
  destruct p as [region|adaptive|]; cbn [produce].
  - apply keeps_configuration_send_region.
  - apply keeps_configuration_send_screen.
  - apply keeps_configuration_send_cursor.
Qed.

End ProducersFrame.

(* ===================================================================== *)
(** * The reader of the inputs pipe *)
(* ===================================================================== *)

Lemma of_bytes_to_bytes (s : string) : Str.of_bytes (Str.to_bytes s) = s.
Proof.
  unfold Str.of_bytes, Str.to_bytes.
  rewrite <- list_fmap_compose.
  rewrite <- (string_of_list_ascii_of_string s) at 2. f_equal.
  induction (list_ascii_of_string s) as [|a l IH]; [reflexivity|].
  cbn [fmap list_fmap]. cbn [fmap list_fmap] in IH. rewrite IH. f_equal.
  unfold compose. rewrite Nat2Z.id. apply ascii_nat_embedding.
Qed.

Lemma length_to_bytes (s : string) : length (Str.to_bytes s) = String.length s.
Proof.
  unfold Str.to_bytes. rewrite length_fmap.
  induction s as [|a s IH]; [reflexivity|]. cbn. now rewrite IH.
Qed.

Lemma memcpy_short (bytes : list Z) (n : nat) :
  (length bytes <= n)%nat ->
  take (length bytes) (memcpy (new_bytes n) 0 bytes (length bytes)) = bytes.
Proof.
  intros Hlen. unfold memcpy, new_bytes. rewrite firstn_all.
  replace n with (length bytes + (n - length bytes))%nat by lia.
  rewrite replicate_add.
  rewrite list_inserts_0_r by (now rewrite length_replicate).
  now rewrite take_app_length.
Qed.

Lemma wrap_uint_wrap_int (n : Z) : wrap_uint (wrap_int n) = wrap_uint n.
Proof.
  destruct (wrap_int_congruent n) as [k ->]. unfold wrap_uint.
  now rewrite Z_mod_plus_full.
Qed.

Section ReaderProofs.
Context `{Platform}.

Lemma loop_cons (rd : reader) (r : ReadFile_result) (reads : list ReadFile_result)
    (w : world) :
  processInputs (myrtille w) = true ->
  processInputsPipe_loop rd (r :: reads) w
  = bind (processInputsPipe_iteration rd r)
         (fun rd' => processInputsPipe_loop rd' reads) w.
Proof.
  intros Hrun. cbn [processInputsPipe_loop]. rewrite bind_gets, Hrun. reflexivity.
Qed.

Lemma loop_stopped (rd : reader) (reads : list ReadFile_result) (w : world) :
  processInputs (myrtille w) = false ->
  processInputsPipe_loop rd reads w = processInputsPipe_exit w.
Proof.
  intros Hrun. destruct reads; cbn [processInputsPipe_loop];
    rewrite bind_gets, Hrun; reflexivity.
Qed.

Lemma exit_shut_down (w : world) :
  processInputsPipe_exit (with_myrtille (set_processInputs false (myrtille w)) w)
  = Ok tt (shut_down w).
Proof. reflexivity. Qed.

(** The length phase. *)
Lemma iteration_header (rd : reader) (n : Z) (w : world) :
  sizeHeader rd = true -> 0 <= n < 2 ^ 32 ->
  processInputsPipe_iteration rd (ReadFile_bytes (le32 n)) w
  = Ok {| sizeHeader := false; bytesToRead := n |} w.
Proof.
  intros Hs Hn. unfold processInputsPipe_iteration. rewrite Hs.
  cbn [sizeHeader bytesToRead].
  change (Z.to_nat 4) with 4%nat.
  change (length (le32 n)) with 4%nat. cbn [Nat.min Nat.ltb Nat.leb].
  replace (memcpy (new_bytes 4) 0 (le32 n) 4) with (le32 n) by reflexivity.
  rewrite bytesToInt32_le32, wrap_uint_wrap_int.
  unfold wrap_uint. rewrite Z.mod_small by lia. reflexivity.
Qed.

(** The payload phase, for a read of at most the announced length. *)
Lemma iteration_payload (n : Z) (payload : string) (w : world) :
  payload <> ""%string -> Z.of_nat (String.length payload) <= n ->
  processInputsPipe_iteration {| sizeHeader := false; bytesToRead := n |}
                              (ReadFile_bytes (Str.to_bytes payload)) w
  = bind (process_message payload)
         (fun _ => ret {| sizeHeader := true; bytesToRead := n |}) w.
Proof.
  intros Hne Hlen. unfold processInputsPipe_iteration.
  cbn [sizeHeader bytesToRead].
  rewrite length_to_bytes.
  replace (String.length payload `min` Z.to_nat n)%nat with (String.length payload) by lia.
  assert ((0 <? String.length payload)%nat = true) as ->.
  { apply Nat.ltb_lt. destruct payload; [contradiction|cbn; lia]. }
  rewrite <- (length_to_bytes payload) at 1 2.
  rewrite memcpy_short by (rewrite length_to_bytes; lia).
  now rewrite of_bytes_to_bytes.
Qed.

(** In the length phase the stale [bytesToRead] does not matter. *)
Lemma iteration_header_phase (rd : reader) (r : ReadFile_result) :
  sizeHeader rd = true ->
  processInputsPipe_iteration rd r = processInputsPipe_iteration reader_start r.
Proof.
  intros Hs. unfold processInputsPipe_iteration. rewrite Hs. reflexivity.
Qed.

Lemma loop_header_phase (rd : reader) (reads : list ReadFile_result) (w : world) :
  sizeHeader rd = true ->
  processInputsPipe_loop rd reads w = processInputsPipe reads w.
Proof.
  intros Hs. unfold processInputsPipe.
  destruct reads as [|r reads]; [reflexivity|].
  cbn [processInputsPipe_loop]. now rewrite (iteration_header_phase rd r Hs).
Qed.

Lemma loop_payload (n : Z) (payload : string) (reads : list ReadFile_result) (w : world) :
  processInputs (myrtille w) = true ->
  payload <> ""%string -> Z.of_nat (String.length payload) <= n ->
  processInputsPipe_loop {| sizeHeader := false; bytesToRead := n |}
                         (ReadFile_bytes (Str.to_bytes payload) :: reads) w
  = bind (process_message payload) (fun _ => processInputsPipe reads) w.
Proof.
  intros Hrun Hne Hlen. rewrite loop_cons by assumption.
  unfold bind at 1. rewrite iteration_payload by assumption.
  unfold bind. destruct (process_message payload w) as [[] w1|f w1]; [|reflexivity].
  cbn [ret]. now apply loop_header_phase.
Qed.

(** A frame, from any state of the reader that is in its length phase. *)
Lemma loop_frame (rd : reader) (n : Z) (payload : string) (reads : list ReadFile_result)
    (w : world) :
  sizeHeader rd = true ->
  processInputs (myrtille w) = true ->
  payload <> ""%string ->
  Z.of_nat (String.length payload) <= n < 2 ^ 32 ->
  processInputsPipe_loop rd
    (ReadFile_bytes (le32 n) :: ReadFile_bytes (Str.to_bytes payload) :: reads) w
  = bind (process_message payload) (fun _ => processInputsPipe reads) w.
Proof.
  intros Hphase Hrun Hne Hlen.
  rewrite loop_cons by assumption.
  unfold bind at 1. rewrite iteration_header by (try assumption; lia).
  apply loop_payload; [assumption..|lia].
Qed.

(** X5.  Framing of the inputs pipe.  While the reader runs, a read of the
    four bytes of a length [n] followed by a read of a non-empty payload of
    at most [n] bytes makes the reader process exactly that payload as one
    message and go on with the next read as a fresh length: the reader is
    back in its start state, whatever [n] was.  A short read (fewer bytes
    than announced) is dispatched as if it were the whole message. *)
Theorem reader_frame (n : Z) (payload : string) (reads : list ReadFile_result)
    (w : world) :
  processInputs (myrtille w) = true ->
  payload <> ""%string ->
  Z.of_nat (String.length payload) <= n < 2 ^ 32 ->
  processInputsPipe (ReadFile_bytes (le32 n) :: ReadFile_bytes (Str.to_bytes payload) :: reads) w
  = bind (process_message payload) (fun _ => processInputsPipe reads) w.
Proof.
  intros Hrun Hne Hlen. unfold processInputsPipe at 1.
  now apply loop_frame.
Qed.

(** After a length of zero, a read that succeeds changes nothing. *)
Lemma iteration_zero_length (r : ReadFile_result) (w : world) :
  read_succeeded r ->
  processInputsPipe_iteration {| sizeHeader := false; bytesToRead := 0 |} r w
  = Ok {| sizeHeader := false; bytesToRead := 0 |} w.
Proof.
  destruct r as [|bytes]; [contradiction|]. intros _.
  unfold processInputsPipe_iteration. cbn [sizeHeader bytesToRead].
  change (Z.to_nat 0) with 0%nat. rewrite Nat.min_0_r. reflexivity.
Qed.

Lemma loop_zero_length (reads : list ReadFile_result) (w : world) :
  processInputs (myrtille w) = true ->
  Forall read_succeeded reads ->
  processInputsPipe_loop {| sizeHeader := false; bytesToRead := 0 |} reads w = Ok tt w.
Proof.
  intros Hrun Hreads. induction Hreads as [|r reads Hr _ IH].
  - cbn [processInputsPipe_loop]. rewrite bind_gets, Hrun. reflexivity.
  - rewrite loop_cons by assumption. unfold bind.
    rewrite iteration_zero_length by assumption. exact IH.
Qed.

(** X6.  A length header of zero wedges the reader: the payload phase then
    asks for zero bytes, no read can deliver any, and the reader never gets
    back to the length phase.  Whatever the peer sends afterwards, as long
    as the reads succeed, no command is dispatched and nothing changes. *)
Theorem zero_length_header_wedges_reader (reads : list ReadFile_result) (w : world) :
  processInputs (myrtille w) = true ->
  Forall read_succeeded reads ->
  processInputsPipe (ReadFile_bytes (le32 0) :: reads) w = Ok tt w.
Proof.
  intros Hrun Hreads. unfold processInputsPipe.
  rewrite loop_cons by assumption. unfold bind.
  rewrite iteration_header by (try reflexivity; lia).
  now apply loop_zero_length.
Qed.

(** X7.  A failed read ends the reader in either phase: the run flag is
    cleared, the three pipes are closed, the process exits, and the reads
    that would follow are never made.  Nothing else changes. *)
Theorem read_failure_shuts_down (rd : reader) (reads : list ReadFile_result) (w : world) :
  processInputs (myrtille w) = true ->
  processInputsPipe_loop rd (ReadFile_failed :: reads) w = Ok tt (shut_down w).
Proof.
  intros Hrun. rewrite loop_cons by assumption.
  unfold processInputsPipe_iteration. rewrite bind_bind, bind_modify_myrtille, bind_ret.
  rewrite loop_stopped by reflexivity. apply exit_shut_down.
Qed.

(** X8.  The [CLO] command ends the reader the same way: a frame whose
    payload starts with [CLO] (arguments are ignored) shuts the session
    down, and no later read is made. *)
Theorem close_client_shuts_down (n : Z) (args : string) (reads : list ReadFile_result)
    (w : world) :
  processInputs (myrtille w) = true ->
  commandMap w !! "CLO"%string = Some CLOSE_CLIENT ->
  3 + Z.of_nat (String.length args) <= n < 2 ^ 32 ->
  processInputsPipe (ReadFile_bytes (le32 n)
                       :: ReadFile_bytes (Str.to_bytes ("CLO" +:+ args)) :: reads) w
  = Ok tt (shut_down w).
Proof.
  intros Hrun Hmap Hn.
  unfold processInputsPipe at 1. rewrite loop_frame; [|reflexivity|assumption|discriminate|].
  2: { change (String.length ("CLO" +:+ args)) with (S (S (S (String.length args)))). lia. }
  unfold bind.
  change ("CLO" +:+ args)%string with (String "C" (String "L" (String "O" args))).
  rewrite (process_message_known_tag w "C" "L" "O" args CLOSE_CLIENT Hmap).
  cbn [dispatch]. unfold modify_myrtille, modify.
  unfold processInputsPipe. rewrite loop_stopped by reflexivity. apply exit_shut_down.
Qed.

(** What a payload shorter than a tag does. *)
Lemma process_message_short (message : string) (w : world) :
  (String.length message < 3)%nat ->
  process_message message w
  = Fault (Exception out_of_range)
      (match commandMap w !! message with
       | Some _ => w
       | None => with_commandMap (<[message := SEND_SERVER_ADDRESS]> (commandMap w)) w
       end).
Proof.
  intros Hlen. unfold process_message.
  assert (Htag : Str.substr message 0 3 = inr message).
  { unfold Str.substr. cbn [Nat.ltb Nat.leb].
    destruct message as [|a [|b [|c rest]]]; try reflexivity. cbn in Hlen. lia. }
  assert (Hargs : Str.substr message 3 (Str.len message - 3) = inl out_of_range).
  { unfold Str.substr, Str.len. now apply Nat.ltb_lt in Hlen as ->. }
  rewrite Htag, Hargs. cbn [throwing]. rewrite bind_ret.
  unfold commandMap_subscript. rewrite bind_bind, bind_gets.
  destruct (commandMap w !! message); reflexivity.
Qed.

(** X9.  A payload of one or two bytes is never dispatched: the tag lookup
    is made on what there is (and registers it when unknown), then taking
    the arguments throws [out_of_range], which the function does not catch.
    The reader ends there, without its shutdown sequence, and the reads
    that would follow are never made. *)
Theorem short_payload_faults (n : Z) (payload : string) (reads : list ReadFile_result)
    (w : world) :
  processInputs (myrtille w) = true ->
  payload <> ""%string ->
  (String.length payload < 3)%nat ->
  Z.of_nat (String.length payload) <= n < 2 ^ 32 ->
  processInputsPipe (ReadFile_bytes (le32 n) :: ReadFile_bytes (Str.to_bytes payload) :: reads) w
  = Fault (Exception out_of_range)
      (match commandMap w !! payload with
       | Some _ => w
       | None => with_commandMap (<[payload := SEND_SERVER_ADDRESS]> (commandMap w)) w
       end).
Proof.
  intros Hrun Hne Hshort Hn.
  unfold processInputsPipe at 1. rewrite loop_frame by (try assumption; reflexivity).
  unfold bind. now rewrite process_message_short.
Qed.

End ReaderProofs.

Lemma reader_frame_witness :
  let w := Sample.session in
  processInputs (myrtille w) = true
  /\ "QLT25"%string <> ""%string
  /\ Z.of_nat (String.length "QLT25") <= 5 < 2 ^ 32
  /\ processInputsPipe [ReadFile_bytes (le32 5); ReadFile_bytes (Str.to_bytes "QLT25")] w
     = bind (process_message "QLT25") (fun _ => processInputsPipe []) w
  /\ imageQuality (myrtille (final (bind (process_message "QLT25")
                                         (fun _ => processInputsPipe []) w))) = 25.
Proof.
  intros w.
  assert (Hrun : processInputs (myrtille w) = true) by reflexivity.
  assert (Hne : "QLT25"%string <> ""%string) by discriminate.
  assert (Hn : Z.of_nat (String.length "QLT25") <= 5 < 2 ^ 32) by (cbn; lia).
  split; [exact Hrun|]. split; [exact Hne|]. split; [exact Hn|].
  split; [exact (reader_frame 5 "QLT25" [] w Hrun Hne Hn)|].
  vm_compute. reflexivity.
Defined.

Lemma zero_length_header_wedges_reader_witness :
  let w := Sample.session in
  let reads := [ReadFile_bytes [5; 0; 0; 0]; ReadFile_bytes (Str.to_bytes "QLT25")] in
  processInputs (myrtille w) = true
  /\ Forall read_succeeded reads
  /\ processInputsPipe (ReadFile_bytes (le32 0) :: reads) w = Ok tt w.
Proof.
  intros w reads.
  assert (Hrun : processInputs (myrtille w) = true) by reflexivity.
  assert (Hreads : Forall read_succeeded reads) by (repeat constructor).
  split; [exact Hrun|]. split; [exact Hreads|].
  exact (zero_length_header_wedges_reader reads w Hrun Hreads).
Defined.

Lemma read_failure_shuts_down_witness :
  let w := Sample.session in
  let reads := [ReadFile_bytes [5; 0; 0; 0]; ReadFile_bytes (Str.to_bytes "QLT25")] in
  processInputs (myrtille w) = true
  /\ processInputsPipe_loop reader_start (ReadFile_failed :: reads) w = Ok tt (shut_down w).
Proof.
  intros w reads.
  assert (Hrun : processInputs (myrtille w) = true) by reflexivity.
  split; [exact Hrun|].
  exact (read_failure_shuts_down reader_start reads w Hrun).
Defined.

Lemma close_client_shuts_down_witness :
  let w := Sample.session in
  let reads := [ReadFile_bytes [5; 0; 0; 0]; ReadFile_bytes (Str.to_bytes "QLT25")] in
  processInputs (myrtille w) = true
  /\ commandMap w !! "CLO"%string = Some CLOSE_CLIENT
  /\ 3 + Z.of_nat (String.length "now") <= 6 < 2 ^ 32
  /\ processInputsPipe (ReadFile_bytes (le32 6)
                          :: ReadFile_bytes (Str.to_bytes ("CLO" +:+ "now")) :: reads) w
     = Ok tt (shut_down w).
Proof.
  intros w reads.
  assert (Hrun : processInputs (myrtille w) = true) by reflexivity.
  assert (Hmap : commandMap w !! "CLO"%string = Some CLOSE_CLIENT) by (vm_compute; reflexivity).
  assert (Hn : 3 + Z.of_nat (String.length "now") <= 6 < 2 ^ 32) by (cbn; lia).
  split; [exact Hrun|]. split; [exact Hmap|]. split; [exact Hn|].
  exact (close_client_shuts_down 6 "now" reads w Hrun Hmap Hn).
Defined.

Lemma short_payload_faults_witness :
  let w := Sample.session in
  processInputs (myrtille w) = true
  /\ "CL"%string <> ""%string
  /\ (String.length "CL" < 3)%nat
  /\ Z.of_nat (String.length "CL") <= 2 < 2 ^ 32
  /\ processInputsPipe [ReadFile_bytes (le32 2); ReadFile_bytes (Str.to_bytes "CL")] w
     = Fault (Exception out_of_range)
         (with_commandMap (<["CL"%string := SEND_SERVER_ADDRESS]> (commandMap w)) w).
Proof.
  intros w.
  assert (Hrun : processInputs (myrtille w) = true) by reflexivity.
  assert (Hne : "CL"%string <> ""%string) by discriminate.
  assert (Hshort : (String.length "CL" < 3)%nat) by (cbn; lia).
  assert (Hn : Z.of_nat (String.length "CL") <= 2 < 2 ^ 32) by (cbn; lia).
  split; [exact Hrun|]. split; [exact Hne|]. split; [exact Hshort|]. split; [exact Hn|].
  pose proof (short_payload_faults 2 "CL" [] w Hrun Hne Hshort Hn) as E.
  assert (Hnone : commandMap w !! "CL"%string = None) by (vm_compute; reflexivity).
  rewrite Hnone in E. exact E.
Defined.

(* ===================================================================== *)
(** * What the commands may change *)
(* ===================================================================== *)

Lemma with_settings_same (w : world) : with_settings (settings w) w = w.
Proof. now destruct w. Qed.

Lemma writes_settings_only_skip : writes_settings_only skip.
Proof. intros w. exists tt, (settings w). now rewrite with_settings_same. Qed.

Lemma writes_settings_only_modify (f : rdpSettings -> rdpSettings) :
  writes_settings_only (modify_settings f).
Proof. intros w. now exists tt, (f (settings w)). Qed.

Lemma writes_settings_only_bind {A B} (m : M A) (k : A -> M B) :
  writes_settings_only m -> (forall a, writes_settings_only (k a)) ->
  writes_settings_only (bind m k).
Proof.
  intros Hm Hk w. destruct (Hm w) as (a & s & E). unfold bind. rewrite E.
  destruct (Hk a (with_settings s w)) as (b & s' & E'). rewrite E'.
  now exists b, s'.
Qed.

Lemma writes_settings_only_get {B} (k : world -> M B) :
  (forall w, writes_settings_only (k w)) -> writes_settings_only (bind get k).
Proof. intros Hk w. rewrite bind_get. apply Hk. Qed.

Ltac settings_step :=
  lazymatch goal with
  | |- writes_settings_only (bind get _) => apply writes_settings_only_get; intros ?
  | |- writes_settings_only (bind _ _) => apply writes_settings_only_bind; [|intros ?]
  | |- writes_settings_only skip => apply writes_settings_only_skip
  | |- writes_settings_only (modify_settings _) => apply writes_settings_only_modify
  | |- writes_settings_only (if ?c then _ else _) => destruct c
  | |- writes_settings_only (match ?x with _ => _ end) => destruct x
  end.

Lemma injects_ret {A} (a : A) : injects_at_most_one (ret a).
Proof. intros w. now left. Qed.

Lemma injects_call (e : effect) : input_event e = true -> injects_at_most_one (call e).
Proof. intros He w. right. now exists e. Qed.

(** A step that leaves the state alone, before one that injects. *)
Lemma injects_bind {A B} (m : M A) (k : A -> M B) :
  (forall w, final (m w) = w) -> (forall a, injects_at_most_one (k a)) ->
  injects_at_most_one (bind m k).
Proof.
  intros Hm Hk w. unfold bind. specialize (Hm w).
  destruct (m w) as [a w1|f w1]; cbn [final] in Hm; subst w1.
  - apply Hk.
  - now left.
Qed.

Lemma final_throwing {A} (r : exn + A) (w : world) : final (throwing r w) = w.
Proof. now destruct r. Qed.

Lemma final_idiv (a b : Z) (w : world) : final (idiv a b w) = w.
Proof. unfold idiv. now destruct (b =? 0). Qed.

Ltac injects_step :=
  lazymatch goal with
  | |- injects_at_most_one (bind (throwing _) _) =>
      apply injects_bind; [intros ?; apply final_throwing|intros ?]
  | |- injects_at_most_one (bind (idiv _ _) _) =>
      apply injects_bind; [intros ?; apply final_idiv|intros ?]
  | |- injects_at_most_one (bind get _) =>
      apply injects_bind; [intros ?; reflexivity|intros ?]
  | |- injects_at_most_one skip => apply injects_ret
  | |- injects_at_most_one (call _) => apply injects_call; reflexivity
  | |- injects_at_most_one (if ?c then _ else _) => destruct c
  | |- injects_at_most_one (match ?x with _ => _ end) => destruct x
  end.

(** The frame of the handlers that work on the session state, the updates
    pipe and the effects only. *)
Section SessionFrame.
Context `{Platform}.
Context {X : Type} (f : world -> X).
Hypothesis f_myrtille : forall m w, f (with_myrtille m w) = f w.
Hypothesis f_updatesPipe : forall p w, f (with_updatesPipe p w) = f w.
Hypothesis f_effects : forall e w, f (with_effects e w) = f w.

Ltac frame_leaf :=
  apply keeps_modify; intros ?;
  first [apply f_myrtille | apply f_updatesPipe | apply f_effects].

Ltac frame_step :=
  lazymatch goal with
  | |- keeps _ (modify _) => frame_leaf
  | |- keeps _ (modify_myrtille _) => frame_leaf
  | |- keeps _ (call _) => frame_leaf
  | |- _ => keeps_step
  end.

Lemma frame_sendMessage msg : keeps f (sendMessage msg).
Proof.
  intros w. rewrite sendMessage_run. cbn [final]. unfold message_sent.
  destruct msg; [reflexivity|].
  destruct (connected (updatesPipe w)); [apply f_updatesPipe|apply f_myrtille].
Qed.

Lemma frame_sendImage bmp idx x y width height format quality stream size fullscreen :
  keeps f (sendImage bmp idx x y width height format quality stream size fullscreen).
Proof. unfold sendImage, WriteFile_updates, takeScreenshot. repeat frame_step. Qed.

Lemma frame_processImage bmp left top right bottom fullscreen adaptive :
  keeps f (processImage bmp left top right bottom fullscreen adaptive).
Proof.
  unfold processImage, reset_imageIdx, preincrement_imageIdx.
  repeat frame_step; apply frame_sendImage.
Qed.

Lemma frame_send_screen adaptive : keeps f (wf_myrtille_send_screen adaptive).
Proof.
  unfold wf_myrtille_send_screen. repeat frame_step; apply frame_processImage.
Qed.

Lemma frame_processResizeDisplay keep resolution :
  keeps f (processResizeDisplay keep resolution).
Proof. unfold processResizeDisplay. repeat frame_step. Qed.

Lemma frame_processMouseInput input flags : keeps f (processMouseInput input flags).
Proof. unfold processMouseInput. repeat frame_step. Qed.

Lemma frame_dispatch (command : COMMAND) (commandArgs : string) :
  connection_setup command = false -> keeps f (dispatch command commandArgs).
Proof.
  intros Hc. destruct command; try discriminate Hc; clear Hc;
    cbn [dispatch]; unfold send_key, send_mouse_button;
    repeat first [ apply frame_sendMessage | apply frame_send_screen
                 | apply frame_processResizeDisplay | apply frame_processMouseInput
                 | frame_step ].
Qed.

End SessionFrame.

Section CommandProofs.
Context `{Platform}.

Lemma send_server_address_writes_settings_only (commandArgs : string) :
  writes_settings_only (send_server_address commandArgs).
Proof. unfold send_server_address. repeat settings_step. Qed.

Lemma setup_writes_settings_only (command : COMMAND) (commandArgs : string) :
  connection_setup command = true ->
  writes_settings_only (dispatch command commandArgs).
Proof.
  intros Hc. destruct command; try discriminate Hc; clear Hc; cbn [dispatch].
  - apply send_server_address_writes_settings_only.
  - repeat settings_step.
  - repeat settings_step.
  - repeat settings_step.
  - repeat settings_step.
  - repeat settings_step.
Qed.

Lemma dispatch_keeps_commandMap (command : COMMAND) (commandArgs : string) :
  keeps commandMap (dispatch command commandArgs).
Proof.
  destruct (connection_setup command) eqn:Hc.
  - intros w. destruct (setup_writes_settings_only command commandArgs Hc w) as (a & s & E).
    now rewrite E.
  - apply frame_dispatch; [reflexivity..|exact Hc].
Qed.

(** X10.  Setup commands.  The six commands that set up the connection
    ([SRV], [VMG], [DOM], [USR], [PWD], [PRG]) always return, whatever their
    arguments, and change the connection settings only: the session state,
    the pipes, the command map and the recorded effects are the same
    afterwards.  None of them validates its argument. *)
Theorem setup_commands_write_settings_only (command : COMMAND) (commandArgs : string)
    (w : world) :
  connection_setup command = true ->
  exists s, dispatch command commandArgs w = Ok tt (with_settings s w).
Proof.
  intros Hc. destruct (setup_writes_settings_only command commandArgs Hc w) as ([] & s & E).
  now exists s.
Qed.

(** X11.  The handler of every other command leaves the connection alone,
    whether it returns or faults: the connection settings, the engine's
    callbacks and surfaces, the command map, the inputs pipe and the audio
    pipe are the same afterwards.  So such a handler can reach the session
    state, the updates pipe and the calls it makes (an input event, the
    start of the client thread, a saved screenshot), and nothing else. *)
Theorem other_commands_keep_connection (command : COMMAND) (commandArgs : string)
    (w : world) :
  connection_setup command = false ->
  connection (final (dispatch command commandArgs w)) = connection w.
Proof. intros Hc. apply (frame_dispatch connection); [reflexivity..|exact Hc]. Qed.

Lemma processMouseInput_injects input flags :
  injects_at_most_one (processMouseInput input flags).
Proof. unfold processMouseInput. repeat injects_step. Qed.

(** X12.  A keyboard or mouse command does one of two things: nothing at
    all, or exactly one call of the matching input callback of the RDP
    engine.  It never writes a pipe and never changes the session state or
    the settings, also when its arguments make it throw. *)
Theorem input_commands_inject_at_most_one (command : COMMAND) (commandArgs : string)
    (w : world) :
  user_input command = true ->
  final (dispatch command commandArgs w) = w
  \/ exists e, input_event e = true
               /\ final (dispatch command commandArgs w) = with_effects (effects w ++ [e]) w.
Proof.
  intros Hc. revert w.
  change (injects_at_most_one (dispatch command commandArgs)).
  destruct command; try discriminate Hc; clear Hc;
    cbn [dispatch]; unfold send_key, send_mouse_button;
    repeat first [apply processMouseInput_injects | injects_step].
Qed.

Lemma process_message_commandMap (message : string) (w : world) :
  commandMap (final (process_message message w))
  = match commandMap w !! String.substring 0 3 message with
    | Some _ => commandMap w
    | None => <[String.substring 0 3 message := SEND_SERVER_ADDRESS]> (commandMap w)
    end.
Proof.
  unfold process_message.
  assert (Htag : Str.substr message 0 3 = inr (String.substring 0 3 message))
    by reflexivity.
  rewrite Htag. cbn [throwing]. rewrite bind_ret.
  unfold commandMap_subscript. rewrite bind_bind, bind_gets.
  destruct (commandMap w !! String.substring 0 3 message) eqn:Hlook.
  - rewrite bind_ret.
    destruct (Str.substr message 3 (Str.len message - 3)) as [e|commandArgs];
      [reflexivity|].
    cbn [throwing]. rewrite bind_ret. apply dispatch_keeps_commandMap.
  - rewrite bind_bind, bind_modify, bind_ret.
    destruct (Str.substr message 3 (Str.len message - 3)) as [e|commandArgs];
      [reflexivity|].
    cbn [throwing]. rewrite bind_ret. now rewrite dispatch_keeps_commandMap.
Qed.

(** X13.  The command map only grows.  Processing a message never removes
    or rebinds a tag: afterwards the map is the one before, or the one
    before with the message's first three bytes registered for
    [SEND_SERVER_ADDRESS].  This holds whether the message is handled,
    rejected or makes the handler throw. *)
Theorem command_map_only_grows (message : string) (w : world) :
  let cm := commandMap (final (process_message message w)) in
  commandMap w ⊆ cm
  /\ (cm = commandMap w
      \/ cm = <[String.substring 0 3 message := SEND_SERVER_ADDRESS]> (commandMap w)).
Proof.
  intros cm. subst cm. rewrite process_message_commandMap.
  destruct (commandMap w !! String.substring 0 3 message) eqn:Hlook.
  - split; [reflexivity|now left].
  - split; [now apply insert_subseteq|now right].
Qed.

End CommandProofs.

Lemma setup_commands_write_settings_only_witness :
  connection_setup SEND_USER_DOMAIN = true
  /\ exists s, dispatch SEND_USER_DOMAIN "CORP" Sample.session
               = Ok tt (with_settings s Sample.session).
Proof.
  assert (Hc : connection_setup SEND_USER_DOMAIN = true) by reflexivity.
  split; [exact Hc|].
  exact (setup_commands_write_settings_only SEND_USER_DOMAIN "CORP" Sample.session Hc).
Defined.

Lemma other_commands_keep_connection_witness :
  connection_setup REQUEST_FULLSCREEN_UPDATE = false
  /\ connection (final (dispatch REQUEST_FULLSCREEN_UPDATE "adaptive" Sample.session))
     = connection Sample.session.
Proof.
  assert (Hc : connection_setup REQUEST_FULLSCREEN_UPDATE = false) by reflexivity.
  split; [exact Hc|].
  exact (other_commands_keep_connection REQUEST_FULLSCREEN_UPDATE "adaptive"
           Sample.session Hc).
Defined.

Lemma input_commands_inject_at_most_one_witness :
  let w := Sample.session in
  user_input SEND_MOUSE_LEFT_BUTTON = true
  /\ final (dispatch SEND_MOUSE_LEFT_BUTTON "110-20" w)
     = with_effects [CallMouseEvent 36864 10 20] w
  /\ (final (dispatch SEND_MOUSE_LEFT_BUTTON "110-20" w) = w
      \/ exists e, input_event e = true
                   /\ final (dispatch SEND_MOUSE_LEFT_BUTTON "110-20" w)
                      = with_effects (effects w ++ [e]) w).
Proof.
  intros w.
  assert (Hc : user_input SEND_MOUSE_LEFT_BUTTON = true) by reflexivity.
  split; [exact Hc|]. split; [vm_compute; reflexivity|].
  exact (input_commands_inject_at_most_one SEND_MOUSE_LEFT_BUTTON "110-20" w Hc).
Defined.

(* ===================================================================== *)
(** * The server address *)
(* ===================================================================== *)

Lemma append_empty (t : string) : "" +:+ t = t.
Proof. reflexivity. Qed.

Lemma append_cons (a : ascii) (s t : string) : String a s +:+ t = String a (s +:+ t).
Proof. reflexivity. Qed.

Lemma find_app_lacks (s t : string) (c : ascii) :
  lacks s c -> Str.find (s +:+ t) c = (fun i => (String.length s + i)%nat) <$> Str.find t c.
Proof.
  unfold lacks. induction s as [|a s IH]; rewrite ?append_empty, ?append_cons;
    cbn [Str.find String.length].
  - intros _. destruct (Str.find t c); reflexivity.
  - destruct (Ascii.eqb a c); [discriminate|].
    destruct (Str.find s c) eqn:Hs; [discriminate|]. intros _.
    rewrite IH by reflexivity. destruct (Str.find t c); reflexivity.
Qed.

Lemma find_app_first (s t : string) (c : ascii) :
  lacks s c -> Str.find (s +:+ String c t) c = Some (String.length s).
Proof.
  intros Hs. rewrite find_app_lacks by assumption.
  cbn [Str.find]. rewrite Ascii.eqb_refl. cbn [fmap option_fmap option_map]. f_equal. lia.
Qed.

Lemma c_str_app (s t : string) :
  lacks s zero -> Str.c_str (s +:+ t) = s +:+ Str.c_str t.
Proof.
  unfold lacks. induction s as [|a s IH]; rewrite ?append_empty, ?append_cons;
    cbn [Str.find Str.c_str].
  - reflexivity.
  - destruct (Ascii.eqb a zero); [discriminate|].
    destruct (Str.find s zero) eqn:Hs; [discriminate|]. intros _.
    now rewrite IH.
Qed.

Lemma c_str_c_str (s : string) : Str.c_str (Str.c_str s) = Str.c_str s.
Proof.
  induction s as [|a s IH]; cbn [Str.c_str]; [reflexivity|].
  destruct (Ascii.eqb a zero) eqn:Ha; [reflexivity|].
  cbn [Str.c_str]. now rewrite Ha, IH.
Qed.

Lemma atoi_c_str (s : string) : Str.atoi (Str.c_str s) = Str.atoi s.
Proof. unfold Str.atoi. now rewrite c_str_c_str. Qed.

Lemma substring_prefix (s t : string) :
  String.substring 0 (String.length s) (s +:+ t) = s.
Proof.
  induction s as [|a s IH]; rewrite ?append_empty, ?append_cons;
    cbn [String.length String.substring].
  - now destruct t.
  - now rewrite IH.
Qed.

Lemma substring_skip (s t : string) (k n : nat) :
  String.substring (String.length s + k) n (s +:+ t) = String.substring k n t.
Proof.
  induction s as [|a s IH]; rewrite ?append_empty, ?append_cons;
    cbn [String.length String.substring Nat.add].
  - reflexivity.
  - exact IH.
Qed.

Lemma substring_whole (s : string) (n : nat) :
  (String.length s <= n)%nat -> String.substring 0 n s = s.
Proof.
  revert n. induction s as [|a s IH]; intros n Hn; cbn [String.substring String.length] in *.
  - now destruct n.
  - destruct n as [|n]; [lia|]. rewrite IH by lia. reflexivity.
Qed.

Lemma substring_0_0 (s : string) : String.substring 0 0 s = ""%string.
Proof. now destruct s. Qed.

Lemma length_append (s t : string) :
  String.length (s +:+ t) = (String.length s + String.length t)%nat.
Proof.
  induction s as [|a s IH]; rewrite ?append_empty, ?append_cons;
    cbn [String.length Nat.add]; [reflexivity|now rewrite IH].
Qed.

Lemma from_after (s t : string) (c : ascii) :
  Str.from (s +:+ String c t) (String.length s + 1) = t.
Proof.
  unfold Str.from, Str.len. rewrite substring_skip.
  cbn [String.substring]. apply substring_whole.
  rewrite length_append. cbn [String.length]. lia.
Qed.

Lemma c_str_colon (s : string) : Str.c_str (String ":" s) = String ":" (Str.c_str s).
Proof. reflexivity. Qed.

Lemma bind_modify_settings {B} (f : rdpSettings -> rdpSettings) (k : unit -> M B) w :
  bind (modify_settings f) k w = k tt (with_settings (f (settings w)) w).
Proof. reflexivity. Qed.

Section AddressProofs.
Context `{Platform}.

Lemma c_str_lacks (s : string) : lacks s zero -> Str.c_str s = s.
Proof.
  unfold lacks. induction s as [|a s IH]; cbn [Str.find Str.c_str]; [reflexivity|].
  destruct (Ascii.eqb a zero); [discriminate|].
  destruct (Str.find s zero); [discriminate|]. intros _. now rewrite IH.
Qed.

(** X14.  An IPv4-style server address.  With a host that holds no colon,
    bracket or NUL, the [SRV] command given [host:port] sets the host name
    to the text before the first colon and the port to what [atoi] reads
    after it, taken as an unsigned 32-bit number: a port text that is not a
    number gives port 0, and nothing checks the range.  Given the host
    alone, it sets the host name and leaves the port as it was. *)
Theorem server_address_host_port (host port_text : string) (w : world) :
  lacks host ":" -> lacks host "[" -> lacks host zero ->
  lacks (Str.c_str port_text) "[" ->
  dispatch SEND_SERVER_ADDRESS (host +:+ String ":" port_text) w
  = Ok tt (with_settings
             (set_ServerHostname (Some host)
                (set_ServerPort (wrap_uint (Str.atoi port_text)) (settings w))) w)
  /\ dispatch SEND_SERVER_ADDRESS host w
     = Ok tt (with_settings (set_ServerHostname (Some host) (settings w)) w).
Proof.
  intros Hcolon Hbracket Hnul Hport. split.
  - cbn [dispatch]. unfold send_server_address.
    rewrite c_str_app, c_str_colon by assumption.
    rewrite bind_modify_settings.
    assert (Hb : Str.find (host +:+ String ":" (Str.c_str port_text)) "[" = None).
    { rewrite find_app_lacks by assumption. cbn [Str.find].
      change (Ascii.eqb ":" "[") with false. cbv iota.
      unfold lacks in Hport. now rewrite Hport. }
    rewrite Hb, find_app_first by assumption.
    rewrite bind_modify_settings, from_after, atoi_c_str, substring_prefix.
    reflexivity.
  - cbn [dispatch]. unfold send_server_address.
    rewrite c_str_lacks by assumption. rewrite bind_modify_settings.
    unfold lacks in Hbracket, Hcolon. rewrite Hbracket, Hcolon. reflexivity.
Qed.

(** X15.  A bracketed (IPv6) server address.  [[addr]:port] sets the host
    name to the text between the brackets, colons included, and the port to
    what [atoi] reads after the colon that follows the closing bracket;
    [[addr]] alone sets the host name and leaves the port. *)
Theorem server_address_bracketed (addr port_text : string) (w : world) :
  lacks addr "]" -> lacks addr zero ->
  dispatch SEND_SERVER_ADDRESS (String "[" (addr +:+ String "]" (String ":" port_text))) w
  = Ok tt (with_settings
             (set_ServerPort (wrap_uint (Str.atoi port_text))
                (set_ServerHostname (Some addr) (settings w))) w)
  /\ dispatch SEND_SERVER_ADDRESS (String "[" (addr +:+ "]")) w
     = Ok tt (with_settings (set_ServerHostname (Some addr) (settings w)) w).
Proof.
  intros Hclose Hnul.
  assert (Hc : forall rest, Str.c_str (String "[" (addr +:+ String "]" rest))
                            = String "[" (addr +:+ String "]" (Str.c_str rest))).
  { intros rest. change (String "[" (addr +:+ String "]" rest))
      with (String "[" addr +:+ String "]" rest) at 1.
    rewrite c_str_app.
    - reflexivity.
    - unfold lacks in *. cbn [Str.find]. change (Ascii.eqb "[" zero) with false.
      cbv iota. now rewrite Hnul. }
  assert (Hopen : forall rest, Str.find (String "[" rest) "[" = Some 0%nat) by reflexivity.
  assert (Hp2 : forall rest, Str.find (String "[" (addr +:+ String "]" rest)) "]"
                             = Some (S (String.length addr))).
  { intros rest. cbn [Str.find]. change (Ascii.eqb "[" "]") with false. cbv iota.
    now rewrite find_app_first. }
  assert (Hlen : Z.to_nat (Z.of_nat (S (String.length addr)) - Z.of_nat 0 - 1)
                 = String.length addr) by lia.
  assert (Hpos : (0 <=? Z.of_nat (S (String.length addr)) - Z.of_nat 0) = true)
    by (apply Z.leb_le; lia).
  split.
  - cbn [dispatch]. unfold send_server_address.
    rewrite Hc, c_str_colon, bind_modify_settings, Hopen, Hp2.
    cbv zeta. rewrite Hpos, bind_modify_settings, Hlen.
    unfold Str.from, Str.len.
    cbn [Nat.add String.substring]. rewrite substring_prefix.
    rewrite (substring_skip addr _ 1 1), (substring_skip addr _ 2).
    cbn [String.substring]. rewrite substring_0_0.
    change (String.eqb ":" ":") with true. cbv iota.
    rewrite substring_whole
      by (cbn [String.length]; rewrite length_append; cbn [String.length]; lia).
    rewrite atoi_c_str. reflexivity.
  - cbn [dispatch]. unfold send_server_address.
    rewrite Hc. change (Str.c_str "") with ""%string.
    rewrite bind_modify_settings, Hopen, Hp2.
    cbv zeta. rewrite Hpos, bind_modify_settings, Hlen.
    cbn [Nat.add String.substring]. rewrite substring_prefix.
    rewrite (substring_skip addr _ 1 1).
    cbn [String.substring]. reflexivity.
Qed.

(** Malformed brackets.  When the address holds an opening bracket
    and the closing one is missing or comes first, the [SRV] command
    returns with the host name cleared: the previous host name is dropped,
    nothing replaces it, and the port is left as it was. *)
Lemma server_address_malformed_brackets (commandArgs : string) (p : nat) (w : world) :
  Str.find (Str.c_str commandArgs) "[" = Some p ->
  match Str.find (Str.c_str commandArgs) "]" with
  | Some p2 => (p2 < p)%nat
  | None => True
  end ->
  dispatch SEND_SERVER_ADDRESS commandArgs w
  = Ok tt (with_settings (set_ServerHostname None (settings w)) w).
Proof.
  intros Hopen Hclose. cbn [dispatch]. unfold send_server_address.
  rewrite bind_modify_settings, Hopen.
  destruct (Str.find (Str.c_str commandArgs) "]") as [p2|]; [|reflexivity].
  cbv zeta. assert ((0 <=? Z.of_nat p2 - Z.of_nat p) = false) as -> by (apply Z.leb_gt; lia).
  reflexivity.
Qed.

End AddressProofs.

Lemma server_address_host_port_witness :
  let w := Sample.session in
  lacks "rdp.example" ":" /\ lacks "rdp.example" "[" /\ lacks "rdp.example" zero
  /\ lacks (Str.c_str "3390") "["
  /\ Str.atoi "3390" = 3390
  /\ dispatch SEND_SERVER_ADDRESS ("rdp.example" +:+ String ":" "3390") w
     = Ok tt (with_settings
                (set_ServerHostname (Some "rdp.example"%string)
                   (set_ServerPort (wrap_uint (Str.atoi "3390")) (settings w))) w).
Proof.
  intros w.
  assert (H1 : lacks "rdp.example" ":") by reflexivity.
  assert (H2 : lacks "rdp.example" "[") by reflexivity.
  assert (H3 : lacks "rdp.example" zero) by reflexivity.
  assert (H4 : lacks (Str.c_str "3390") "[") by reflexivity.
  repeat (split; [assumption|]). split; [vm_compute; reflexivity|].
  exact (proj1 (server_address_host_port "rdp.example" "3390" w H1 H2 H3 H4)).
Defined.

Lemma server_address_bracketed_witness :
  let w := Sample.session in
  lacks "fe80::1" "]" /\ lacks "fe80::1" zero
  /\ dispatch SEND_SERVER_ADDRESS (String "[" ("fe80::1" +:+ String "]" (String ":" "3390"))) w
     = Ok tt (with_settings
                (set_ServerPort (wrap_uint (Str.atoi "3390"))
                   (set_ServerHostname (Some "fe80::1"%string) (settings w))) w).
Proof.
  intros w.
  assert (H1 : lacks "fe80::1" "]") by reflexivity.
  assert (H2 : lacks "fe80::1" zero) by reflexivity.
  repeat (split; [assumption|]).
  exact (proj1 (server_address_bracketed "fe80::1" "3390" w H1 H2)).
Defined.

(* ===================================================================== *)
(** * Pointer positions *)
(* ===================================================================== *)

Lemma stoi_nonempty (s : string) (v : Z) : Str.stoi s = inr v -> String.eqb s "" = false.
Proof. destruct s; [discriminate|reflexivity]. Qed.

Lemma substr_before (s t : string) (c : ascii) :
  Str.substr (s +:+ String c t) 0 (String.length s) = inr s.
Proof. unfold Str.substr. cbn [Nat.ltb Nat.leb]. now rewrite substring_prefix. Qed.

Lemma substr_after (s t : string) (c : ascii) :
  Str.substr (s +:+ String c t) (String.length s + 1)
             (Str.len (s +:+ String c t) - String.length s - 1)
  = inr t.
Proof.
  unfold Str.substr, Str.len. rewrite length_append. cbn [String.length].
  assert ((String.length s + S (String.length t) <? String.length s + 1)%nat = false) as ->
    by (apply Nat.ltb_ge; lia).
  rewrite substring_skip. cbn [String.substring].
  rewrite substring_whole by lia. reflexivity.
Qed.

Section MouseProofs.
Context `{Platform}.

(** [processMouseInput] up to the choice between the two calls. *)
Lemma processMouseInput_parsed (mX mY : string) (x y flags : Z) (w : world) :
  MouseEvent (context_input w) = true ->
  lacks mX "-" ->
  Str.stoi mX = inr x -> Str.stoi mY = inr y -> 0 <= x -> 0 <= y ->
  processMouseInput (mX +:+ String "-" mY) flags w
  = (if pointer_scaled w
     then bind (idiv (wrap_int (x * wrap_int (DesktopWidth (settings w))))
                     (clientWidth (myrtille w)))
            (fun sx =>
               bind (idiv (wrap_int (y * wrap_int (DesktopHeight (settings w))))
                          (clientHeight (myrtille w)))
                 (fun sy => call (CallMouseEvent (wrap_uint16 flags) (wrap_uint16 sx)
                                                 (wrap_uint16 sy))))
     else call (CallMouseEvent (wrap_uint16 flags) (wrap_uint16 x) (wrap_uint16 y))) w.
Proof.
  intros Hcb Hsep Hx Hy Hx0 Hy0. unfold processMouseInput.
  rewrite bind_get, Hcb. cbn [negb].
  rewrite find_app_first by assumption.
  rewrite substr_before, substr_after. cbn [throwing]. rewrite !bind_ret.
  rewrite (stoi_nonempty mX x Hx), (stoi_nonempty mY y Hy), Hx, Hy.
  cbn [throwing]. rewrite bind_ret.
  assert ((0 <=? x) = true) as -> by (now apply Z.leb_le).
  cbn [negb orb]. rewrite bind_ret.
  assert ((0 <=? y) = true) as -> by (now apply Z.leb_le).
  cbn [negb]. cbv zeta. unfold pointer_scaled.
  destruct (scaleDisplay (myrtille w)); cbn [negb orb andb]; [|reflexivity].
  destruct ((clientWidth (myrtille w) =? wrap_int (DesktopWidth (settings w)))
            && (clientHeight (myrtille w) =? wrap_int (DesktopHeight (settings w))));
    reflexivity.
Qed.

Lemma idiv_nonneg (a b : Z) (w : world) :
  0 <= a <= INT_MAX -> 0 < b -> idiv a b w = Ok (a / b) w.
Proof.
  intros Ha Hb. unfold idiv, cdiv.
  assert ((b =? 0) = false) as -> by (apply Z.eqb_neq; lia).
  rewrite Z.quot_div_nonneg by lia.
  rewrite wrap_int_small; [reflexivity|].
  assert (0 <= a / b <= a) by (split; [apply Z.div_pos; lia|apply Z.div_le_upper_bound; nia]).
  unfold INT_MIN, INT_MAX in *. lia.
Qed.

(** X16.  Pointer positions.  For an input [x-y] of two non-negative
    numbers the mouse callback is called once.  Its parameters are
    [UINT16]: it receives the flags and the position reduced modulo 65536.
    The position is the one given when the display is not scaled, and
    [x * DesktopWidth / clientWidth], [y * DesktopHeight / clientHeight]
    (rounded down) when it is: the browser's position mapped to the
    desktop.  The mapping needs a positive client size and products that
    fit an [int].  So a position below 65536 arrives as it is, and one
    that is not arrives truncated: nothing checks it against the desktop
    size. *)
Theorem pointer_position_mapped (mX mY : string) (x y flags : Z) (w : world) :
  let dw := DesktopWidth (settings w) in
  let dh := DesktopHeight (settings w) in
  let cw := clientWidth (myrtille w) in
  let ch := clientHeight (myrtille w) in
  MouseEvent (context_input w) = true ->
  lacks mX "-" ->
  Str.stoi mX = inr x -> Str.stoi mY = inr y -> 0 <= x -> 0 <= y ->
  (pointer_scaled w = true ->
   0 < cw /\ 0 < ch /\ 0 <= dw <= INT_MAX /\ 0 <= dh <= INT_MAX
   /\ x * dw <= INT_MAX /\ y * dh <= INT_MAX) ->
  processMouseInput (mX +:+ String "-" mY) flags w
  = Ok tt (with_effects
             (effects w
              ++ [if pointer_scaled w
                  then CallMouseEvent (wrap_uint16 flags) (wrap_uint16 (x * dw / cw))
                                      (wrap_uint16 (y * dh / ch))
                  else CallMouseEvent (wrap_uint16 flags) (wrap_uint16 x)
                                      (wrap_uint16 y)]) w).
Proof.
  intros dw dh cw ch Hcb Hsep Hx Hy Hx0 Hy0 Hscaled.
  rewrite (processMouseInput_parsed mX mY x y) by assumption.
  destruct (pointer_scaled w); [|reflexivity].
  destruct (Hscaled eq_refl) as (Hcw & Hch & Hdw & Hdh & Hxw & Hyh).
  fold dw dh cw ch.
  assert (Hi : INT_MIN <= 0) by (unfold INT_MIN; lia).
  rewrite (wrap_int_small dw), (wrap_int_small dh) by lia.
  rewrite (wrap_int_small (x * dw)), (wrap_int_small (y * dh)) by nia.
  unfold bind. rewrite idiv_nonneg by (try split; nia).
  rewrite idiv_nonneg by (try split; nia). reflexivity.
Qed.

(** X17.  A client size of zero.  With scaling on and a client width or
    height of zero (a resize command can set either), a well-formed
    pointer input divides by zero: no event is injected and the fault is
    not caught. *)
Theorem pointer_zero_client_size_faults (mX mY : string) (x y flags : Z) (w : world) :
  MouseEvent (context_input w) = true ->
  lacks mX "-" ->
  Str.stoi mX = inr x -> Str.stoi mY = inr y -> 0 <= x -> 0 <= y ->
  pointer_scaled w = true ->
  clientWidth (myrtille w) = 0 \/ clientHeight (myrtille w) = 0 ->
  processMouseInput (mX +:+ String "-" mY) flags w = Fault integer_divide_by_zero w.
Proof.
  intros Hcb Hsep Hx Hy Hx0 Hy0 Hscaled Hzero.
  rewrite (processMouseInput_parsed mX mY x y) by assumption.
  rewrite Hscaled. unfold bind, idiv.
  destruct (clientWidth (myrtille w) =? 0) eqn:Hcw; [reflexivity|].
  destruct Hzero as [Hz|Hz]; [apply Z.eqb_neq in Hcw; contradiction|].
  rewrite Hz. reflexivity.
Qed.

End MouseProofs.

Lemma pointer_position_mapped_witness :
  let scaled := with_myrtille
                  (set_scaleDisplay true
                     (set_clientWidth 512 (set_clientHeight 384 (myrtille Sample.session))))
                  Sample.session in
  let w := Sample.session in
  pointer_scaled scaled = true
  /\ processMouseInput ("100" +:+ String "-" "50") 2048 scaled
     = Ok tt (with_effects [CallMouseEvent 2048 200 100] scaled)
  /\ pointer_scaled w = false
  /\ processMouseInput ("70000" +:+ String "-" "65536") 2048 w
     = Ok tt (with_effects [CallMouseEvent 2048 4464 0] w).
Proof.
  intros scaled w. split; [reflexivity|].
  assert (Hsep : lacks "100" "-") by reflexivity.
  assert (Hx : Str.stoi "100" = inr 100) by (vm_compute; reflexivity).
  assert (Hy : Str.stoi "50" = inr 50) by (vm_compute; reflexivity).
  assert (Hx0 : 0 <= 100) by lia.
  assert (Hy0 : 0 <= 50) by lia.
  assert (Hs : pointer_scaled scaled = true ->
               0 < clientWidth (myrtille scaled) /\ 0 < clientHeight (myrtille scaled)
               /\ 0 <= DesktopWidth (settings scaled) <= INT_MAX
               /\ 0 <= DesktopHeight (settings scaled) <= INT_MAX
               /\ 100 * DesktopWidth (settings scaled) <= INT_MAX
               /\ 50 * DesktopHeight (settings scaled) <= INT_MAX).
  { intros _. repeat split; try (vm_compute; reflexivity); vm_compute; discriminate. }
  pose proof (pointer_position_mapped "100" "50" 100 50 2048 scaled eq_refl
                Hsep Hx Hy Hx0 Hy0 Hs) as E.
  split; [rewrite E; vm_compute; reflexivity|].
  split; [reflexivity|].
  assert (Hsep' : lacks "70000" "-") by reflexivity.
  assert (Hx' : Str.stoi "70000" = inr 70000) by (vm_compute; reflexivity).
  assert (Hy' : Str.stoi "65536" = inr 65536) by (vm_compute; reflexivity).
  assert (Hx0' : 0 <= 70000) by lia.
  assert (Hy0' : 0 <= 65536) by lia.
  assert (Hs' : pointer_scaled w = true ->
               0 < clientWidth (myrtille w) /\ 0 < clientHeight (myrtille w)
               /\ 0 <= DesktopWidth (settings w) <= INT_MAX
               /\ 0 <= DesktopHeight (settings w) <= INT_MAX
               /\ 70000 * DesktopWidth (settings w) <= INT_MAX
               /\ 65536 * DesktopHeight (settings w) <= INT_MAX).
  { intros Hf. discriminate Hf. }
  pose proof (pointer_position_mapped "70000" "65536" 70000 65536 2048 w eq_refl
                Hsep' Hx' Hy' Hx0' Hy0' Hs') as E'.
  rewrite E'. vm_compute. reflexivity.
Defined.

Lemma pointer_zero_client_size_faults_witness :
  let w := with_myrtille
             (set_scaleDisplay true
                (set_clientWidth 0 (set_clientHeight 0 (myrtille Sample.session))))
             Sample.session in
  pointer_scaled w = true
  /\ clientWidth (myrtille w) = 0
  /\ processMouseInput ("100" +:+ String "-" "50") 2048 w = Fault integer_divide_by_zero w.
Proof.
  intros w.
  assert (Hcb : MouseEvent (context_input w) = true) by reflexivity.
  assert (Hsep : lacks "100" "-") by reflexivity.
  assert (Hx : Str.stoi "100" = inr 100) by (vm_compute; reflexivity).
  assert (Hy : Str.stoi "50" = inr 50) by (vm_compute; reflexivity).
  assert (Hx0 : 0 <= 100) by lia.
  assert (Hy0 : 0 <= 50) by lia.
  assert (Hs : pointer_scaled w = true) by reflexivity.
  assert (Hz : clientWidth (myrtille w) = 0 \/ clientHeight (myrtille w) = 0)
    by (left; reflexivity).
  split; [exact Hs|]. split; [reflexivity|].
  exact (pointer_zero_client_size_faults "100" "50" 100 50 2048 w Hcb Hsep Hx Hy Hx0 Hy0 Hs Hz).
Defined.

(* ===================================================================== *)
(** * Soundness of the throttle *)
(* ===================================================================== *)

Lemma count_region_range (m : wf_myrtille) :
  0 <= imageCount m <= INT_MAX ->
  1 <= imageCount (count_region m) <= INT_MAX
  /\ imageBuffer (count_region m) = imageBuffer m
  /\ imageQuantity (count_region m) = imageQuantity m.
Proof.
  intros Hc. unfold count_region.
  destruct (imageCount m =? INT_MAX) eqn:E.
  - split; [|split; reflexivity]. vm_compute. split; discriminate.
  - apply Z.eqb_neq in E. split; [|split; reflexivity].
    cbn [imageCount set_imageCount].
    rewrite wrap_int_small by (unfold INT_MIN, INT_MAX in *; lia). lia.
Qed.

Lemma consolidate_accepted (s : rdpSettings) (region b : RECT.t) :
  accumulator_ok s b -> region_rejected s region = false ->
  region_rejected s (consolidate region b) = false
  /\ covers (consolidate region b) region
  /\ consolidate region b <> imageBuffer_unset.
Proof.
  intros [->|Hb] Hr.
  - rewrite consolidate_unset. split; [exact Hr|]. split.
    + unfold covers. lia.
    + apply region_accepted_iff in Hr. intros E. rewrite E in Hr. cbn in Hr. lia.
  - rewrite consolidate_union by (now apply accepted_nonneg with s).
    apply region_accepted_iff in Hr. apply region_accepted_iff in Hb.
    split; [|split].
    + apply region_accepted_iff. unfold rect_union. cbn [RECT.left RECT.top RECT.right RECT.bottom]. lia.
    + unfold covers, rect_union. cbn [RECT.left RECT.top RECT.right RECT.bottom]. lia.
    + unfold rect_union, imageBuffer_unset. intros [= E _ _ _]. lia.
Qed.

(** The regulator keeps the counter and the accumulator sound. *)
Lemma ips_regulator_keeps_sound (s : rdpSettings) (m : wf_myrtille) (region : RECT.t) :
  0 <= imageCount m <= INT_MAX ->
  accumulator_ok s (imageBuffer m) ->
  region_rejected s region = false ->
  1 <= imageCount (fst (ips_regulator m region)) <= INT_MAX
  /\ accumulator_ok s (imageBuffer (fst (ips_regulator m region))).
Proof.
  intros Hc Hb Hr.
  destruct (count_region_range m Hc) as (Hc' & Hb' & Hq').
  unfold ips_regulator.
  set (m1 := count_region m) in *.
  destruct (throttled_quantity (imageQuantity m1)).
  - destruct (consolidate_accepted s region (imageBuffer m1)) as (Ha & _ & _);
      [now rewrite Hb'|exact Hr|].
    cbn [imageBuffer imageCount imageQuantity set_imageBuffer].
    destruct (negb (cmod (imageCount m1) (cdiv 100 (imageQuantity m1)) =? 0));
      cbn [fst imageBuffer imageCount set_imageBuffer].
    + split; [exact Hc'|now right].
    + split; [exact Hc'|now left].
  - cbn [fst]. split; [exact Hc'|now rewrite Hb'].
Qed.

(** X18.  Soundness of the throttle, for every quantity and every counter
    value, the wrap at [INT_MAX] included.  From a sound state, an accepted
    region event leaves the state sound: the counter stays in [1, INT_MAX]
    (it never overflows) and the accumulator is unset or accepted.  A
    rectangle that is forwarded passes the consistency check itself and
    holds the event's rectangle; an event that is not forwarded is held by
    the accumulator, so no damaged area is forgotten. *)
Theorem throttle_sound (s : rdpSettings) (m : wf_myrtille) (region : RECT.t) :
  0 <= imageCount m <= INT_MAX ->
  accumulator_ok s (imageBuffer m) ->
  region_rejected s region = false ->
  let m' := fst (ips_regulator m region) in
  1 <= imageCount m' <= INT_MAX
  /\ accumulator_ok s (imageBuffer m')
  /\ match snd (ips_regulator m region) with
     | Some forwarded => region_rejected s forwarded = false /\ covers forwarded region
     | None => covers (imageBuffer m') region
     end.
Proof.
  intros Hc Hb Hr.
  destruct (ips_regulator_keeps_sound s m region Hc Hb Hr) as [Hc1 Hb1].
  cbv zeta. split; [exact Hc1|]. split; [exact Hb1|]. clear Hc1 Hb1.
  destruct (count_region_range m Hc) as (_ & Hb' & _).
  unfold ips_regulator.
  set (m1 := count_region m) in *.
  destruct (throttled_quantity (imageQuantity m1)).
  - destruct (consolidate_accepted s region (imageBuffer m1)) as (Ha & Hcov & _);
      [now rewrite Hb'|exact Hr|].
    set (b := consolidate region (imageBuffer m1)) in *.
    cbn [imageBuffer imageCount imageQuantity set_imageBuffer].
    destruct (negb (cmod (imageCount m1) (cdiv 100 (imageQuantity m1)) =? 0));
      cbn [fst snd imageBuffer imageCount set_imageBuffer]; [exact Hcov|].
    pose proof Ha as Ha'. apply region_accepted_iff in Ha'.
    assert ((RECT.top b =? -1) = false) as -> by lia.
    assert ((RECT.left b =? -1) = false) as -> by lia.
    assert ((RECT.bottom b =? -1) = false) as -> by lia.
    assert ((RECT.right b =? -1) = false) as -> by lia.
    cbn [negb andb]. rewrite rect_eta. split; [exact Ha|exact Hcov].
  - cbn [fst snd]. split; [exact Hr|]. unfold covers. lia.
Qed.

Lemma throttle_sound_witness :
  let s := Sample.desktop in
  let m := set_imageCount INT_MAX
             (set_imageBuffer (RECT.mk 5 30 15 40)
                (myrtille (Sample.session_with IMAGE_ENCODING.AUTO 50 50))) in
  let region := RECT.mk 10 10 20 20 in
  0 <= imageCount m <= INT_MAX
  /\ accumulator_ok s (imageBuffer m)
  /\ region_rejected s region = false
  /\ imageCount (fst (ips_regulator m region)) = 1
  /\ snd (ips_regulator m region) = None
  /\ covers (imageBuffer (fst (ips_regulator m region))) region.
Proof.
  intros s m region.
  assert (Hc : 0 <= imageCount m <= INT_MAX) by (vm_compute; split; discriminate).
  assert (Hb : accumulator_ok s (imageBuffer m)) by (right; reflexivity).
  assert (Hr : region_rejected s region = false) by reflexivity.
  split; [exact Hc|]. split; [exact Hb|]. split; [exact Hr|].
  split; [vm_compute; reflexivity|]. split; [vm_compute; reflexivity|].
  pose proof (throttle_sound s m region Hc Hb Hr) as (_ & _ & Hcov).
  assert (Hnone : snd (ips_regulator m region) = None) by (vm_compute; reflexivity).
  rewrite Hnone in Hcov. exact Hcov.
Defined.

Lemma throttle_ok_view (w w' : world) :
  throttle_view w' = throttle_view w -> throttle_ok w -> throttle_ok w'.
Proof.
  unfold throttle_view, throttle_ok, accumulator_ok, region_rejected.
  intros [= Hw Hh Hc Hb]. rewrite Hw, Hh, Hc, Hb. tauto.
Qed.

Section ThrottleInvariant.
Context `{Platform}.

Lemma keeps_throttle_view_sendImage bmp idx x y width height format quality stream size fullscreen :
  keeps throttle_view (sendImage bmp idx x y width height format quality stream size fullscreen).
Proof. unfold sendImage, WriteFile_updates, takeScreenshot. keeps_all. Qed.

Lemma keeps_throttle_view_processImage bmp left top right bottom fullscreen adaptive :
  keeps throttle_view (processImage bmp left top right bottom fullscreen adaptive).
Proof.
  unfold processImage, reset_imageIdx, preincrement_imageIdx.
  keeps_all; apply keeps_throttle_view_sendImage.
Qed.

Lemma keeps_throttle_view_send_screen adaptive :
  keeps throttle_view (wf_myrtille_send_screen adaptive).
Proof.
  unfold wf_myrtille_send_screen. keeps_all; apply keeps_throttle_view_processImage.
Qed.

Lemma keeps_throttle_view_send_cursor : keeps throttle_view wf_myrtille_send_cursor.
Proof.
  unfold wf_myrtille_send_cursor, reset_imageIdx, preincrement_imageIdx.
  keeps_all; apply keeps_throttle_view_sendImage.
Qed.

Lemma keeps_throttle_view_extract hdc region :
  keeps throttle_view (extract_and_process hdc region).
Proof.
  unfold extract_and_process. keeps_all; apply keeps_throttle_view_processImage.
Qed.

Lemma keeps_throttle_view_sendMessage msg : keeps throttle_view (sendMessage msg).
Proof.
  intros w. rewrite sendMessage_run. cbn [final]. unfold message_sent.
  destruct msg; [reflexivity|]. now destruct (connected (updatesPipe w)).
Qed.

Lemma keeps_throttle_view_dispatch command commandArgs :
  keeps throttle_view (dispatch command commandArgs).
Proof.
  destruct command; cbn [dispatch];
    unfold send_server_address, send_key, send_mouse_button, processMouseInput,
      processResizeDisplay;
    repeat first [ apply keeps_throttle_view_sendMessage
                 | apply keeps_throttle_view_send_screen
                 | keeps_step ].
Qed.

Lemma send_region_throttle_ok (region : RECT.t) (w : world) :
  throttle_ok w -> throttle_ok (final (wf_myrtille_send_region region w)).
Proof.
  intros Hok. unfold wf_myrtille_send_region. rewrite bind_get.
  destruct (MyrtilleSessionId (settings w)); [|exact Hok].
  destruct (primary w) as [hdc|]; [|exact Hok].
  destruct (region_rejected (settings w) region) eqn:Hr; [exact Hok|].
  destruct Hok as [Hc Hb].
  pose proof (ips_regulator_keeps_sound (settings w) (myrtille w) region Hc Hb Hr) as (Hc' & Hb').
  destruct (ips_regulator (myrtille w) region) as [m forwarded]. cbn [fst] in Hc', Hb'.
  rewrite bind_modify.
  assert (Hok' : throttle_ok (with_myrtille m w)).
  { split; cbn [myrtille settings with_myrtille]; [lia|exact Hb']. }
  destruct forwarded as [r|]; [|exact Hok'].
  eapply throttle_ok_view; [apply keeps_throttle_view_extract|exact Hok'].
Qed.

Lemma keeps_throttle_view_process_message message :
  keeps throttle_view (process_message message).
Proof.
  unfold process_message, commandMap_subscript.
  repeat first [apply keeps_throttle_view_dispatch | keeps_step].
Qed.

(** X19.  The throttle stays sound for the whole session.  Soundness (the
    counter a non-negative [int], the accumulator unset or accepted) is kept
    by each of the three producers and by every message the reader
    processes, whether they return or fault: no command touches the
    counter, the accumulator or the desktop size.  The state that
    [wf_myrtille_start] sets up is sound, so every state of a session is. *)
Theorem throttle_stays_sound (p : producer) (message : string) (w : world) :
  throttle_ok w ->
  throttle_ok (final (produce p w))
  /\ throttle_ok (final (process_message message w)).
Proof.
  intros Hok. split.
  - destruct p as [region|adaptive|]; cbn [produce].
    + now apply send_region_throttle_ok.
    + eapply throttle_ok_view; [apply keeps_throttle_view_send_screen|exact Hok].
    + eapply throttle_ok_view; [apply keeps_throttle_view_send_cursor|exact Hok].
  - eapply throttle_ok_view; [apply keeps_throttle_view_process_message|exact Hok].
Qed.

End ThrottleInvariant.

Lemma throttle_stays_sound_witness :
  let w := Sample.session in
  myrtille w = wf_myrtille_start (settings w)
  /\ throttle_ok w
  /\ throttle_ok (final (produce (Region (RECT.mk 10 10 20 20)) w))
  /\ throttle_ok (final (process_message "QNT50" w)).
Proof.
  intros w.
  assert (Hok : throttle_ok w).
  { split; [vm_compute; split; discriminate|left; reflexivity]. }
  split; [reflexivity|]. split; [exact Hok|].
  exact (throttle_stays_sound (Region (RECT.mk 10 10 20 20)) "QNT50" w Hok).
Defined.

(* ===================================================================== *)
(** * The throttle from any state, and through the producer *)
(* ===================================================================== *)

(** The accumulator that holds the union of [pending], after [regions]. *)
Lemma accumulate_pending (pending regions : list RECT.t) :
  Forall nonneg pending -> Forall nonneg regions ->
  accumulate (bounding_union pending) regions = bounding_union (pending ++ regions)
  /\ (pending ++ regions <> [] -> nonneg (bounding_union (pending ++ regions))).
Proof.
  intros Hp Hr. destruct pending as [|p ps].
  - cbn [bounding_union app]. destruct regions as [|r rs].
    + split; [reflexivity|congruence].
    + destruct (accumulate_group (r :: rs)) as [Hu Hn]; [discriminate|assumption|].
      split; [exact Hu|intros _; exact Hn].
  - inversion Hp as [|? ? Hp1 Hps]; subst.
    destruct (accumulate_union p ps Hp1 Hps) as [_ Hn].
    destruct (accumulate_union (foldl rect_union p ps) regions Hn Hr) as [Hu Hn'].
    cbn [bounding_union app]. rewrite foldl_app. split; [exact Hu|intros _; exact Hn'].
Qed.

Lemma before_boundary (k c i : Z) :
  0 < k -> 1 <= i < k - c mod k -> (c + i) mod k <> 0.
Proof.
  intros Hk Hi. pose proof (Z.mod_pos_bound c k Hk) as Hc.
  rewrite Z.add_mod, (Z.mod_small i), Z.mod_small by lia. lia.
Qed.

Lemma at_boundary (k c : Z) : 0 < k -> (c + (k - c mod k)) mod k = 0.
Proof.
  intros Hk. pose proof (Z.div_mod c k ltac:(lia)) as Hc.
  replace (c + (k - c mod k)) with ((c / k + 1) * k) by lia.
  apply Z.mod_mul. lia.
Qed.

(** The events that complete the group in progress: the last is forwarded,
    with the union of what the accumulator held and of these events. *)
Lemma regulate_head (pending head : list RECT.t) (m : wf_myrtille) :
  let k := 100 / imageQuantity m in
  throttled_quantity (imageQuantity m) = true ->
  imageBuffer m = bounding_union pending ->
  0 <= imageCount m ->
  Z.of_nat (length head) = k - imageCount m mod k ->
  imageCount m + Z.of_nat (length head) <= INT_MAX ->
  Forall nonneg pending -> Forall nonneg head ->
  regulate m head
  = (throttle_state (imageCount m + Z.of_nat (length head)) imageBuffer_unset m,
     replicate (length head - 1) None ++ [Some (bounding_union (pending ++ head))]).
Proof.
  intros k Hq Hb Hc Hlen Hmax Hp Hh.
  destruct (throttled_quantity_divisor _ Hq) as [_ Hk]. fold k in Hk.
  pose proof (Z.mod_pos_bound (imageCount m) k ltac:(lia)) as Hmod.
  destruct head as [|last init _] using rev_ind; [cbn [length] in Hlen; lia|].
  rewrite length_app in *. cbn [length] in *.
  apply Forall_app in Hh as [Hinit Hlast].
  rewrite regulate_app.
  rewrite (regulate_drops (imageQuantity m) Hq init m);
    [|reflexivity|assumption|lia|intros i Hi; apply before_boundary; fold k; lia].
  cbn [fst snd regulate].
  destruct (accumulate_pending pending (init ++ [last])) as [Hu Hn];
    [assumption|now apply Forall_app|].
  assert (Hacc : accumulate (bounding_union pending) (init ++ [last])
                 = consolidate last (accumulate (bounding_union pending) init)).
  { unfold accumulate. rewrite foldl_app. reflexivity. }
  rewrite (ips_regulator_flush (imageQuantity m) Hq); cycle 1.
  - reflexivity.
  - cbn [throttle_state imageCount set_imageBuffer set_imageCount]. lia.
  - cbn [throttle_state imageCount set_imageBuffer set_imageCount]. fold k.
    replace (imageCount m + Z.of_nat (length init) + 1)
      with (imageCount m + (k - imageCount m mod k)) by lia.
    apply at_boundary; lia.
  - cbn [throttle_state imageBuffer set_imageBuffer set_imageCount].
    rewrite Hb, <- Hacc, Hu. apply Hn. intros E.
    apply app_eq_nil in E as [_ E]. apply app_eq_nil in E as [_ E]. discriminate.
  - cbn [throttle_state imageCount imageBuffer set_imageBuffer set_imageCount].
    rewrite Hb, <- Hacc, Hu.
    replace (length init + 1 - 1)%nat with (length init) by lia.
    cbn [fst snd]. rewrite throttle_state_twice.
    replace (imageCount m + Z.of_nat (length init) + 1)
      with (imageCount m + Z.of_nat (length init + 1)) by lia.
    reflexivity.
Qed.

(** Events that do not complete the group in progress. *)
Lemma regulate_short (pending short : list RECT.t) (m : wf_myrtille) :
  let k := 100 / imageQuantity m in
  throttled_quantity (imageQuantity m) = true ->
  imageBuffer m = bounding_union pending ->
  0 <= imageCount m ->
  Z.of_nat (length short) < k - imageCount m mod k ->
  imageCount m + Z.of_nat (length short) <= INT_MAX ->
  Forall nonneg pending -> Forall nonneg short ->
  regulate m short
  = (throttle_state (imageCount m + Z.of_nat (length short))
                    (bounding_union (pending ++ short)) m,
     replicate (length short) None).
Proof.
  intros k Hq Hb Hc Hlen Hmax Hp Hs.
  destruct (throttled_quantity_divisor _ Hq) as [_ Hk]. fold k in Hk.
  rewrite (regulate_drops (imageQuantity m) Hq short m);
    [|reflexivity|assumption|lia|intros i Hi; apply before_boundary; fold k; lia].
  rewrite Hb. now destruct (accumulate_pending pending short Hp Hs) as [-> _].
Qed.

(** The regulator writes the counter and the accumulator only, and reads
    nothing but them and the quantity. *)
Lemma ips_regulator_throttle_state (m : wf_myrtille) (region : RECT.t) :
  let m' := fst (ips_regulator m region) in
  m' = throttle_state (imageCount m') (imageBuffer m') m.
Proof.
  cbv zeta. unfold ips_regulator, count_region, throttle_state.
  destruct m.
  repeat match goal with
         | |- context [if ?c then _ else _] => destruct c
         end; reflexivity.
Qed.

Lemma ips_regulator_reads (m1 m2 : wf_myrtille) (region : RECT.t) :
  imageQuantity m1 = imageQuantity m2 ->
  imageCount m1 = imageCount m2 ->
  imageBuffer m1 = imageBuffer m2 ->
  snd (ips_regulator m1 region) = snd (ips_regulator m2 region)
  /\ imageQuantity (fst (ips_regulator m1 region)) = imageQuantity (fst (ips_regulator m2 region))
  /\ imageCount (fst (ips_regulator m1 region)) = imageCount (fst (ips_regulator m2 region))
  /\ imageBuffer (fst (ips_regulator m1 region)) = imageBuffer (fst (ips_regulator m2 region)).
Proof.
  intros Hq Hc Hb. unfold ips_regulator.
  assert (Hq' : imageQuantity (count_region m1) = imageQuantity (count_region m2)).
  { unfold count_region. rewrite Hc.
    destruct (imageCount m2 =? INT_MAX); exact Hq. }
  assert (Hc' : imageCount (count_region m1) = imageCount (count_region m2)).
  { unfold count_region. rewrite Hc.
    destruct (imageCount m2 =? INT_MAX);
      cbn [imageCount set_imageCount]; [reflexivity|now rewrite Hc]. }
  assert (Hb' : imageBuffer (count_region m1) = imageBuffer (count_region m2)).
  { unfold count_region. rewrite Hc.
    destruct (imageCount m2 =? INT_MAX); exact Hb. }
  revert Hq' Hc' Hb'. generalize (count_region m1), (count_region m2).
  intros n1 n2 Hq' Hc' Hb'. cbv zeta.
  cbn [imageQuantity imageCount imageBuffer set_imageBuffer].
  rewrite Hq', Hc', Hb'.
  repeat match goal with
         | |- context [if ?c then _ else _] => destruct c
         end; cbn [fst snd imageQuantity imageCount imageBuffer set_imageBuffer];
    repeat split; solve [reflexivity | assumption].
Qed.

Lemma regulate_reads (regions : list RECT.t) (m1 m2 : wf_myrtille) :
  imageQuantity m1 = imageQuantity m2 ->
  imageCount m1 = imageCount m2 ->
  imageBuffer m1 = imageBuffer m2 ->
  snd (regulate m1 regions) = snd (regulate m2 regions).
Proof.
  revert m1 m2. induction regions as [|r rs IH]; intros m1 m2 Hq Hc Hb; [reflexivity|].
  cbn [regulate].
  destruct (ips_regulator_reads m1 m2 r Hq Hc Hb) as (Hf & Hq' & Hc' & Hb').
  destruct (ips_regulator m1 r) as [n1 f1], (ips_regulator m2 r) as [n2 f2].
  cbn [fst snd] in *. specialize (IH n1 n2 Hq' Hc' Hb').
  destruct (regulate n1 rs), (regulate n2 rs). cbn [snd] in *. congruence.
Qed.

Section RegionCalls.
Context `{Platform}.

(** One call of the producer on an accepted event: the regulator, then the
    extraction and encoding of what it forwards. *)
Lemma send_region_regulated (hdc : Bitmap) (region : RECT.t) (w : world) :
  MyrtilleSessionId (settings w) <> None ->
  primary w = Some hdc ->
  region_rejected (settings w) region = false ->
  let w' := with_myrtille (fst (ips_regulator (myrtille w) region)) w in
  wf_myrtille_send_region region w
  = match snd (ips_regulator (myrtille w) region) with
    | None => Ok tt w'
    | Some consolidated => extract_and_process hdc consolidated w'
    end.
Proof.
  intros Hid Hp Hr. cbv zeta. unfold wf_myrtille_send_region. rewrite bind_get.
  destruct (MyrtilleSessionId (settings w)); [|congruence].
  rewrite Hp, Hr.
  destruct (ips_regulator (myrtille w) region) as [m forwarded]. cbn [fst snd].
  rewrite bind_modify. now destruct forwarded.
Qed.

(** The calls of the producer forward what the regulator does, event after
    event. *)
Lemma region_calls_regulate (hdc : Bitmap) (regions : list RECT.t) (w : world) :
  MyrtilleSessionId (settings w) <> None ->
  primary w = Some hdc ->
  Forall (fun region => region_rejected (settings w) region = false) regions ->
  region_calls_forward hdc w regions (snd (regulate (myrtille w) regions)).
Proof.
  revert w. induction regions as [|region rest IH]; intros w Hid Hp Hrs; [exact I|].
  inversion Hrs as [|? ? Hr Hrest]; subst.
  cbn [regulate].
  pose proof (send_region_regulated hdc region w Hid Hp Hr) as Hcall. cbv zeta in Hcall.
  pose proof (ips_regulator_throttle_state (myrtille w) region) as Hst. cbv zeta in Hst.
  pose proof (keeps_configuration_send_region region w) as Hconf.
  assert (Hview : throttle_view (final (wf_myrtille_send_region region w))
                  = throttle_view (with_myrtille (fst (ips_regulator (myrtille w) region)) w)).
  { rewrite Hcall. destruct (snd (ips_regulator (myrtille w) region)); [|reflexivity].
    apply keeps_throttle_view_extract. }
  destruct (ips_regulator (myrtille w) region) as [m forwarded]. cbn [fst snd] in *.
  set (o := wf_myrtille_send_region region w) in *.
  unfold configuration, session_configuration in Hconf.
  injection Hconf as Hs _ _ Hpr _ _ _ _ _ _ Hq _ _ _ _ _ _ _ _ _ _.
  unfold throttle_view in Hview. cbn [myrtille settings with_myrtille] in Hview.
  injection Hview as _ _ Hc Hb.
  assert (Hq' : imageQuantity m = imageQuantity (myrtille w)).
  { rewrite Hst. apply throttle_state_quantity. }
  specialize (IH (final o)). rewrite Hs, Hpr in IH. specialize (IH Hid Hp Hrest).
  rewrite (regulate_reads rest (myrtille (final o)) m) in IH by congruence.
  destruct (regulate m rest) as [m2 others]. cbn [snd] in IH.
  cbn [region_calls_forward]. fold o. split; [|exact IH].
  exists (imageCount m), (imageBuffer m). cbv zeta. rewrite <- Hst. exact Hcall.
Qed.

(** C2 (as amended): for a quantity in {5, 10, 20, 25, 50}, from any state
    of the throttle (any value of the event counter; the accumulator unset,
    or holding the bounding union of [pending], the accepted events it took
    in) and as long as the event counter does not reach its wrap at
    [INT_MAX], the events forwarded are those that bring the counter to a
    multiple of 100/quantity.  With [head] the events that complete the
    group in progress, the last of [head] is forwarded with the bounding
    union of [pending] and [head]; then exactly one event of each
    consecutive group of 100/quantity events is forwarded, the last one,
    with the bounding union of the group; each forward resets the
    accumulator to unset (-1 everywhere); the events of an incomplete last
    group, and those of a sequence too short to complete the group in
    progress, are not forwarded and stay in the accumulator.  The calls of
    [wf_myrtille_send_region] on these events, each on the state the
    previous call left, forward just that: a call that forwards nothing
    returns with only the counter and the accumulator changed, and a call
    that forwards a rectangle extracts and encodes that rectangle.  With
    the quantity 100 every event is forwarded with its own rectangle, and
    the accumulator is left as it is. *)
Theorem throttle_one_per_group (s : rdpSettings) (m : wf_myrtille)
    (pending : list RECT.t) :
  let k := 100 / imageQuantity m in
  let accepted := Forall (fun region => region_rejected s region = false) in
  let session w hdc :=
    settings w = s /\ myrtille w = m
    /\ MyrtilleSessionId s <> None /\ primary w = Some hdc in
  throttled_quantity (imageQuantity m) = true ->
  imageBuffer m = bounding_union pending ->
  0 <= imageCount m ->
  accepted pending ->
  (forall head groups tail,
      let events := head ++ concat groups ++ tail in
      let forwards :=
        replicate (length head - 1) None ++ [Some (bounding_union (pending ++ head))]
        ++ concat (group_forwards <$> groups) ++ replicate (length tail) None in
      Z.of_nat (length head) = k - imageCount m mod k ->
      Forall (fun group => Z.of_nat (length group) = k) groups ->
      Z.of_nat (length tail) < k ->
      imageCount m + Z.of_nat (length events) <= INT_MAX ->
      accepted events ->
      snd (regulate m events) = forwards
      /\ imageCount (fst (regulate m events)) = imageCount m + Z.of_nat (length events)
      /\ imageBuffer (fst (regulate m (head ++ concat groups))) = imageBuffer_unset
      /\ imageBuffer (fst (regulate m events)) = bounding_union tail
      /\ (forall w hdc, session w hdc -> region_calls_forward hdc w events forwards))
  /\ (forall short,
        Z.of_nat (length short) < k - imageCount m mod k ->
        imageCount m + Z.of_nat (length short) <= INT_MAX ->
        accepted short ->
        snd (regulate m short) = replicate (length short) None
        /\ imageCount (fst (regulate m short)) = imageCount m + Z.of_nat (length short)
        /\ imageBuffer (fst (regulate m short)) = bounding_union (pending ++ short)
        /\ (forall w hdc, session w hdc ->
              region_calls_forward hdc w short (replicate (length short) None)))
  /\ (forall m100 regions,
        imageQuantity m100 = 100 ->
        snd (regulate m100 regions) = Some <$> regions
        /\ imageBuffer (fst (regulate m100 regions)) = imageBuffer m100)
  /\ (forall w hdc regions,
        imageQuantity (myrtille w) = 100 ->
        MyrtilleSessionId (settings w) <> None -> primary w = Some hdc ->
        Forall (fun region => region_rejected (settings w) region = false) regions ->
        region_calls_forward hdc w regions (Some <$> regions)).
Proof.
  intros k accepted session Hq Hb Hc Hpending.
  destruct (throttled_quantity_divisor _ Hq) as [_ Hk]. fold k in Hk.
  pose proof (Z.mod_pos_bound (imageCount m) k ltac:(lia)) as Hmod.
  assert (Hnp : Forall nonneg pending)
    by (eapply Forall_impl; [exact Hpending|apply accepted_nonneg]).
  split; [|split; [|split]].
  - intros head groups tail events forwards Hhead Hlens Htail Hmax Hevents.
    pose proof Hevents as Hvalid.
    unfold events in Hvalid. apply Forall_app in Hvalid as [Hvh Hvalid].
    apply Forall_app in Hvalid as [Hvg Hvt].
    assert (Hnh : Forall nonneg head)
      by (eapply Forall_impl; [exact Hvh|apply accepted_nonneg]).
    assert (Hnt : Forall nonneg tail)
      by (eapply Forall_impl; [exact Hvt|apply accepted_nonneg]).
    assert (Hcount : Z.of_nat (length events)
                     = Z.of_nat (length head) + k * Z.of_nat (length groups)
                       + Z.of_nat (length tail)).
    { unfold events. rewrite !length_app, !Nat2Z.inj_add.
      rewrite (length_concat_groups k groups Hlens). lia. }
    assert (Hgs : Forall (fun g => Z.of_nat (length g) = k /\ Forall nonneg g) groups).
    { clear Hcount Hmax Hevents. induction Hlens as [|g gs Hg Hgs IH]; [constructor|].
      cbn [concat] in Hvg. apply Forall_app in Hvg as [Hv1 Hv2].
      constructor; [|now apply IH].
      split; [exact Hg|]. eapply Forall_impl; [exact Hv1|]. apply accepted_nonneg. }
    assert (Hrun : forall rest,
               Z.of_nat (length rest) < k -> Forall nonneg rest ->
               imageCount m + Z.of_nat (length head) + k * Z.of_nat (length groups)
               + Z.of_nat (length rest) <= INT_MAX ->
               regulate m (head ++ concat groups ++ rest)
               = (throttle_state (imageCount m + Z.of_nat (length head)
                                  + k * Z.of_nat (length groups) + Z.of_nat (length rest))
                                 (bounding_union rest) m,
                  replicate (length head - 1) None
                  ++ [Some (bounding_union (pending ++ head))]
                  ++ concat (group_forwards <$> groups) ++ replicate (length rest) None)).
    { intros rest Hrest Hnr Hbound. rewrite regulate_app.
      rewrite (regulate_head pending head m) by (assumption || (fold k; lia)).
      cbn [fst snd].
      rewrite (regulate_groups (imageQuantity m) Hq groups rest); cycle 1.
      - apply throttle_state_quantity.
      - apply throttle_state_buffer.
      - rewrite throttle_state_count. lia.
      - rewrite throttle_state_count. fold k. rewrite Hhead. apply at_boundary; lia.
      - rewrite throttle_state_count. fold k. lia.
      - exact Hgs.
      - exact Hrest.
      - rewrite throttle_state_twice, throttle_state_count. fold k.
        destruct (accumulate_pending [] rest) as [Hu _]; [constructor|assumption|].
        cbn [bounding_union app] in Hu. rewrite Hu, <- app_assoc. reflexivity. }
    assert (Hall : snd (regulate m events) = forwards).
    { unfold events. rewrite Hrun by (assumption || lia). reflexivity. }
    split; [exact Hall|].
    split; [unfold events; rewrite Hrun by (assumption || lia); cbn [fst];
            rewrite throttle_state_count; fold events; lia|].
    split.
    { rewrite <- (app_nil_r (concat groups)).
      rewrite Hrun by (cbn [length]; constructor || lia). reflexivity. }
    split; [unfold events; rewrite Hrun by (assumption || lia); cbn [fst];
            apply throttle_state_buffer|].
    intros w hdc (Hs & Hm & Hid & Hp). subst s m. rewrite <- Hall.
    now apply region_calls_regulate.
  - intros short Hshort Hmax Hvs.
    assert (Hns : Forall nonneg short)
      by (eapply Forall_impl; [exact Hvs|apply accepted_nonneg]).
    pose proof (regulate_short pending short m Hq Hb Hc Hshort Hmax Hnp Hns) as Hrun.
    split; [now rewrite Hrun|].
    split; [rewrite Hrun; apply throttle_state_count|].
    split; [rewrite Hrun; apply throttle_state_buffer|].
    intros w hdc (Hs & Hm & Hid & Hp). subst s m.
    replace (replicate (length short) None) with (snd (regulate (myrtille w) short))
      by (now rewrite Hrun).
    now apply region_calls_regulate.
  - intros m100 regions H100. apply regulate_unthrottled. now rewrite H100.
  - intros w hdc regions H100 Hid Hp Hrs.
    destruct (regulate_unthrottled regions (myrtille w)) as [<- _]; [now rewrite H100|].
    now apply region_calls_regulate.
Qed.

End RegionCalls.

Lemma throttle_one_per_group_witness :
  let s := Sample.desktop in
  let held := RECT.mk 10 10 20 20 in
  let m := set_imageCount 2
             (set_imageBuffer held (myrtille (Sample.session_with IMAGE_ENCODING.AUTO 50 25))) in
  let head := [RECT.mk 5 30 15 40; RECT.mk 50 2 60 8] in
  let group := [RECT.mk 100 100 120 120; RECT.mk 90 110 95 130;
                RECT.mk 140 105 150 108; RECT.mk 101 101 102 102] in
  let tail := [RECT.mk 1 1 2 2] in
  throttled_quantity (imageQuantity m) = true
  /\ imageBuffer m = bounding_union [held]
  /\ imageCount m mod (100 / imageQuantity m) = 2
  /\ snd (regulate m (head ++ concat [group] ++ tail))
     = [None; Some (RECT.mk 5 2 60 40);
        None; None; None; Some (RECT.mk 90 100 150 130);
        None]
  /\ imageBuffer (fst (regulate m (head ++ concat [group] ++ tail))) = RECT.mk 1 1 2 2
  /\ snd (regulate m [RECT.mk 5 30 15 40]) = [None]
  /\ imageBuffer (fst (regulate m [RECT.mk 5 30 15 40])) = RECT.mk 5 10 20 40.
Proof.
  intros s held m head group tail.
  assert (Hq : throttled_quantity (imageQuantity m) = true) by reflexivity.
  assert (Hb : imageBuffer m = bounding_union [held]) by reflexivity.
  assert (Hc : 0 <= imageCount m) by (vm_compute; discriminate).
  assert (Hp : Forall (fun region => region_rejected s region = false) [held])
    by (repeat constructor).
  destruct (throttle_one_per_group s m [held] Hq Hb Hc Hp) as (Hgroups & Hshort & _).
  destruct (Hgroups head [group] tail) as (Hf & _ & _ & Ht & _).
  { reflexivity. }
  { repeat constructor. }
  { vm_compute. reflexivity. }
  { vm_compute. discriminate. }
  { repeat constructor. }
  destruct (Hshort [RECT.mk 5 30 15 40]) as (Hs & _ & Hsb & _).
  { vm_compute. reflexivity. }
  { vm_compute. discriminate. }
  { repeat constructor. }
  split; [exact Hq|]. split; [exact Hb|]. split; [reflexivity|].
  split; [rewrite Hf; reflexivity|]. split; [rewrite Ht; reflexivity|].
  split; [rewrite Hs; reflexivity|]. rewrite Hsb. reflexivity.
Defined.

(** C2, the claim as stated fails in two ways.  At the wrap of the event
    counter: with the quantity 50 (groups of two), the accumulator unset
    and the counter at [INT_MAX - 1], a multiple of two, neither of the
    next two events is forwarded; the third is, with the union of all
    three.  After a change of quantity: the accumulator is not reset when
    the quantity is set.  With the quantity 25 one event is taken in; the
    quantity is set to 100 and three events are forwarded as they are; the
    quantity is set back to 25: the fourth event from there is forwarded
    with a rectangle that holds the event taken in before the three
    forwards, not the bounding union of the events since the previous
    forward. *)
Lemma throttle_counterexample :
  (let m := set_imageCount (INT_MAX - 1)
              (myrtille (Sample.session_with IMAGE_ENCODING.AUTO 50 50)) in
   let r1 := RECT.mk 10 10 20 20 in
   let r2 := RECT.mk 5 30 15 40 in
   let r3 := RECT.mk 50 2 60 8 in
   throttled_quantity (imageQuantity m) = true
   /\ imageBuffer m = imageBuffer_unset
   /\ imageCount m mod (100 / imageQuantity m) = 0
   /\ snd (regulate m [r1; r2; r3]) = [None; None; Some (bounding_union [r1; r2; r3])]
   /\ snd (regulate m [r1; r2; r3])
      <> group_forwards [r1; r2] ++ replicate 1 None)
  /\ (let send region w := final (wf_myrtille_send_region region w) in
      let command message w := final (process_message message w) in
      let w0 := Sample.session_with IMAGE_ENCODING.AUTO 50 25 in
      let w1 := send (RECT.mk 3 3 200 200) w0 in
      let w2 := command "QNT100" w1 in
      let w3 := send (RECT.mk 50 50 60 60)
                  (send (RECT.mk 30 30 40 40) (send (RECT.mk 10 10 20 20) w2)) in
      let w4 := command "QNT25" w3 in
      let since := [RECT.mk 300 300 310 310; RECT.mk 320 300 330 310;
                    RECT.mk 300 320 310 330; RECT.mk 320 320 330 330] in
      let w5 := foldl (fun w region => send region w) w4 since in
      imageQuantity (myrtille w4) = 25
      /\ imageCount (myrtille w4) = 4
      /\ imageBuffer (myrtille w4) = RECT.mk 3 3 200 200
      /\ frame_rect <$> written (updatesPipe w4)
         = [(10, 10, 10, 10); (30, 30, 10, 10); (50, 50, 10, 10)]
      /\ snd (regulate (myrtille w4) since) = [None; None; None; Some (RECT.mk 3 3 330 330)]
      /\ bounding_union since = RECT.mk 300 300 330 330
      /\ new_frames w4 w5 <> []
      /\ frame_rect <$> new_frames w4 w5 = [(3, 3, 327, 327)]).
Proof. vm_compute. repeat split; try reflexivity; discriminate. Qed.

(* ===================================================================== *)
(** * Fixed encodings and the screenshot trigger *)
(* ===================================================================== *)

Section ImageProofs.
Context `{Platform}.

(** X20.  The fixed encodings on the wire.  With the encoding PNG, JPEG or
    WEBP, [processImage] runs that encoder only and, when its stream is not
    empty and the pipe is open, writes one image message with the matching
    format: PNG always at quality 100, JPEG and WEBP at the quality of the
    update (75 for an adaptive fullscreen update, the client-set quality
    otherwise).  With an encoding that is none of AUTO, PNG, JPEG, WEBP
    (the [ECD] command stores any number) no image message is written. *)
Theorem fixed_encoding_frames (w : world) (bmp : Bitmap)
    (left top right bottom : Z) (fullscreen adaptive : bool) :
  0 <= imageIdx (myrtille w) <= INT_MAX ->
  let quality := initial_quality (myrtille w) fullscreen adaptive in
  let frames :=
    new_frames w (final (processImage bmp left top right bottom fullscreen adaptive w)) in
  let message format quality payload :=
    if (0 <? stream_size payload) && image_sent w (wrap_int (stream_size payload))
    then [image_message (next_idx (imageIdx (myrtille w))) left top
            (wrap_int (right - left)) (wrap_int (bottom - top))
            format quality fullscreen (stream_read payload (wrap_int (stream_size payload)))]
    else [] in
  (imageEncoding (myrtille w) = IMAGE_ENCODING.PNG ->
   frames = message IMAGE_FORMAT.PNG 100 (Save_png bmp))
  /\ (imageEncoding (myrtille w) = IMAGE_ENCODING.JPEG ->
      frames = message IMAGE_FORMAT.JPEG quality (Save_jpeg bmp quality))
  /\ (imageEncoding (myrtille w) = IMAGE_ENCODING.WEBP ->
      frames = message IMAGE_FORMAT.WEBP quality (WebPEncode bmp quality))
  /\ (imageEncoding (myrtille w) < 0 \/ 3 < imageEncoding (myrtille w) ->
      frames = []).
Proof.
  intros Hidx quality frames message. subst frames.
  rewrite processImage_frames by assumption. cbv zeta. unfold selected_stream.
  repeat split; intros E.
  - rewrite encode_image_png by assumption. cbn [enc_stream enc_size enc_format enc_quality].
    subst message. cbv beta. now destruct (0 <? stream_size (Save_png bmp)).
  - rewrite encode_image_jpeg by assumption. cbn [enc_stream enc_size enc_format enc_quality].
    subst message. cbv beta. fold quality.
    now destruct (0 <? stream_size (Save_jpeg bmp quality)).
  - rewrite encode_image_webp by assumption. cbn [enc_stream enc_size enc_format enc_quality].
    subst message. cbv beta. fold quality.
    now destruct (0 <? stream_size (WebPEncode bmp quality)).
  - now rewrite encode_image_unsupported.
Qed.

End ImageProofs.

Lemma takeScreenshot_saved (bmp : Bitmap) (w : world) :
  takeScreenshot bmp w = Ok tt (with_effects (effects w ++ screenshot_saved w bmp) w).
Proof.
  unfold takeScreenshot, screenshot_saved. rewrite bind_get. cbv zeta.
  destruct (String.eqb (screenshotPath (myrtille w)) "") eqn:Hpath; cbn [negb].
  - unfold skip, ret. now rewrite app_nil_r, with_effects_id.
  - assert (Hsub : Str.substr (screenshotPath (myrtille w))
                              (Str.len (screenshotPath (myrtille w)) - 1) 1
                   = inr (String.substring (Str.len (screenshotPath (myrtille w)) - 1) 1
                                           (screenshotPath (myrtille w)))).
    { unfold Str.substr.
      assert ((Str.len (screenshotPath (myrtille w))
               <? Str.len (screenshotPath (myrtille w)) - 1)%nat = false) as ->
        by (apply Nat.ltb_ge; lia).
      reflexivity. }
    rewrite Hsub. cbn [throwing]. rewrite bind_ret. unfold screenshot_file. cbv zeta.
    destruct (screenshotFormat (myrtille w) =? IMAGE_FORMAT.PNG) eqn:Hpng.
    + apply Z.eqb_eq in Hpng. rewrite Hpng. cbn [orb].
      reflexivity.
    + cbn [orb]. destruct (screenshotFormat (myrtille w) =? IMAGE_FORMAT.JPEG) eqn:Hjpg.
      * apply Z.eqb_eq in Hjpg. rewrite Hjpg.
        reflexivity.
      * unfold skip, ret. now rewrite app_nil_r, with_effects_id.
Qed.

(** X21.  The screenshot trigger is one-shot and only a fullscreen image
    consumes it.  When [sendImage] gets to send (the size fits), a region
    or cursor image leaves the trigger and the recorded effects as they
    were; a fullscreen image with the trigger set clears it and saves the
    bitmap once, to the configured folder under the session id, whether the
    pipe write succeeded or not.  With no folder configured, or a format
    that is neither PNG nor JPEG, the trigger is still consumed and nothing
    is saved. *)
Theorem screenshot_trigger_one_shot (bmp : Bitmap) (idx x y width height format quality : Z)
    (stream : list Z) (size : Z) (fullscreen : bool) (w : world) :
  0 <= size <= INT_MAX - 40 ->
  let w' := final (sendImage bmp idx x y width height format quality stream size
                             fullscreen w) in
  screenshotEnabled (myrtille w') = screenshotEnabled (myrtille w) && negb fullscreen
  /\ effects w'
     = effects w ++ (if screenshotEnabled (myrtille w) && fullscreen
                     then screenshot_saved w bmp else []).
Proof.
  intros Hsize. rewrite sendImage_unfold. unfold new_array.
  assert ((size <? 0) = false) as -> by lia.
  rewrite bind_ret.
  assert (Hw40 : wrap_int (size + 40) = size + 40).
  { apply wrap_int_small. unfold INT_MIN, INT_MAX in *. lia. }
  rewrite Hw40. assert ((size + 40 <? 0) = false) as -> by lia.
  rewrite bind_ret.
  unfold write_image, WriteFile_updates.
  rewrite !bind_bind, bind_gets.
  destruct (connected (updatesPipe w)).
  - rewrite bind_bind, bind_modify, bind_ret, bind_skip, bind_gets.
    cbn [myrtille with_updatesPipe].
    destruct (screenshotEnabled (myrtille w)) eqn:He; destruct fullscreen; cbn [andb negb].
    + rewrite bind_modify_myrtille, takeScreenshot_saved. cbn [final].
      split; [reflexivity|]. cbn [effects with_effects with_myrtille with_updatesPipe].
      reflexivity.
    + cbn [final skip ret myrtille with_updatesPipe effects]. rewrite He, app_nil_r. now split.
    + cbn [final skip ret myrtille with_updatesPipe effects]. rewrite He, app_nil_r. now split.
    + cbn [final skip ret myrtille with_updatesPipe effects]. rewrite He, app_nil_r. now split.
  - rewrite bind_ret, bind_modify_myrtille, bind_gets.
    cbn [myrtille with_myrtille screenshotEnabled set_processInputs].
    destruct (screenshotEnabled (myrtille w)) eqn:He; destruct fullscreen; cbn [andb negb].
    + rewrite bind_modify_myrtille, takeScreenshot_saved. cbn [final].
      split; [reflexivity|]. reflexivity.
    + cbn [final skip ret myrtille with_myrtille effects screenshotEnabled set_processInputs].
      rewrite He, app_nil_r. now split.
    + cbn [final skip ret myrtille with_myrtille effects screenshotEnabled set_processInputs].
      rewrite He, app_nil_r. now split.
    + cbn [final skip ret myrtille with_myrtille effects screenshotEnabled set_processInputs].
      rewrite He, app_nil_r. now split.
Qed.

Lemma fixed_encoding_frames_witness :
  let w := Sample.session_with IMAGE_ENCODING.JPEG 25 100 in
  let bmp := Sample.blank 3 5 in
  0 <= imageIdx (myrtille w) <= INT_MAX
  /\ imageEncoding (myrtille w) = IMAGE_ENCODING.JPEG
  /\ new_frames w (final (processImage bmp 0 0 3 5 false false w))
     = [image_message 1 0 0 3 5 IMAGE_FORMAT.JPEG 25 false [74; 74; 74; 74; 74]].
Proof.
  intros w bmp.
  assert (Hidx : 0 <= imageIdx (myrtille w) <= INT_MAX) by (vm_compute; split; discriminate).
  assert (Hjpeg : imageEncoding (myrtille w) = IMAGE_ENCODING.JPEG) by reflexivity.
  split; [exact Hidx|]. split; [exact Hjpeg|].
  destruct (fixed_encoding_frames w bmp 0 0 3 5 false false Hidx) as (_ & E & _).
  rewrite (E Hjpeg). vm_compute. reflexivity.
Defined.

Lemma screenshot_trigger_one_shot_witness :
  let w := with_myrtille
             (set_screenshotEnabled true
                (set_screenshotPath "C:\shots" (myrtille Sample.session)))
             Sample.session in
  let w' := final (sendImage (Sample.blank 1 1) 1 0 0 1 1 1 100 [80] 1 true w) in
  0 <= 1 <= INT_MAX - 40
  /\ screenshotEnabled (myrtille w') = false
  /\ effects w' = [CallSaveScreenshot "C:\shots\42_.png" IMAGE_FORMAT.PNG (Sample.blank 1 1)].
Proof.
  intros w w'.
  assert (Hsize : 0 <= 1 <= INT_MAX - 40) by (vm_compute; split; discriminate).
  split; [exact Hsize|].
  destruct (screenshot_trigger_one_shot (Sample.blank 1 1) 1 0 0 1 1 1 100 [80] 1 true w Hsize)
    as [E1 E2].
  split.
  - subst w'. rewrite E1. reflexivity.
  - subst w'. rewrite E2. vm_compute. reflexivity.
Defined.

(* ===================================================================== *)
(** * The clipboard bridge *)
(* ===================================================================== *)

Lemma wc_str_text (text rest : list Z) :
  no_nul text -> wc_str (text ++ 0 :: rest) = text.
Proof.
  induction 1 as [|u text Hu _ IH]; cbn [wc_str app]; [reflexivity|].
  apply Z.eqb_neq in Hu. now rewrite Hu, IH.
Qed.

Lemma wc_str_no_nul (text : list Z) : no_nul text -> wc_str text = text.
Proof.
  induction 1 as [|u text Hu _ IH]; cbn [wc_str]; [reflexivity|].
  apply Z.eqb_neq in Hu. now rewrite Hu, IH.
Qed.

Lemma no_nul_take (n : nat) (text : list Z) : no_nul text -> no_nul (take n text).
Proof. apply Forall_take. Qed.

Lemma send_server_clipboard_text (text rest : list Z) (w : world) :
  MyrtilleSessionId (settings w) <> None ->
  no_nul text ->
  Z.of_nat (length text) < 2 ^ 63 ->
  wf_myrtille_send_server_clipboard (text ++ 0 :: rest) (2 * (Z.of_nat (length text) + 1)) w
  = sendMessage (clipboard_message text) w.
Proof.
  intros Hid Hnul Hlen. unfold wf_myrtille_send_server_clipboard. rewrite bind_get.
  destruct (MyrtilleSessionId (settings w)); [|contradiction]. cbv zeta.
  assert (Hn : wrap_size_t (2 * (Z.of_nat (length text) + 1) / 2 - 1)
               = Z.of_nat (length text)).
  { unfold wrap_size_t.
    replace (2 * (Z.of_nat (length text) + 1)) with ((Z.of_nat (length text) + 1) * 2) by lia.
    rewrite Z.div_mul by lia. rewrite Z.mod_small by lia. lia. }
  rewrite Hn. unfold clipboard_message.
  destruct (Z.of_nat (length text) <=? CLIPBOARD_MAX_LENGTH_SEND) eqn:Hfit.
  - assert ((CLIPBOARD_MAX_LENGTH_SEND <? Z.of_nat (length text)) = false) as ->
      by (apply Z.leb_le in Hfit; lia).
    rewrite Nat2Z.id, take_app_length. now rewrite wc_str_no_nul.
  - apply Z.leb_gt in Hfit.
    assert ((CLIPBOARD_MAX_LENGTH_SEND <? Z.of_nat (length text)) = true) as -> by lia.
    rewrite take_app_le by lia.
    rewrite wc_str_no_nul by (now apply no_nul_take).
    now rewrite <- app_assoc.
Qed.

(** X22.  The server clipboard on the wire.  With a session id, a clipboard
    buffer holding a NUL-terminated text of [n] units (the size counting the
    terminator) goes out as one text message: [clipboard|] and the text
    when [n] is at most [CLIPBOARD_MAX_LENGTH_SEND]; otherwise [clipboard|],
    the first [CLIPBOARD_MAX_LENGTH_SEND] units and the marker
    [--- TRUNCATED ---].  What follows the terminator in the buffer is never
    sent. *)
Theorem server_clipboard_message (text rest : list Z) (w : world) :
  MyrtilleSessionId (settings w) <> None ->
  no_nul text ->
  Z.of_nat (length text) < 2 ^ 63 ->
  wf_myrtille_send_server_clipboard (text ++ 0 :: rest) (2 * (Z.of_nat (length text) + 1)) w
  = sendMessage
      (wstr "clipboard|"
       ++ (if Z.of_nat (length text) <=? CLIPBOARD_MAX_LENGTH_SEND
           then text
           else take (Z.to_nat CLIPBOARD_MAX_LENGTH_SEND) text ++ wstr "--- TRUNCATED ---")) w.
Proof. apply send_server_clipboard_text. Qed.

(** X23.  Size conventions of the two clipboard directions agree.  What
    [wf_myrtille_read_client_clipboard] hands out for the stored client
    text (the text with its terminator, and the size in bytes counting the
    terminator) is exactly what [wf_myrtille_send_server_clipboard] takes:
    fed back, the stored text goes out unchanged after [clipboard|]. *)
Theorem clipboard_round_trip (w : world) :
  MyrtilleSessionId (settings w) <> None ->
  no_nul (clipboardText (myrtille w)) ->
  Z.of_nat (length (clipboardText (myrtille w))) <= CLIPBOARD_MAX_LENGTH_SEND ->
  exists data size,
    wf_myrtille_read_client_clipboard w = Ok (Some (data, size)) w
    /\ wf_myrtille_send_server_clipboard data size w
       = sendMessage (wstr "clipboard|" ++ clipboardText (myrtille w)) w.
Proof.
  intros Hid Hnul Hfit.
  exists (clipboardText (myrtille w) ++ [0]),
         (Z.of_nat ((length (clipboardText (myrtille w)) + 1) * 2)).
  split.
  - unfold wf_myrtille_read_client_clipboard. rewrite bind_get.
    destruct (MyrtilleSessionId (settings w)); [reflexivity|contradiction].
  - replace (Z.of_nat ((length (clipboardText (myrtille w)) + 1) * 2))
      with (2 * (Z.of_nat (length (clipboardText (myrtille w))) + 1)) by lia.
    rewrite send_server_clipboard_text; try assumption.
    + unfold clipboard_message. apply Z.leb_le in Hfit. now rewrite Hfit.
    + unfold CLIPBOARD_MAX_LENGTH_SEND in Hfit. lia.
Qed.


Lemma server_clipboard_message_witness :
  let w := Sample.session in
  let text := wstr "copied" in
  MyrtilleSessionId (settings w) <> None
  /\ no_nul text
  /\ Z.of_nat (length text) < 2 ^ 63
  /\ written (updatesPipe
                (final (wf_myrtille_send_server_clipboard (text ++ 0 :: [7; 7]) 14 w)))
     = [text_message (wstr "clipboard|copied")].
Proof.
  intros w text.
  assert (Hid : MyrtilleSessionId (settings w) <> None) by discriminate.
  assert (Hnul : no_nul text) by (repeat constructor; discriminate).
  assert (Hlen : Z.of_nat (length text) < 2 ^ 63) by (vm_compute; reflexivity).
  split; [exact Hid|]. split; [exact Hnul|]. split; [exact Hlen|].
  pose proof (server_clipboard_message text [7; 7] w Hid Hnul Hlen) as E.
  change (2 * (Z.of_nat (length text) + 1)) with 14 in E.
  rewrite E. vm_compute. reflexivity.
Defined.

Lemma clipboard_round_trip_witness :
  let w := final (dispatch SEND_LOCAL_CLIPBOARD "copied" Sample.session) in
  MyrtilleSessionId (settings w) <> None
  /\ no_nul (clipboardText (myrtille w))
  /\ Z.of_nat (length (clipboardText (myrtille w))) <= CLIPBOARD_MAX_LENGTH_SEND
  /\ exists data size,
       wf_myrtille_read_client_clipboard w = Ok (Some (data, size)) w
       /\ wf_myrtille_send_server_clipboard data size w
          = sendMessage (wstr "clipboard|" ++ clipboardText (myrtille w)) w.
Proof.
  intros w.
  assert (Hid : MyrtilleSessionId (settings w) <> None) by discriminate.
  assert (Hnul : no_nul (clipboardText (myrtille w))) by (repeat constructor; discriminate).
  assert (Hfit : Z.of_nat (length (clipboardText (myrtille w))) <= CLIPBOARD_MAX_LENGTH_SEND)
    by (vm_compute; discriminate).
  split; [exact Hid|]. split; [exact Hnul|]. split; [exact Hfit|].
  exact (clipboard_round_trip w Hid Hnul Hfit).
Defined.


(* ===================================================================== *)
(** * The session guard and the command table *)
(* ===================================================================== *)

Section SessionProofs.
Context `{Platform}.

(** Without a Myrtille session id the bridge is inert.  Every entry
    point the RDP client calls (the three image producers, the two
    clipboard functions, the print job and the audio notifications) returns
    at once: nothing is written to a pipe, no counter moves, no state
    changes, and the client clipboard is not handed out. *)
Lemma bridge_inert_without_session (w : world) :
  MyrtilleSessionId (settings w) = None ->
  (forall p, produce p w = Ok tt w)
  /\ wf_myrtille_read_client_clipboard w = Ok None w
  /\ (forall data size, wf_myrtille_send_server_clipboard data size w = Ok tt w)
  /\ (forall printJobName, wf_myrtille_send_printjob printJobName w = Ok tt w)
  /\ (forall data, wf_myrtille_send_audio data w = Ok tt w).
Proof.
  intros Hid. repeat split.
  - intros [region|adaptive|]; cbn [produce];
      unfold wf_myrtille_send_region, wf_myrtille_send_screen, wf_myrtille_send_cursor;
      rewrite bind_get, Hid; reflexivity.
  - unfold wf_myrtille_read_client_clipboard. now rewrite bind_get, Hid.
  - intros data size. unfold wf_myrtille_send_server_clipboard. now rewrite bind_get, Hid.
  - intros name. unfold wf_myrtille_send_printjob. now rewrite bind_get, Hid.
  - intros data. unfold wf_myrtille_send_audio. now rewrite bind_get, Hid.
Qed.

End SessionProofs.

Lemma command_table_lookup (tag : string) (c : COMMAND) :
  commandMap_start !! tag = Some c <-> tag = COMMAND_tag c.
Proof.
  split.
  - intros Hlook. apply elem_of_list_to_map_2 in Hlook.
    repeat (apply elem_of_cons in Hlook as [[= -> ->]|Hlook]; [reflexivity|]).
    now apply elem_of_nil in Hlook.
  - intros ->. destruct c; vm_compute; reflexivity.
Qed.

(** Every command can be requested, by exactly one tag.  In a session
    whose command map is the one [wf_myrtille_start] fills in, a message
    made of a command's tag and arguments is dispatched to that command
    with those arguments, and the tag is the only key of the map that
    leads to the command: the table is a one-to-one correspondence between
    31 tags and the 31 commands. *)
Lemma command_table_one_to_one `{Platform} (c : COMMAND) (commandArgs : string)
    (w : world) :
  commandMap w = commandMap_start ->
  process_message (COMMAND_tag c +:+ commandArgs) w = dispatch c commandArgs w
  /\ (forall tag, commandMap w !! tag = Some c <-> tag = COMMAND_tag c)
  /\ size (commandMap w) = 31%nat.
Proof.
  intros Hmap. split; [|split].
  - assert (Hlook : commandMap w !! COMMAND_tag c = Some c)
      by (rewrite Hmap; now apply command_table_lookup).
    destruct c; exact (process_message_known_tag w _ _ _ commandArgs _ Hlook).
  - intros tag. rewrite Hmap. apply command_table_lookup.
  - rewrite Hmap. vm_compute. reflexivity.
Qed.

(* ===================================================================== *)
(** * Splitting arguments *)
(* ===================================================================== *)

Lemma getline_lacks (s : string) (delim : ascii) :
  lacks s delim -> Str.getline s delim = (s, None).
Proof.
  unfold lacks. induction s as [|a s IH]; cbn [Str.find Str.getline]; [reflexivity|].
  destruct (Ascii.eqb a delim); [discriminate|].
  destruct (Str.find s delim); [discriminate|]. intros _. now rewrite IH.
Qed.

Lemma getline_delim (s t : string) (delim : ascii) :
  lacks s delim -> Str.getline (s +:+ String delim t) delim = (s, Some t).
Proof.
  unfold lacks. induction s as [|a s IH]; rewrite ?append_empty, ?append_cons;
    cbn [Str.find Str.getline].
  - now rewrite Ascii.eqb_refl.
  - destruct (Ascii.eqb a delim); [discriminate|].
    destruct (Str.find s delim); [discriminate|]. intros _. now rewrite IH.
Qed.

Lemma split_loop_joined (delim : ascii) (items : list string) (last : string) (fuel : nat) :
  Forall (fun item => lacks item delim) items -> lacks last delim ->
  (String.length (joined delim items last) < fuel)%nat ->
  Str.split_loop fuel (joined delim items last) delim
  = items ++ (if String.eqb last "" then [] else [last]).
Proof.
  intros Hitems Hlast. revert fuel.
  induction Hitems as [|item items Hitem _ IH]; intros fuel Hfuel; cbn [joined foldr] in *.
  - destruct fuel as [|fuel]; [lia|]. cbn [Str.split_loop app].
    destruct last as [|a last]; [reflexivity|].
    rewrite getline_lacks by assumption. reflexivity.
  - fold (joined delim items last) in *.
    destruct fuel as [|fuel]; [lia|]. cbn [Str.split_loop].
    rewrite getline_delim by assumption.
    rewrite length_append in Hfuel. cbn [String.length] in Hfuel.
    rewrite IH by lia.
    destruct (item +:+ String delim (joined delim items last)) eqn:E; [|reflexivity].
    destruct item; discriminate E.
Qed.

(** X25.  What [split] gives.  A string made of items that hold no
    delimiter, each followed by one delimiter, and a last piece, splits
    into exactly those items and the last piece; an empty last piece is
    dropped.  So [a|b|c] has three items, an empty item in the middle
    ([a||c]) is kept, and a trailing delimiter ([a|b|]) adds none; the
    empty string has no item. *)
Theorem split_joined (delim : ascii) (items : list string) (last : string) :
  Forall (fun item => lacks item delim) items -> lacks last delim ->
  Str.split (joined delim items last) delim
  = items ++ (if String.eqb last "" then [] else [last]).
Proof.
  intros Hitems Hlast. unfold Str.split. apply split_loop_joined; try assumption.
  unfold Str.len. lia.
Qed.

Lemma split_joined_witness :
  Forall (fun item => lacks item "|") ["1"%string; ""%string] /\ lacks "800x600" "|"
  /\ joined "|" ["1"%string; ""%string] "800x600" = "1||800x600"%string
  /\ Str.split "1||800x600" "|" = ["1"%string; ""%string; "800x600"%string].
Proof.
  assert (Hitems : Forall (fun item => lacks item "|") ["1"%string; ""%string])
    by (repeat constructor).
  assert (Hlast : lacks "800x600" "|") by reflexivity.
  split; [exact Hitems|]. split; [exact Hlast|]. split; [reflexivity|].
  exact (split_joined "|" ["1"%string; ""%string] "800x600" Hitems Hlast).
Defined.

Lemma split_two (a b : string) (delim : ascii) :
  lacks a delim -> lacks b delim -> b <> ""%string ->
  Str.split (a +:+ String delim b) delim = [a; b].
Proof.
  intros Ha Hb Hne.
  change (a +:+ String delim b) with (joined delim [a] b). unfold Str.split.
  rewrite split_loop_joined by (try unfold Str.len; repeat constructor; try assumption; lia).
  destruct b; [contradiction|reflexivity].
Qed.

Lemma split_three (a b c : string) (delim : ascii) :
  lacks a delim -> lacks b delim -> lacks c delim -> c <> ""%string ->
  Str.split (a +:+ String delim (b +:+ String delim c)) delim = [a; b; c].
Proof.
  intros Ha Hb Hc Hne.
  change (a +:+ String delim (b +:+ String delim c)) with (joined delim [a; b] c).
  unfold Str.split.
  rewrite split_loop_joined by (try unfold Str.len; repeat constructor; try assumption; lia).
  destruct c; [contradiction|reflexivity].
Qed.

Section KeyProofs.
Context `{Platform}.

(** X26.  Key events.  [KUC] with [code-pressed] calls the Unicode keyboard
    callback, [KSC] with [code-pressed-extended] the scancode one, once.
    The parameters of the callbacks are [UINT16]: the callee receives the
    code [atoi] reads reduced modulo 65536 (a code point above the basic
    plane arrives truncated) and the flags, down for [pressed] = 1 and
    release for anything else, with the extended flag for [extended] = 1.
    A [KSC] command with two fields only injects nothing. *)
Theorem key_events (code pressed extend : string) (w : world) :
  lacks code "-" -> lacks pressed "-" -> lacks extend "-" ->
  pressed <> ""%string -> extend <> ""%string ->
  UnicodeKeyboardEvent (context_input w) = true ->
  KeyboardEvent (context_input w) = true ->
  let updown := if String.eqb pressed "1" then KBD_FLAGS_DOWN else KBD_FLAGS_RELEASE in
  dispatch SEND_KEY_UNICODE (code +:+ String "-" pressed) w
  = Ok tt (with_effects
             (effects w ++ [CallUnicodeKeyboardEvent (wrap_uint16 updown)
                                                     (wrap_uint16 (Str.atoi code))]) w)
  /\ dispatch SEND_KEY_SCANCODE (code +:+ String "-" (pressed +:+ String "-" extend)) w
     = Ok tt (with_effects
                (effects w
                 ++ [CallKeyboardEvent
                       (wrap_uint16
                          (Z.lor (if String.eqb extend "1" then KBD_FLAGS_EXTENDED else 0)
                                 updown))
                       (wrap_uint16 (Str.atoi code))]) w)
  /\ dispatch SEND_KEY_SCANCODE (code +:+ String "-" pressed) w = Ok tt w.
Proof.
  intros Hcode Hpressed Hextend Hp He Hu Hk updown.
  split; [|split]; cbn [dispatch]; unfold send_key.
  - rewrite split_two by assumption. rewrite bind_get.
    destruct (decide (SEND_KEY_UNICODE = SEND_KEY_UNICODE)) as [_|Hne]; [|contradiction].
    rewrite Hu. reflexivity.
  - rewrite split_three by assumption. rewrite bind_get.
    destruct (decide (SEND_KEY_SCANCODE = SEND_KEY_UNICODE)) as [Heq|_]; [discriminate|].
    rewrite Hk. reflexivity.
  - rewrite split_two by assumption. rewrite bind_get.
    destruct (decide (SEND_KEY_SCANCODE = SEND_KEY_UNICODE)) as [Heq|_]; [discriminate|].
    reflexivity.
Qed.

(** X27.  The screenshot configuration is not applied as a whole.  [SSC]
    with [interval|format|path] stores the three values; when the format is
    not a number the command throws after the interval has been stored, so
    the interval is changed and the format and the path are not. *)
Theorem screenshot_config_partial (interval format path : string) (v : Z) (w : world) :
  lacks interval "|" -> lacks format "|" -> lacks path "|" -> path <> ""%string ->
  Str.stoi interval = inr v ->
  dispatch SET_SCREENSHOT_CONFIG (interval +:+ String "|" (format +:+ String "|" path)) w
  = match Str.stoi format with
    | inr f =>
        Ok tt (with_myrtille
                 (set_screenshotPath path
                    (set_screenshotFormat f
                       (set_screenshotIntervalSecs v (myrtille w)))) w)
    | inl e =>
        Fault (Exception e)
              (with_myrtille (set_screenshotIntervalSecs v (myrtille w)) w)
    end.
Proof.
  intros Hi Hf Hp Hne Hv. cbn [dispatch].
  rewrite split_three by assumption. rewrite Hv. cbn [throwing].
  rewrite bind_ret, bind_modify_myrtille.
  destruct (Str.stoi format) as [e|f]; reflexivity.
Qed.

End KeyProofs.

Lemma key_events_witness :
  let w := Sample.session in
  lacks "128512" "-" /\ lacks "1" "-" /\ lacks "0" "-"
  /\ "1"%string <> ""%string /\ "0"%string <> ""%string
  /\ UnicodeKeyboardEvent (context_input w) = true
  /\ KeyboardEvent (context_input w) = true
  /\ dispatch SEND_KEY_UNICODE ("128512" +:+ String "-" "1") w
     = Ok tt (with_effects [CallUnicodeKeyboardEvent 16384 62976] w)
  /\ dispatch SEND_KEY_SCANCODE ("128512" +:+ String "-" ("1" +:+ String "-" "0")) w
     = Ok tt (with_effects [CallKeyboardEvent 16384 62976] w).
Proof.
  intros w.
  assert (H1 : lacks "128512" "-") by reflexivity.
  assert (H2 : lacks "1" "-") by reflexivity.
  assert (H3 : lacks "0" "-") by reflexivity.
  assert (H4 : "1"%string <> ""%string) by discriminate.
  assert (H5 : "0"%string <> ""%string) by discriminate.
  assert (H6 : UnicodeKeyboardEvent (context_input w) = true) by reflexivity.
  assert (H7 : KeyboardEvent (context_input w) = true) by reflexivity.
  repeat (split; [assumption|]).
  destruct (key_events "128512" "1" "0" w H1 H2 H3 H4 H5 H6 H7) as (Eu & Es & _).
  split; [rewrite Eu|rewrite Es]; vm_compute; reflexivity.
Defined.

Lemma screenshot_config_partial_witness :
  let w := Sample.session in
  lacks "30" "|" /\ lacks "png" "|" /\ lacks "C:\shots" "|"
  /\ "C:\shots"%string <> ""%string
  /\ Str.stoi "30" = inr 30
  /\ dispatch SET_SCREENSHOT_CONFIG ("30" +:+ String "|" ("png" +:+ String "|" "C:\shots")) w
     = Fault (Exception invalid_argument)
             (with_myrtille (set_screenshotIntervalSecs 30 (myrtille w)) w).
Proof.
  intros w.
  assert (H1 : lacks "30" "|") by reflexivity.
  assert (H2 : lacks "png" "|") by reflexivity.
  assert (H3 : lacks "C:\shots" "|") by reflexivity.
  assert (H4 : "C:\shots"%string <> ""%string) by discriminate.
  assert (H5 : Str.stoi "30" = inr 30) by (vm_compute; reflexivity).
  repeat (split; [assumption|]).
  pose proof (screenshot_config_partial "30" "png" "C:\shots" 30 w H1 H2 H3 H4 H5) as E.
  assert (Hf : Str.stoi "png" = inl invalid_argument) by (vm_compute; reflexivity).
  rewrite Hf in E. exact E.
Defined.

(* ===================================================================== *)
(** * Encoder lookup *)
(* ===================================================================== *)

Lemma getEncoderClsid_loop_none (j : Z) (codecs : list ImageCodecInfo) (format : list Z) :
  Forall (fun codec => ~ encodes format codec) codecs ->
  getEncoderClsid_loop j codecs format = None.
Proof.
  intros Hnone. revert j. induction Hnone as [|codec codecs Hc _ IH]; intros j;
    cbn [getEncoderClsid_loop]; [reflexivity|].
  destruct (decide (wc_str (MimeType codec) = wc_str format)); [contradiction|apply IH].
Qed.

Lemma getEncoderClsid_loop_first (j : Z) (before after : list ImageCodecInfo)
    (codec : ImageCodecInfo) (format : list Z) :
  Forall (fun codec => ~ encodes format codec) before ->
  encodes format codec ->
  getEncoderClsid_loop j (before ++ codec :: after) format
  = Some (j + Z.of_nat (length before), Clsid codec).
Proof.
  intros Hnone Hc. revert j. induction Hnone as [|c before Hnc _ IH]; intros j;
    cbn [getEncoderClsid_loop app length].
  - destruct (decide (wc_str (MimeType codec) = wc_str format)); [|contradiction].
    do 2 f_equal. lia.
  - destruct (decide (wc_str (MimeType c) = wc_str format)); [contradiction|].
    rewrite IH. do 2 f_equal. lia.
Qed.

(** X28.  The encoder lookup finds the first codec of the MIME type.  When
    a codec of the type is installed, [getEncoderClsid] returns the index
    of the first one and stores its class identifier; when none is, or the
    encoder array is empty, it returns -1 and leaves the identifier as it
    was (the callers do not check the result). *)
Theorem encoder_lookup_first (size : Z) (before after : list ImageCodecInfo)
    (codec : ImageCodecInfo) (format : list Z) (pClsid : Z) :
  size <> 0 ->
  Forall (fun codec => ~ encodes format codec) before ->
  encodes format codec ->
  Z.of_nat (length before) <= INT_MAX ->
  getEncoderClsid size (before ++ codec :: after) format pClsid
  = (Z.of_nat (length before), Clsid codec)
  /\ getEncoderClsid size before format pClsid = (-1, pClsid)
  /\ getEncoderClsid 0 (before ++ codec :: after) format pClsid = (-1, pClsid).
Proof.
  intros Hsize Hnone Hc Hlen. unfold getEncoderClsid.
  apply Z.eqb_neq in Hsize. rewrite Hsize. cbn [Z.eqb].
  rewrite getEncoderClsid_loop_first, getEncoderClsid_loop_none by assumption.
  rewrite wrap_int_small by (unfold INT_MIN in *; lia).
  repeat split.
Qed.

Lemma encoder_lookup_first_witness :
  let bmp := {| MimeType := wstr "image/bmp"; Clsid := 11 |} in
  let jpeg := {| MimeType := wstr "image/jpeg"; Clsid := 22 |} in
  let png := {| MimeType := wstr "image/png"; Clsid := 33 |} in
  1040 <> 0
  /\ Forall (fun codec => ~ encodes (wstr "image/png") codec) [bmp; jpeg]
  /\ encodes (wstr "image/png") png
  /\ Z.of_nat (length [bmp; jpeg]) <= INT_MAX
  /\ getEncoderClsid 1040 [bmp; jpeg; png] (wstr "image/png") 0 = (2, 33).
Proof.
  intros bmp jpeg png.
  assert (H1 : 1040 <> 0) by lia.
  assert (H2 : Forall (fun codec => ~ encodes (wstr "image/png") codec) [bmp; jpeg])
    by (repeat constructor; discriminate).
  assert (H3 : encodes (wstr "image/png") png) by reflexivity.
  assert (H4 : Z.of_nat (length [bmp; jpeg]) <= INT_MAX) by (vm_compute; discriminate).
  repeat (split; [assumption|]).
  exact (proj1 (encoder_lookup_first 1040 [bmp; jpeg] [] png (wstr "image/png") 0 H1 H2 H3 H4)).
Defined.

(* ===================================================================== *)
(** * The cursor image *)
(* ===================================================================== *)

Lemma cursor_pixel_step (width x y : Z) (st : list Z * bool * bool) :
  cursor_pixel (4 * width) x st y = pixel_step st (pixel_index width x y).
Proof.
  destruct st as [[bits t] c]. unfold cursor_pixel, pixel_step, pixel_index, cdiv.
  replace (y * (4 * width)) with (y * width * 4) by lia.
  rewrite Z.quot_mul by lia. reflexivity.
Qed.

Lemma cursor_loops_flat (width : Z) (xs ys : list Z) (st : list Z * bool * bool) :
  foldl (fun st x => foldl (cursor_pixel (4 * width) x) st ys) st xs
  = foldl pixel_step st (xs ≫= fun x => pixel_index width x <$> ys).
Proof.
  revert st. induction xs as [|x xs IH]; intros st; [reflexivity|].
  cbn [foldl mbind list_bind]. rewrite foldl_app, <- IH. f_equal.
  rewrite foldl_fmap. clear IH. revert st.
  induction ys as [|y ys IH]; intros st; [reflexivity|].
  cbn [foldl]. now rewrite cursor_pixel_step, IH.
Qed.

Lemma pixel_step_recolor (bits : list Z) (t c : bool) (i : nat) (color : Z) :
  bits !! i = Some color ->
  pixel_step (bits, t, c) i
  = (<[i := recolor color]> bits, t || is_mask color, c || negb (is_mask color)).
Proof.
  intros Hi. unfold pixel_step, recolor. rewrite Hi. cbn [default from_option id].
  destruct (is_mask color); cbn [negb].
  - now rewrite orb_true_r, orb_false_r.
  - rewrite orb_false_r, orb_true_r.
    destruct (is_yellow color); [reflexivity|]. now rewrite list_insert_id.
Qed.

Lemma existsb_agree {A} (f g : A -> bool) (l : list A) :
  (forall x, x ∈ l -> f x = g x) -> existsb f l = existsb g l.
Proof.
  induction l as [|x l IH]; intros Hfg; [reflexivity|]. cbn [existsb].
  rewrite Hfg by left. rewrite IH; [reflexivity|]. intros y Hy. apply Hfg. now right.
Qed.

Lemma pixel_fold (idxs : list nat) (bits : list Z) (t c : bool) :
  NoDup idxs -> (forall i, i ∈ idxs -> (i < length bits)%nat) ->
  exists bits',
    foldl pixel_step (bits, t, c) idxs
    = (bits',
       t || existsb (fun i => is_mask (default 0 (bits !! i))) idxs,
       c || existsb (fun i => negb (is_mask (default 0 (bits !! i)))) idxs)
    /\ length bits' = length bits
    /\ forall j, bits' !! j = if bool_decide (j ∈ idxs) then recolor <$> bits !! j
                              else bits !! j.
Proof.
  intros Hnodup. revert bits t c.
  induction Hnodup as [|i idxs Hni Hnodup IH]; intros bits t c Hrange.
  - exists bits. cbn [foldl existsb]. rewrite !orb_false_r.
    split; [reflexivity|]. split; [reflexivity|]. intros j.
    rewrite bool_decide_eq_false_2; [reflexivity|]. apply not_elem_of_nil.
  - assert (Hi : (i < length bits)%nat) by (apply Hrange; left).
    destruct (lookup_lt_is_Some_2 bits i Hi) as [color Hcolor].
    cbn [foldl]. rewrite (pixel_step_recolor bits t c i color Hcolor).
    destruct (IH (<[i := recolor color]> bits) (t || is_mask color)
                 (c || negb (is_mask color))) as (bits' & Hfold & Hlen & Hbits).
    { intros k Hk. rewrite length_insert. apply Hrange. now right. }
    exists bits'. rewrite Hfold. rewrite length_insert in Hlen.
    assert (Hagree : forall k, k ∈ idxs ->
                       <[i := recolor color]> bits !! k = bits !! k).
    { intros k Hk. apply list_lookup_insert_ne. intros ->. contradiction. }
    split; [|split; [exact Hlen|]].
    + rewrite (existsb_agree
                 (fun k => is_mask (default 0 (<[i := recolor color]> bits !! k)))
                 (fun k => is_mask (default 0 (bits !! k))))
        by (intros k Hk; now rewrite Hagree).
      rewrite (existsb_agree
                 (fun k => negb (is_mask (default 0 (<[i := recolor color]> bits !! k))))
                 (fun k => negb (is_mask (default 0 (bits !! k)))))
        by (intros k Hk; now rewrite Hagree).
      cbn [existsb]. rewrite Hcolor. cbn [default from_option id].
      now rewrite !orb_assoc.
    + intros j. rewrite Hbits. destruct (decide (j = i)) as [->|Hne].
      * rewrite (bool_decide_eq_false_2 (i ∈ idxs)) by assumption.
        rewrite (bool_decide_eq_true_2 (i ∈ i :: idxs)) by left.
        rewrite list_lookup_insert_eq by assumption. now rewrite Hcolor.
      * rewrite list_lookup_insert_ne by congruence.
        destruct (decide (j ∈ idxs)) as [Hin|Hnin].
        -- rewrite !bool_decide_eq_true_2; [reflexivity|now right|assumption].
        -- rewrite !bool_decide_eq_false_2; [reflexivity| |assumption].
           intros [->|Hin]%elem_of_cons; contradiction.
Qed.

Lemma pixel_order_elem (width height : Z) (i : nat) :
  i ∈ pixel_order width height
  <-> exists x y, 0 <= x < width /\ 0 <= y < height /\ i = pixel_index width x y.
Proof.
  unfold pixel_order. rewrite list_elem_of_bind. split.
  - intros (x & Hi & Hx). apply list_elem_of_fmap in Hi as (y & -> & Hy).
    apply elem_of_seqZ in Hx, Hy. exists x, y. repeat split; lia.
  - intros (x & y & Hx & Hy & ->). exists x. split.
    + apply list_elem_of_fmap. exists y. split; [reflexivity|]. apply elem_of_seqZ. lia.
    + apply elem_of_seqZ. lia.
Qed.

Lemma pixel_index_inj (width x1 y1 x2 y2 : Z) :
  0 <= x1 < width -> 0 <= y1 -> 0 <= x2 < width -> 0 <= y2 ->
  pixel_index width x1 y1 = pixel_index width x2 y2 -> x1 = x2 /\ y1 = y2.
Proof.
  unfold pixel_index. intros Hx1 Hy1 Hx2 Hy2 E.
  assert (E' : y1 * width + x1 = y2 * width + x2) by nia.
  assert (Hm1 : (y1 * width + x1) mod width = x1)
    by (rewrite Z.add_comm, Z.mod_add, Z.mod_small; lia).
  assert (Hm2 : (y2 * width + x2) mod width = x2)
    by (rewrite Z.add_comm, Z.mod_add, Z.mod_small; lia).
  assert (Hx : x1 = x2) by congruence.
  split; [exact Hx|]. subst x2. nia.
Qed.

Lemma pixel_order_NoDup (width height : Z) : NoDup (pixel_order width height).
Proof.
  unfold pixel_order. apply NoDup_bind.
  - intros x1 x2 i Hx1 Hx2 H1 H2.
    apply list_elem_of_fmap in H1 as (y1 & -> & Hy1).
    apply list_elem_of_fmap in H2 as (y2 & E & Hy2).
    apply elem_of_seqZ in Hx1, Hx2, Hy1, Hy2.
    now apply (pixel_index_inj width x1 y1 x2 y2); try lia.
  - intros x Hx. apply elem_of_seqZ in Hx. apply NoDup_fmap_2_strong.
    + intros y1 y2 Hy1 Hy2 E. apply elem_of_seqZ in Hy1, Hy2.
      now apply (pixel_index_inj width x y1 x y2); try lia.
    + apply NoDup_seqZ.
  - apply NoDup_seqZ.
Qed.

Lemma pixel_order_range (width height : Z) (i : nat) :
  i ∈ pixel_order width height -> (i < Z.to_nat (width * height))%nat.
Proof.
  rewrite pixel_order_elem. intros (x & y & Hx & Hy & ->). unfold pixel_index. nia.
Qed.

Lemma pixel_order_complete (width height : Z) (i : nat) :
  0 <= width -> 0 <= height ->
  (i < Z.to_nat (width * height))%nat -> i ∈ pixel_order width height.
Proof.
  intros Hw Hh Hi. apply pixel_order_elem.
  assert (Hpos : 0 < width) by nia.
  exists (Z.of_nat i mod width), (Z.of_nat i / width).
  pose proof (Z.mod_pos_bound (Z.of_nat i) width Hpos) as Hmod.
  pose proof (Z.div_mod (Z.of_nat i) width ltac:(lia)) as Hdiv.
  split; [exact Hmod|]. split.
  - split; [apply Z.div_pos; lia|]. apply Z.div_lt_upper_bound; lia.
  - unfold pixel_index. lia.
Qed.

Lemma make_transparent_run (bmp : Bitmap) :
  packed bmp ->
  make_transparent bmp
  = ({| bm_width := bm_width bmp; bm_height := bm_height bmp;
        bm_stride := bm_stride bmp; bm_bits := recolor <$> bm_bits bmp |},
     existsb is_mask (bm_bits bmp),
     existsb (fun color => negb (is_mask color)) (bm_bits bmp)).
Proof.
  intros (Hw & Hh & Hstride & Hlen). unfold make_transparent.
  rewrite Hstride, cursor_loops_flat. fold (pixel_order (bm_width bmp) (bm_height bmp)).
  destruct (pixel_fold (pixel_order (bm_width bmp) (bm_height bmp)) (bm_bits bmp)
                       false false) as (bits' & Hfold & Hlen' & Hbits).
  { apply pixel_order_NoDup. }
  { intros i Hi. rewrite Hlen. now apply pixel_order_range. }
  rewrite Hfold. cbn [orb].
  assert (Hall : forall i, i ∈ pixel_order (bm_width bmp) (bm_height bmp)
                           <-> (i < length (bm_bits bmp))%nat).
  { intros i. rewrite Hlen. split; [apply pixel_order_range|now apply pixel_order_complete]. }
  assert (Hflag : forall f : Z -> bool,
            existsb (fun i => f (default 0 (bm_bits bmp !! i)))
                    (pixel_order (bm_width bmp) (bm_height bmp))
            = existsb f (bm_bits bmp)).
  { intros f. apply eq_true_iff_eq. rewrite !existsb_exists. split.
    - intros (i & Hi & Hf). apply list_elem_of_In, Hall in Hi.
      destruct (lookup_lt_is_Some_2 _ _ Hi) as [color Hcolor].
      rewrite Hcolor in Hf. exists color. split; [|exact Hf].
      apply list_elem_of_In. now apply list_elem_of_lookup_2 with i.
    - intros (color & Hin & Hf). apply list_elem_of_In, list_elem_of_lookup_1 in Hin as [i Hi].
      exists i. split.
      + apply list_elem_of_In, Hall. now apply lookup_lt_Some with color.
      + now rewrite Hi. }
  rewrite (Hflag is_mask), (Hflag (fun color => negb (is_mask color))).
  do 3 f_equal. apply list_eq. intros j. rewrite Hbits, list_lookup_fmap.
  destruct (decide (j < length (bm_bits bmp))%nat) as [Hj|Hj].
  - rewrite bool_decide_eq_true_2 by (now apply Hall). reflexivity.
  - rewrite bool_decide_eq_false_2 by (now rewrite Hall).
    rewrite lookup_ge_None_2 by lia. reflexivity.
Qed.

(** X29.  What the cursor conversion does.  On a bitmap with packed rows
    the two loops of [wf_myrtille_send_cursor] visit every pixel once and
    change each one on its own: a pixel of the blue mask becomes
    transparent white, a yellow pixel opaque black, any other pixel stays.
    The first flag tells whether the bitmap had a mask pixel, the second
    whether it had any other pixel; the cursor is sent when both hold.  The
    converted bitmap has the size it had and holds neither a mask pixel nor
    a yellow one. *)
Theorem cursor_conversion_pixelwise (bmp : Bitmap) :
  packed bmp ->
  make_transparent bmp
  = ({| bm_width := bm_width bmp; bm_height := bm_height bmp;
        bm_stride := bm_stride bmp; bm_bits := recolor <$> bm_bits bmp |},
     existsb is_mask (bm_bits bmp),
     existsb (fun color => negb (is_mask color)) (bm_bits bmp))
  /\ packed (make_transparent bmp).1.1
  /\ Forall (fun color => is_mask color = false /\ is_yellow color = false)
            (bm_bits (make_transparent bmp).1.1).
Proof.
  intros Hpacked. rewrite (make_transparent_run bmp Hpacked). cbn [fst].
  split; [reflexivity|]. split.
  - destruct Hpacked as (Hw & Hh & Hstride & Hlen).
    repeat split; cbn [bm_width bm_height bm_stride bm_bits]; try assumption.
    now rewrite length_fmap.
  - cbn [bm_bits]. apply Forall_fmap, Forall_true. intros color. cbn.
    unfold recolor. destruct (is_mask color) eqn:Hm; [split; reflexivity|].
    destruct (is_yellow color) eqn:Hy; [split; reflexivity|]. now split.
Qed.

Lemma cursor_conversion_pixelwise_witness :
  let bmp := {| bm_width := 2; bm_height := 2; bm_stride := 8;
                bm_bits := [255; 4294967040; 16777215; 4278190335] |} in
  packed bmp
  /\ make_transparent bmp
     = ({| bm_width := 2; bm_height := 2; bm_stride := 8;
           bm_bits := [16777215; 4278190080; 16777215; 16777215] |}, true, true).
Proof.
  intros bmp.
  assert (Hp : packed bmp) by (repeat split; vm_compute; congruence).
  split; [exact Hp|].
  rewrite (proj1 (cursor_conversion_pixelwise bmp Hp)). vm_compute. reflexivity.
Defined.

Section CursorProofs.
Context `{Platform}.

(** X30.  The cursor message.  With a session id and a primary surface, for
    a cursor bitmap with packed rows, [wf_myrtille_send_cursor] writes one
    image message when the bitmap has both a mask pixel and another pixel,
    its PNG stream is not empty and the pipe is open, and none otherwise.
    The message carries the next sequence index, the hotspot of the cursor
    as its position, the size of the bitmap, the format [CUR], the quality
    100, the fullscreen flag 0, and the PNG of the converted bitmap. *)
Theorem cursor_message (hdc : Bitmap) (w : world) :
  MyrtilleSessionId (settings w) <> None ->
  primary w = Some hdc ->
  packed (DrawIconEx (cursor w)) ->
  0 <= imageIdx (myrtille w) <= INT_MAX ->
  let icon := DrawIconEx (cursor w) in
  let converted :=
    {| bm_width := bm_width icon; bm_height := bm_height icon;
       bm_stride := bm_stride icon; bm_bits := recolor <$> bm_bits icon |} in
  let png := Save_png converted in
  new_frames w (final (wf_myrtille_send_cursor w))
  = if existsb is_mask (bm_bits icon)
       && existsb (fun color => negb (is_mask color)) (bm_bits icon)
       && (0 <? stream_size png) && image_sent w (wrap_int (stream_size png))
    then [image_message (next_idx (imageIdx (myrtille w)))
            (fst (GetIconInfo (cursor w))) (snd (GetIconInfo (cursor w)))
            (bm_width icon) (bm_height icon) IMAGE_FORMAT.CUR IMAGE_QUALITY.HIGHEST false
            (stream_read png (wrap_int (stream_size png)))]
    else [].
Proof.
  intros Hid Hprimary Hpacked Hidx icon converted png.
  unfold wf_myrtille_send_cursor. rewrite bind_get, Hprimary.
  destruct (MyrtilleSessionId (settings w)); [|contradiction].
  rewrite (make_transparent_run _ Hpacked). fold icon. fold converted.
  destruct (existsb is_mask (bm_bits icon)); cbn [andb];
    [|now apply new_frames_same].
  destruct (existsb (fun color => negb (is_mask color)) (bm_bits icon)); cbn [andb];
    [|now apply new_frames_same].
  cbv zeta. fold png. destruct (GetIconInfo (cursor w)) as [xHotspot yHotspot].
  cbn [fst snd bm_width bm_height].
  destruct (0 <? stream_size png) eqn:Hsize; cbn [andb].
  - rewrite reset_then_preincrement by assumption.
    set (w1 := with_myrtille _ w).
    destruct (sendImage_final converted (next_idx (imageIdx (myrtille w))) xHotspot yHotspot
                (bm_width icon) (bm_height icon) IMAGE_FORMAT.CUR IMAGE_QUALITY.HIGHEST
                png (wrap_int (stream_size png)) false w1)
      as (Hwritten & _ & _); [apply wrap_int_range|].
    change (image_sent w1 (wrap_int (stream_size png)))
      with (image_sent w (wrap_int (stream_size png))) in Hwritten.
    change (written (updatesPipe w1)) with (written (updatesPipe w)) in Hwritten.
    destruct (image_sent w (wrap_int (stream_size png))).
    + now apply new_frames_one.
    + rewrite app_nil_r in Hwritten. now apply new_frames_same.
  - apply new_frames_same. unfold reset_imageIdx.
    rewrite bind_bind, bind_gets.
    destruct (imageIdx (myrtille w) =? INT_MAX); reflexivity.
Qed.

End CursorProofs.

Lemma cursor_message_witness :
  let w := Sample.session in
  MyrtilleSessionId (settings w) <> None
  /\ primary w = Some (Sample.blank 1024 768)
  /\ packed (DrawIconEx (cursor w))
  /\ 0 <= imageIdx (myrtille w) <= INT_MAX
  /\ new_frames w (final (wf_myrtille_send_cursor w))
     = [image_message 1 3 4 2 1 IMAGE_FORMAT.CUR 100 false [80; 80]].
Proof.
  intros w.
  assert (Hid : MyrtilleSessionId (settings w) <> None) by discriminate.
  assert (Hprimary : primary w = Some (Sample.blank 1024 768)) by reflexivity.
  assert (Hpacked : packed (DrawIconEx (cursor w))) by (repeat split; vm_compute; congruence).
  assert (Hidx : 0 <= imageIdx (myrtille w) <= INT_MAX) by (vm_compute; split; discriminate).
  split; [exact Hid|]. split; [exact Hprimary|]. split; [exact Hpacked|].
  split; [exact Hidx|].
  rewrite (cursor_message (Sample.blank 1024 768) w Hid Hprimary Hpacked Hidx).
  vm_compute. reflexivity.
Defined.
